(** * ai-digest: the hybrid risk-scoring pipeline

    A shallow embedding of the risk formula ([src/analysis/risk.ts]), of the
    AI escalation ([src/analysis/ai-risk.ts]) and of the merge step of the
    digest command ([src/commands/digest.tsx]), followed by the properties
    the specification states about them.

    Modelling choices, shared by the whole development:
    - a JavaScript [number] that holds a score, a weight, a threshold or a
      duration is an IEEE-754 binary64 value, here a primitive [float]; the
      arithmetic of the formula is the machine's, rounding included;
    - the three counters of a pull request ([additions], [deletions],
      [changedFiles]) are integers delivered by the GitHub API; they are
      kept in [Z] (JavaScript adds and compares integers of the safe
      range exactly) and enter floating point where the source divides
      them, after [Math.min] has capped them;
    - a file path is the byte string of its UTF-8 encoding; [toLowerCase]
      acts on the ASCII letters, which is all the regular expressions of
      the source can observe (no other code point lowers to a letter of
      "test" or "spec");
    - [Map<number, AIRiskAnalysis>] is a [gmap Z AIRiskAnalysis];
    - the outside world (the model provider behind [generateObject], the
      console, timers) is an explicit state threaded through the calls;
      the calls of a group are started in order and the order in which
      they settle is the world's choice, not the program's. *)

From Stdlib Require Import ZArith List String Ascii Floats Lia Bool.
From Stdlib Require Import DecimalString DecimalNat.
From stdpp Require Import base gmap list.

Set Warnings "-inexact-float".
#[local] Open Scope Z_scope.

(** ** JavaScript primitives used by the source *)

Module JS.

(** [String.prototype.toLowerCase], on the ASCII letters. *)
Definition toLowerCase_char (c : ascii) : ascii :=
  let n := N_of_ascii c in
  if ((65 <=? n) && (n <=? 90))%N then ascii_of_N (n + 32) else c.

Fixpoint toLowerCase (s : string) : string :=
  match s with
  | EmptyString => EmptyString
  | String c r => String (toLowerCase_char c) (toLowerCase r)
  end.

(** [/a1|a2|.../.test(s)] for literal alternatives: some alternative
    matches at some position of [s]. *)
Fixpoint regex_test (alts : list string) (s : string) : bool :=
  existsb (fun a => String.prefix a s) alts
  || match s with
     | EmptyString => false
     | String _ r => regex_test alts r
     end.

(** [Array.prototype.some]. *)
Definition some {A} (p : A -> bool) (l : list A) : bool := existsb p l.

(** [Array.prototype.slice(start, end)], negative indices included. *)
Definition slice {A} (l : list A) (start end_ : Z) : list A :=
  let len := Z.of_nat (length l) in
  let k := if start <? 0 then Z.max (len + start) 0 else Z.min start len in
  let final := if end_ <? 0 then Z.max (len + end_) 0 else Z.min end_ len in
  take (Z.to_nat (final - k)) (drop (Z.to_nat k) l).

(** The number that holds an integer. *)
Definition number_of_Z (z : Z) : float :=
  match z with
  | Z0 => 0%float
  | Zpos _ => PrimFloat.of_uint63 (Uint63.of_Z z)
  | Zneg p => (- PrimFloat.of_uint63 (Uint63.of_Z (Zpos p)))%float
  end.

(** [x || d] on an optional number: [undefined], [0] and [NaN] are falsy. *)
Definition or_default (x : option float) (d : float) : float :=
  match x with
  | None => d
  | Some v => if (v =? 0)%float || negb (v =? v)%float then d else v
  end.

End JS.

(** ** Data model *)

(** [riskAnalysisSchema] of [ai-risk.ts]. *)
Module Schema.
Record AIRiskAnalysis : Type := {
  riskScore : float;
  riskFactors : list string;
  reasoning : string;
  concerns : list string;
  recommendations : list string;
}.
End Schema.

(** [github/types.ts]; dates are epoch milliseconds. [aiRiskAnalysis] is
    the field the digest command attaches. *)
Module Types.
Record PullRequest : Type := {
  number : Z;
  title : string;
  url : string;
  labels : list string;
  additions : Z;
  deletions : Z;
  changedFiles : Z;
  filesChanged : list string;
  createdAt : Z;
  mergedAt : option Z;
  timeToMergeHours : float;
  author : string;
  riskScore : option float;
  aiRiskAnalysis : option Schema.AIRiskAnalysis;
}.
End Types.
Import Types.

(** ** [analysis/risk.ts] *)

Module Risk.

Definition test_like (f : string) : bool :=
  JS.regex_test ["test"; "spec"; ".test."; ".spec."]%string (JS.toLowerCase f).

(** The four terms of the weighted sum, left to right as the source adds
    them. *)
Definition weighted (normalizedLines normalizedFiles : float)
    (noTests slowMerge : bool) : float :=
  (normalizedLines * 0.4
   + normalizedFiles * 0.3
   + (if noTests then 0.2 else 0)
   + (if slowMerge then 0.1 else 0))%float.

Definition noTests (pr : PullRequest) : bool :=
  negb (JS.some test_like (filesChanged pr)).

Definition slowMerge (pr : PullRequest) : bool :=
  (72 <? timeToMergeHours pr)%float.

Definition calculateRisk (pr : PullRequest) : float :=
  let totalLines := additions pr + deletions pr in
  let normalizedLines := (JS.number_of_Z (Z.min totalLines 2000) / 2000)%float in
  let normalizedFiles := (JS.number_of_Z (Z.min (changedFiles pr) 20) / 20)%float in
  weighted normalizedLines normalizedFiles (noTests pr) (slowMerge pr).

Definition with_riskScore (pr : PullRequest) (r : option float) : PullRequest :=
  {| number := number pr; title := title pr; url := url pr;
     labels := labels pr; additions := additions pr;
     deletions := deletions pr; changedFiles := changedFiles pr;
     filesChanged := filesChanged pr; createdAt := createdAt pr;
     mergedAt := mergedAt pr; timeToMergeHours := timeToMergeHours pr;
     author := author pr; riskScore := r;
     aiRiskAnalysis := aiRiskAnalysis pr |}.

Definition calculateRiskForPRs (prs : list PullRequest) : list PullRequest :=
  map (fun pr => with_riskScore pr (Some (calculateRisk pr))) prs.

(** [(pr.riskScore || 0) >= threshold], the threshold being 0.5 when none
    is given. *)
Definition getRiskyPRs (prs : list PullRequest) (threshold : option float)
    : list PullRequest :=
  List.filter
    (fun pr => (default 0.5 threshold <=? JS.or_default (riskScore pr) 0)%float) prs.

End Risk.

(** ** [analysis/ai-risk.ts] *)

Module AiRisk.

Import Schema.

(** What the program does to the outside world, in program order. *)
Inductive Event : Type :=
| GenerateObject (prNumber : Z)      (* a request sent to the model *)
| ConsoleError (prNumber : Z)        (* "Error analyzing PR #n:" *)
| ConsoleLog (highRisk : nat)        (* "Analyzing n high-risk PRs with AI..." *)
| OnProgress (current total : Z)     (* the caller's callback is invoked *)
| SetTimeout (ms : Z).               (* the pause between two batches *)

(** The pull requests the model was asked about, in order. *)
Definition calls (tr : list Event) : list Z :=
  omap (fun e => match e with GenerateObject n => Some n | _ => None end) tr.

Record Options : Type := {
  concurrent : option Z;
  onProgress : bool;                 (* whether a callback was supplied *)
}.

Definition noOptions : Options := {| concurrent := None; onProgress := false |}.

Definition test_like (f : string) : bool :=
  JS.regex_test ["test"; "spec"]%string f.

Definition noTests (pr : PullRequest) : bool :=
  negb (JS.some test_like (filesChanged pr)).

Definition slowMerge (pr : PullRequest) : bool :=
  (72 <? timeToMergeHours pr)%float.

(** The private scorer, "the original formula" by its own comment. *)
Definition calculateFormulaRisk (pr : PullRequest) : float :=
  let normalizedLines :=
    (JS.number_of_Z (Z.min (additions pr + deletions pr) 2000) / 2000)%float in
  let normalizedFiles :=
    (JS.number_of_Z (Z.min (changedFiles pr) 20) / 20)%float in
  (normalizedLines * 0.4
   + normalizedFiles * 0.3
   + (if noTests pr then 0.2 else 0)
   + (if slowMerge pr then 0.1 else 0))%float.

(** The subset [prs.filter(...)] hands to the escalation. *)
Definition highRiskPRs (prs : list PullRequest) (formulaRiskThreshold : float)
    : list PullRequest :=
  List.filter
    (fun pr => (formulaRiskThreshold <=? calculateFormulaRisk pr)%float) prs.

(** [for (const result of batchResults) if (result) results.set(...)]. *)
Definition store (results : gmap Z AIRiskAnalysis)
    (result : option (Z * AIRiskAnalysis)) : gmap Z AIRiskAnalysis :=
  match result with
  | Some (prNumber, analysis) => <[prNumber := analysis]> results
  | None => results
  end.

Definition storeAll (results : gmap Z AIRiskAnalysis)
    (batchResults : list (option (Z * AIRiskAnalysis))) : gmap Z AIRiskAnalysis :=
  foldl store results batchResults.

Section WithProvider.

(** The model provider: from its current state and the pull request it
    is asked about, either a schema-conforming object or a failure
    (network fault, provider error, response refused by the schema),
    and its next state. *)
Variable Remote : Type.
Variable provider : Remote -> PullRequest -> option AIRiskAnalysis * Remote.

(** The outside world: the state of the provider, the order in which
    rejected promises are delivered, and what the program has done so
    far. Which of the pending rejections reaches its [catch] next is not
    the program's choice: [nextSettled] is given the trace so far and the
    numbers of the records whose rejection is still to be delivered
    (oldest request first) and answers with a position in that list, read
    modulo its length. *)
Record World : Type := {
  remote : Remote;
  nextSettled : list Event -> list Z -> nat;
  trace : list Event;
}.

Definition emit (e : Event) (w : World) : World :=
  {| remote := remote w; nextSettled := nextSettled w; trace := trace w ++ [e] |}.

(** [analyzeRiskWithAI]: the request leaves when the function is called;
    the promise it returns will settle with [Some object] or reject
    ([None]). *)
Definition analyzeRiskWithAI (pr : PullRequest) (apiKey : string) (w : World)
    : option AIRiskAnalysis * World :=
  let '(object, s') := provider (remote w) pr in
  (object, {| remote := s'; nextSettled := nextSettled w;
              trace := trace w ++ [GenerateObject (number pr)] |}).

(** One element of [batch.map(async (pr) => { try ... catch ... })], up
    to its [await]: the call is made, and the element will settle with
    [Some (prNumber, analysis)] or, after its [catch] has run, with
    [null]. *)
Definition analyzeOne (apiKey : string) (pr : PullRequest) (w : World)
    : option (Z * AIRiskAnalysis) * World :=
  match analyzeRiskWithAI pr apiKey w with
  | (Some analysis, w') => (Some (number pr, analysis), w')
  | (None, w') => (None, w')
  end.

(** [batch.map(...)]: the calls of a batch are all made, in the order of
    [batch], before any of them settles. *)
Fixpoint startAll (apiKey : string) (batch : list PullRequest) (w : World)
    : list (option (Z * AIRiskAnalysis)) * World :=
  match batch with
  | [] => ([], w)
  | pr :: rest =>
      let '(r, w1) := analyzeOne apiKey pr w in
      let '(rs, w2) := startAll apiKey rest w1 in
      (r :: rs, w2)
  end.

(** The numbers of the records of a batch whose call is rejected. *)
Fixpoint rejections (batch : list PullRequest)
    (batchResults : list (option (Z * AIRiskAnalysis))) : list Z :=
  match batch, batchResults with
  | pr :: batch', None :: batchResults' => number pr :: rejections batch' batchResults'
  | _ :: batch', Some _ :: batchResults' => rejections batch' batchResults'
  | _, _ => []
  end.

(** The [catch] blocks of a batch run as the rejections are delivered,
    each logging [console.error("Error analyzing PR #n:", error)]. *)
Fixpoint catchAll (fuel : nat) (pending : list Z) (w : World) : World :=
  match fuel with
  | O => w
  | S fuel' =>
      let k := (nextSettled w (trace w) pending mod length pending)%nat in
      match drop k pending with
      | prNumber :: later =>
          catchAll fuel' (take k pending ++ later) (emit (ConsoleError prNumber) w)
      | [] => w
      end
  end.

(** [await Promise.all(batch.map(...))]: every call of the batch is
    started, the rejected ones are caught in the order in which they
    settle, and the value is the outcomes in the order of [batch]. *)
Definition promiseAll (apiKey : string) (batch : list PullRequest) (w : World)
    : list (option (Z * AIRiskAnalysis)) * World :=
  let '(batchResults, w1) := startAll apiKey batch w in
  let pending := rejections batch batchResults in
  (batchResults, catchAll (length pending) pending w1).

(** What a run of the batch loop leaves behind: the map, the successive
    values of the local [batch], and the world. *)
Record Outcome : Type := {
  results : gmap Z AIRiskAnalysis;
  batches : list (list PullRequest);
  world : World;
}.

(** The [for (let i = 0; i < prs.length; i += concurrent)] loop, from
    the iteration at index [i]. The source has no guard on [concurrent],
    so the loop need not end: [fuel] bounds the iterations and [None]
    means that it ran out. *)
Fixpoint batchLoop (fuel : nat) (prs : list PullRequest) (apiKey : string)
    (concurrent : Z) (onProgress : bool) (i : Z) (acc : Outcome)
    : option Outcome :=
  match fuel with
  | O => None
  | S fuel' =>
      let len := Z.of_nat (length prs) in
      if i <? len then
        let batch := JS.slice prs i (i + concurrent) in
        let '(batchResults, w1) := promiseAll apiKey batch (world acc) in
        let results' := storeAll (results acc) batchResults in
        let w2 := if onProgress
                  then emit (OnProgress (Z.min (i + concurrent) len) len) w1
                  else w1 in
        let w3 := if i + concurrent <? len then emit (SetTimeout 500) w2 else w2 in
        batchLoop fuel' prs apiKey concurrent onProgress (i + concurrent)
          {| results := results'; batches := batches acc ++ [batch]; world := w3 |}
      else Some acc
  end.

Definition batchAnalyzeRisksWithAI (fuel : nat) (prs : list PullRequest)
    (apiKey : string) (options : Options) (w : World) : option Outcome :=
  let concurrent := default 3 (concurrent options) in
  batchLoop fuel prs apiKey concurrent (onProgress options) 0
    {| results := ∅; batches := []; world := w |}.

Definition hybridRiskAnalysis (fuel : nat) (prs : list PullRequest)
    (apiKey : string) (formulaRiskThreshold : option float) (w : World)
    : option Outcome :=
  let threshold := default 0.5%float formulaRiskThreshold in
  let selected := highRiskPRs prs threshold in
  batchAnalyzeRisksWithAI fuel selected apiKey noOptions
    (emit (ConsoleLog (length selected)) w).

End WithProvider.

Arguments remote {Remote} _.
Arguments nextSettled {Remote} _ _ _.
Arguments trace {Remote} _.
Arguments emit {Remote} _ _.
Arguments results {Remote} _.
Arguments batches {Remote} _.
Arguments world {Remote} _.
Arguments analyzeRiskWithAI {Remote} _ _ _ _.
Arguments analyzeOne {Remote} _ _ _ _.
Arguments startAll {Remote} _ _ _ _.
Arguments catchAll {Remote} _ _ _.
Arguments promiseAll {Remote} _ _ _ _.
Arguments batchLoop {Remote} _ _ _ _ _ _ _ _.
Arguments batchAnalyzeRisksWithAI {Remote} _ _ _ _ _ _.
Arguments hybridRiskAnalysis {Remote} _ _ _ _ _ _.

End AiRisk.

(** ** [commands/digest.tsx]: the risk stage of [run]

    The version of the command that takes [--ai-risk] and
    [--ai-risk-threshold]. *)

Module Digest.

Import Schema.

(** [pr.aiRiskAnalysis = aiAnalysis; pr.riskScore = aiAnalysis.riskScore]. *)
Definition attach (pr : PullRequest) (aiAnalysis : AIRiskAnalysis) : PullRequest :=
  {| number := number pr; title := title pr; url := url pr;
     labels := labels pr; additions := additions pr;
     deletions := deletions pr; changedFiles := changedFiles pr;
     filesChanged := filesChanged pr; createdAt := createdAt pr;
     mergedAt := mergedAt pr; timeToMergeHours := timeToMergeHours pr;
     author := author pr;
     Types.riskScore := Some (Schema.riskScore aiAnalysis);
     aiRiskAnalysis := Some aiAnalysis |}.

(** [for (const pr of prsWithRisk) { const aiAnalysis =
    aiRiskResults.get(pr.number); if (aiAnalysis) ... }]: every element
    of [prsWithRisk] is an object of its own (made by the spread of
    [calculateRiskForPRs]), so the in-place update is a map. *)
Definition mergeOne (aiRiskResults : gmap Z AIRiskAnalysis) (pr : PullRequest)
    : PullRequest :=
  match aiRiskResults !! number pr with
  | Some aiAnalysis => attach pr aiAnalysis
  | None => pr
  end.

Definition merge (aiRiskResults : gmap Z AIRiskAnalysis)
    (prsWithRisk : list PullRequest) : list PullRequest :=
  map (mergeOne aiRiskResults) prsWithRisk.

Section WithProvider.

Variable Remote : Type.
Variable provider : Remote -> PullRequest -> option AIRiskAnalysis * Remote.

(** From "Calculate risk scores" down to the merge of the AI analysis
    into the PR objects; the value is [prsWithRisk] as the rest of
    [run] sees it. *)
Definition analyzeRisks (fuel : nat) (prs : list PullRequest) (apiKey : string)
    (aiRisk : bool) (aiRiskThreshold : option float) (w : AiRisk.World Remote)
    : option (list PullRequest * AiRisk.World Remote) :=
  let prsWithRisk := Risk.calculateRiskForPRs prs in
  if aiRisk then
    match AiRisk.hybridRiskAnalysis provider fuel prsWithRisk apiKey
            (Some (JS.or_default aiRiskThreshold 0.5)) w with
    | Some out => Some (merge (AiRisk.results out) prsWithRisk, AiRisk.world out)
    | None => None
    end
  else Some (prsWithRisk, w).

End WithProvider.

Arguments analyzeRisks {Remote} _ _ _ _ _ _ _.

End Digest.

(** ** The specification's own notions *)

Module Spec.

Import Schema.

(** "Partition records into consecutive groups of size concurrency,
    preserving input order across groups." *)
Fixpoint groups_upto {A} (fuel : nat) (size : nat) (l : list A) : list (list A) :=
  match fuel, l with
  | O, _ | _, [] => []
  | S fuel', _ => take size l :: groups_upto fuel' size (drop size l)
  end.

Definition groups {A} (size : nat) (l : list A) : list (list A) :=
  groups_upto (length l) size l.

(** "As if each record were analyzed individually": the records are sent
    to the provider one at a time, in input order. *)
Fixpoint individually {Remote}
    (provider : Remote -> PullRequest -> option AIRiskAnalysis * Remote)
    (s : Remote) (prs : list PullRequest)
    : list (option (Z * AIRiskAnalysis)) * Remote :=
  match prs with
  | [] => ([], s)
  | pr :: rest =>
      let '(object, s1) := provider s pr in
      let '(rs, s2) := individually provider s1 rest in
      (((fun analysis => (number pr, analysis)) <$> object) :: rs, s2)
  end.

(** "The result-map entries produced are the same as if each record were
    analyzed individually": under a number, the analysis returned by the
    last successful individual call for a record of that number, and
    nothing when there is no such call. *)
Fixpoint entry (settled : list (option (Z * AIRiskAnalysis))) (n : Z)
    : option AIRiskAnalysis :=
  match settled with
  | [] => None
  | r :: later =>
      match entry later n, r with
      | Some analysis, _ => Some analysis
      | None, Some (k, analysis) => if bool_decide (k = n) then Some analysis else None
      | None, None => None
      end
  end.

(** Of the settled calls, how many succeeded and how many failed. *)
Definition successes {X} (settled : list (option X)) : nat :=
  length (omap id settled).

Definition failures {X} (settled : list (option X)) : nat :=
  length (List.filter (fun r => match r with None => true | Some _ => false end)
            settled).

(** The description of a change as it was fetched: every field but the
    two the pipeline writes. *)
Definition same_change (a b : PullRequest) : Prop :=
  number a = number b /\ title a = title b /\ url a = url b
  /\ labels a = labels b /\ additions a = additions b
  /\ deletions a = deletions b /\ changedFiles a = changedFiles b
  /\ filesChanged a = filesChanged b /\ createdAt a = createdAt b
  /\ mergedAt a = mergedAt b /\ timeToMergeHours a = timeToMergeHours b
  /\ author a = author b.

(** "Case-insensitively contains the substring": some position of the
    lower-cased path starts with it. *)
Definition contains_ci (needle path : string) : Prop :=
  exists before after : string,
    JS.toLowerCase path = (before ++ needle ++ after)%string.

End Spec.

(** ** Sample data *)

Definition mkPR (n a d cf : Z) (files : list string) (hours : float) : PullRequest :=
  {| number := n; title := ""; url := ""; labels := []; additions := a;
     deletions := d; changedFiles := cf; filesChanged := files;
     createdAt := 0; mergedAt := Some 0; timeToMergeHours := hours;
     author := ""; riskScore := None; aiRiskAnalysis := None |}.

Definition mkAnalysis (score : float) : Schema.AIRiskAnalysis :=
  {| Schema.riskScore := score; Schema.riskFactors := [];
     Schema.reasoning := "r"; Schema.concerns := [];
     Schema.recommendations := [] |}.

(** A provider without state that refuses the pull requests numbered in
    [failing] and answers 0.9 for the others. *)
Definition flaky (failing : list Z) (s : unit) (pr : PullRequest)
    : option Schema.AIRiskAnalysis * unit :=
  (if bool_decide (number pr ∈ failing) then None else Some (mkAnalysis 0.9), s).

(** A provider that numbers its answers: the k-th request (from 0) is
    answered with the score k/10. *)
Definition counting (s : Z) (pr : PullRequest) : option Schema.AIRiskAnalysis * Z :=
  (Some (mkAnalysis (JS.number_of_Z s / 10)), s + 1).

(** A world in which rejections are delivered oldest request first, and
    one in which the latest request is the first to be rejected. *)
Definition world0 : AiRisk.World unit :=
  {| AiRisk.remote := tt; AiRisk.nextSettled := fun _ _ => 0%nat; AiRisk.trace := [] |}.

Definition lastFirst : AiRisk.World unit :=
  {| AiRisk.remote := tt;
     AiRisk.nextSettled := fun _ pending => (length pending - 1)%nat;
     AiRisk.trace := [] |}.

Definition seven : list PullRequest :=
  map (fun n => mkPR n 1500 500 20 ["src/feature.ts"%string] 73) [1; 2; 3; 4; 5; 6; 7].

Definition labelledPR (n : Z) (ls : list string) : PullRequest :=
  {| number := n; title := ""; url := ""; labels := ls; additions := 1;
     deletions := 1; changedFiles := 1; filesChanged := [];
     createdAt := 0; mergedAt := Some 0; timeToMergeHours := 1;
     author := ""; riskScore := None; aiRiskAnalysis := None |}.

Definition labelled : list PullRequest :=
  [labelledPR 1 ["bug"; "api"]%string; labelledPR 2 ["bug"]%string;
   labelledPR 3 []; labelledPR 4 ["docs"]%string; labelledPR 5 ["bug"]%string;
   labelledPR 6 ["unlabeled"]%string].

(** ** Exhaustive checks of the formula

    Once the counters are capped the formula has finitely many inputs:
    2001 values of the line term, 21 of the file term, and two booleans. *)

Module Check.

Definition Zrange (n : nat) : list Z := map Z.of_nat (seq 0 n).

Definition capped_score (l f : Z) (noTests slowMerge : bool) : float :=
  Risk.weighted (JS.number_of_Z l / 2000)%float (JS.number_of_Z f / 20)%float
    noTests slowMerge.

Definition over_inputs (p : Z -> Z -> bool -> bool -> bool) : bool :=
  forallb (fun l =>
    forallb (fun f =>
      forallb (fun noTests =>
        forallb (fun slowMerge => p l f noTests slowMerge) [false; true])
      [false; true])
    (Zrange 21))
  (Zrange 2001).

Definition in_unit_interval (s : float) : bool :=
  ((0 <=? s) && (s <=? 1))%float.

Definition top_score : float := Eval cbv in (0x1.fffffffffffffp-1)%float.

End Check.

(** ** [parseInt] and [Date] *)

Module JSNumber.

Definition is_digit (c : ascii) : bool :=
  let n := N_of_ascii c in ((48 <=? n) && (n <=? 57))%N.

Definition digit_value (c : ascii) : Z := Z.of_N (N_of_ascii c) - 48.

(** One white-space or line-terminator code point at the head of the
    string, in UTF-8: TAB, LF, VT, FF, CR, SP, U+00A0, U+1680,
    U+2000..U+200A, U+2028, U+2029, U+202F, U+205F, U+3000, U+FEFF. *)
Definition strip_white (s : string) : option string :=
  match s with
  | EmptyString => None
  | String c r =>
      let n := N_of_ascii c in
      if (((9 <=? n) && (n <=? 13)) || (n =? 32))%N then Some r else
      match r with
      | String d r1 =>
          let m := N_of_ascii d in
          if ((n =? 194) && (m =? 160))%N then Some r1 else
          match r1 with
          | String e r2 =>
              let k := N_of_ascii e in
              if (((n =? 225) && (m =? 154) && (k =? 128))
                  || ((n =? 226) && (m =? 128)
                      && (((128 <=? k) && (k <=? 138)) || (k =? 168) || (k =? 169)
                          || (k =? 175)))
                  || ((n =? 226) && (m =? 129) && (k =? 159))
                  || ((n =? 227) && (m =? 128) && (k =? 128))
                  || ((n =? 239) && (m =? 187) && (k =? 191)))%N
              then Some r2 else None
          | EmptyString => None
          end
      | EmptyString => None
      end
  end.

Fixpoint trim_start (fuel : nat) (s : string) : string :=
  match fuel with
  | O => s
  | S fuel' =>
      match strip_white s with
      | Some rest => trim_start fuel' rest
      | None => s
      end
  end.

(** The value of the longest run of decimal digits at the head. *)
Fixpoint read_digits (s : string) (acc : Z) : Z :=
  match s with
  | String c r => if is_digit c then read_digits r (acc * 10 + digit_value c) else acc
  | EmptyString => acc
  end.

(** [parseInt(s, 10)]: leading white space, an optional sign, then digits
    up to the first other character; [None] is NaN. The integer is kept
    exact. *)
Definition parseInt (s : string) : option Z :=
  let s1 := trim_start (String.length s) s in
  let '(sign, s2) :=
    match s1 with
    | String "-" r => (-1, r)
    | String "+" r => (1, r)
    | _ => (1, s1)
    end in
  match s2 with
  | String c _ => if is_digit c then Some (sign * read_digits s2 0) else None
  | EmptyString => None
  end.

(** [Number.prototype.toString] of a non-negative integer below 10^21:
    its decimal digits. *)
Definition toString (n : nat) : string := NilEmpty.string_of_uint (Nat.to_uint n).

(** The number [parseInt] returns for the digits of a non-negative
    integer: the double nearest to it, ties going to the even mantissa
    (so every integer up to 2^53 is returned as it is and larger ones are
    rounded). The standard prescribes this for numerals of at most 20
    significant digits and lets an implementation approximate longer
    ones. *)
Definition number_of_integer (z : Z) : float :=
  SF2Prim (binary_normalize prec emax z 0 false).

(** The integer a number holds, when it holds one: the value of the
    mantissa scaled by the exponent. *)
Definition integer_of (x : float) : option Z :=
  match Prim2SF x with
  | S754_zero _ => Some 0
  | S754_finite s m e =>
      if 0 <=? e then Some ((if s then -1 else 1) * (Z.pos m * 2 ^ e))
      else if Z.pos m mod 2 ^ (- e) =? 0
           then Some ((if s then -1 else 1) * (Z.pos m / 2 ^ (- e)))
           else None
  | _ => None
  end.

(** [new Date(t)]: the time value when it is within 8.64e15 ms of the
    epoch, an Invalid Date ([None]) otherwise. *)
Definition newDate (t : option Z) : option Z :=
  match t with
  | Some v => if (-8640000000000000 <=? v) && (v <=? 8640000000000000) then Some v else None
  | None => None
  end.

End JSNumber.

(** ** [github/client.ts] *)

Module Client.

Record Octokit : Type := { auth : string }.

(** The module variable [octokitInstance] is the state. *)
Definition initGitHubClient (token : string) (octokitInstance : option Octokit)
    : Octokit * option Octokit :=
  let instance := {| auth := token |} in (instance, Some instance).

Definition getGitHubClient (octokitInstance : option Octokit) : string + Octokit :=
  match octokitInstance with
  | None => inl "GitHub client not initialized. Call initGitHubClient first."%string
  | Some instance => inr instance
  end.

End Client.

(** ** [config/index.ts] *)

Module Config.

Module Options.
Record t : Type := {
  owner : option string;
  repo : option string;
  since : option string;
}.
End Options.

Record GitHub : Type := { token : string; owner : string; repo : string }.
Record OpenAI : Type := { apiKey : string }.

(** [since] is a [Date]: its time value, or [None] for an Invalid Date. *)
Record Config : Type := {
  github : GitHub;
  openai : OpenAI;
  since : option Z;
}.

(** [!x] on an optional string: [undefined] and the empty string are
    falsy. *)
Definition truthy (x : option string) : option string :=
  match x with
  | Some EmptyString | None => None
  | Some s => Some s
  end.

(** [loadConfig]; [env] is [process.env], [now] is [Date.now()], and
    [inl] is the message of the [Error] thrown. *)
Definition loadConfig (env : string -> option string) (options : Options.t) (now : Z)
    : string + Config :=
  let githubToken := env "GITHUB_TOKEN"%string in
  let openaiApiKey := env "OPENAI_API_KEY"%string in
  match truthy githubToken with
  | None => inl "GITHUB_TOKEN environment variable is required"%string
  | Some githubToken =>
  match truthy openaiApiKey with
  | None => inl "OPENAI_API_KEY environment variable is required"%string
  | Some openaiApiKey =>
  match truthy (Options.owner options) with
  | None => inl "--owner argument is required"%string
  | Some owner =>
  match truthy (Options.repo options) with
  | None => inl "--repo argument is required"%string
  | Some repo =>
      let hoursBack :=
        match truthy (Options.since options) with
        | Some since => JSNumber.parseInt since
        | None => Some 24
        end in
      let since :=
        JSNumber.newDate (option_map (fun h => now - h * 60 * 60 * 1000) hoursBack) in
      inr {| github := {| token := githubToken; owner := owner; repo := repo |};
             openai := {| apiKey := openaiApiKey |};
             since := since |}
  end end end end.

End Config.

(** ** [github/fetchers.ts]: [fetchMergedPRs] *)

(** What the GitHub API returns, dates already read as time values. *)
Module Api.

(** A label is a string or an object with an optional name. *)
Inductive Label : Type :=
| LString (s : string)
| LObject (name : option string).

Record Pull : Type := {
  number : Z;
  title : string;
  html_url : string;
  labels : list Label;
  created_at : Z;
  merged_at : option Z;
  user_login : option string;
}.

Record Detail : Type := {
  additions : option Z;
  deletions : option Z;
  changed_files : option Z;
}.

(** The three endpoints; [None] is a rejected request. *)
Record Server : Type := {
  pulls_list : option (list Pull);
  pulls_get : Z -> option Detail;
  pulls_listFiles : Z -> option (list string);
}.

End Api.

Module Fetchers.

Inductive Event : Type :=
| PullsList
| PullsGet (pull_number : Z)
| PullsListFiles (pull_number : Z)
| ConsoleError.

Inductive Result (A : Type) : Type :=
| Returned (value : A)
| Thrown.
Arguments Returned {A} _.
Arguments Thrown {A}.

Definition labelName (l : Api.Label) : string :=
  match l with
  | Api.LString s => s
  | Api.LObject name => default EmptyString (Config.truthy name)
  end.

(** [x || 0] on an optional integer. *)
Definition orZero (x : option Z) : Z := default 0 x.

(** [mergedAt >= since] on two dates, false when [since] is invalid. *)
Definition notBefore (mergedAt : Z) (since : option Z) : bool :=
  match since with
  | Some s => s <=? mergedAt
  | None => false
  end.

Definition inWindow (since : option Z) (pr : Api.Pull) : bool :=
  match Api.merged_at pr with
  | Some mergedAt => notBefore mergedAt since
  | None => false
  end.

Definition build (pr : Api.Pull) (mergedAt : Z) (prDetail : Api.Detail)
    (files : list string) : PullRequest :=
  let timeToMergeMs := mergedAt - Api.created_at pr in
  let timeToMergeHours := (JS.number_of_Z timeToMergeMs / (1000 * 60 * 60))%float in
  {| number := Api.number pr;
     title := Api.title pr;
     url := Api.html_url pr;
     labels := map labelName (Api.labels pr);
     additions := orZero (Api.additions prDetail);
     deletions := orZero (Api.deletions prDetail);
     changedFiles := orZero (Api.changed_files prDetail);
     filesChanged := files;
     createdAt := Api.created_at pr;
     mergedAt := Some mergedAt;
     timeToMergeHours := timeToMergeHours;
     author := default "unknown"%string (Config.truthy (Api.user_login pr));
     riskScore := None;
     aiRiskAnalysis := None |}.

(** The [for (const pr of data)] loop inside the [try]: [None] when a
    request is rejected. *)
Fixpoint collect (server : Api.Server) (since : option Z) (data : list Api.Pull)
    (prs : list PullRequest) (tr : list Event)
    : option (list PullRequest) * list Event :=
  match data with
  | [] => (Some prs, tr)
  | pr :: rest =>
      match Api.merged_at pr with
      | Some mergedAt =>
          if notBefore mergedAt since then
            let tr1 := tr ++ [PullsGet (Api.number pr)] in
            match Api.pulls_get server (Api.number pr) with
            | None => (None, tr1)
            | Some prDetail =>
                let tr2 := tr1 ++ [PullsListFiles (Api.number pr)] in
                match Api.pulls_listFiles server (Api.number pr) with
                | None => (None, tr2)
                | Some files =>
                    collect server since rest
                      (prs ++ [build pr mergedAt prDetail files]) tr2
                end
            end
          else collect server since rest prs tr
      | None => collect server since rest prs tr
      end
  end.

Definition fetchMergedPRs (octokitInstance : option Client.Octokit)
    (server : Api.Server) (since : option Z) (tr : list Event)
    : Result (list PullRequest) * list Event :=
  match Client.getGitHubClient octokitInstance with
  | inl _ => (Thrown, tr)
  | inr client =>
      let tr0 := tr ++ [PullsList] in
      match Api.pulls_list server with
      | None => (Thrown, tr0 ++ [ConsoleError])
      | Some data =>
          match collect server since data [] tr0 with
          | (Some prs, tr1) => (Returned prs, tr1)
          | (None, tr1) => (Thrown, tr1 ++ [ConsoleError])
          end
      end
  end.

(** The requests for details and files a trace holds. *)
Definition detailCalls (tr : list Event) : list Z :=
  omap (fun e => match e with PullsGet n => Some n | _ => None end) tr.

Definition fileCalls (tr : list Event) : list Z :=
  omap (fun e => match e with PullsListFiles n => Some n | _ => None end) tr.

(** The record a listed pull request gives rise to when both of its
    requests are answered. *)
Definition fetched (server : Api.Server) (pr : Api.Pull) : option PullRequest :=
  match Api.merged_at pr, Api.pulls_get server (Api.number pr),
        Api.pulls_listFiles server (Api.number pr) with
  | Some mergedAt, Some prDetail, Some files => Some (build pr mergedAt prDetail files)
  | _, _, _ => None
  end.

(** The two requests made for a pull request. *)
Definition requests (pr : Api.Pull) : list Event :=
  [PullsGet (Api.number pr); PullsListFiles (Api.number pr)].

End Fetchers.

(** ** [ui/DigestView.tsx]: the colour of a pull request *)

Module View.

Inductive Color : Type := red | yellow | green.

(** [riskColor] of [PRItem]. *)
Definition riskColor (pr : PullRequest) : Color :=
  if (0.7 <=? JS.or_default (riskScore pr) 0)%float then red
  else if (0.5 <=? JS.or_default (riskScore pr) 0)%float then yellow
  else green.

End View.

(** ** What a trace shows *)

Module Observe.

(** The pauses taken, the rejections logged and the progress reported. *)
Definition pauses (tr : list AiRisk.Event) : list Z :=
  omap (fun e => match e with AiRisk.SetTimeout ms => Some ms | _ => None end) tr.

Definition errors (tr : list AiRisk.Event) : list Z :=
  omap (fun e => match e with AiRisk.ConsoleError n => Some n | _ => None end) tr.

Definition progress (tr : list AiRisk.Event) : list (Z * Z) :=
  omap (fun e => match e with
                 | AiRisk.OnProgress current total => Some (current, total)
                 | _ => None
                 end) tr.

(** The numbers of the records whose call was rejected, given the settled
    calls of the records in order. *)
Fixpoint rejected {X} (prs : list PullRequest) (settled : list (option X)) : list Z :=
  match prs, settled with
  | pr :: prs', None :: settled' => number pr :: rejected prs' settled'
  | _ :: prs', Some _ :: settled' => rejected prs' settled'
  | _, _ => []
  end.

(** The same numbers, group by group, for groups of [size] records. *)
Definition rejectedByGroup {X} (size : nat) (prs : list PullRequest)
    (settled : list (option X)) : list (list Z) :=
  zip_with rejected (Spec.groups size prs) (Spec.groups size settled).

(** The report after the group of index [k], for groups of size [c] over
    [n] records. *)
Definition report (c n : Z) (k : nat) : Z * Z :=
  (Z.min ((Z.of_nat k + 1) * c) n, n).

End Observe.

(** ** [Map] and [Array.prototype.sort] *)

(** A JavaScript [Map] keyed by strings, as the list of its entries in
    insertion order: [set] on a present key replaces the value where it
    stands, on a new key it appends. *)
Module JSMap.

Fixpoint get {V} (m : list (string * V)) (k : string) : option V :=
  match m with
  | [] => None
  | (k', v) :: rest => if String.eqb k' k then Some v else get rest k
  end.

Fixpoint set {V} (m : list (string * V)) (k : string) (v : V) : list (string * V) :=
  match m with
  | [] => [(k, v)]
  | (k', v') :: rest =>
      if String.eqb k' k then (k', v) :: rest else (k', v') :: set rest k v
  end.

Definition keys {V} (m : list (string * V)) : list string := map fst m.

End JSMap.

Module JSArray.

(** [Array.prototype.sort(cmp)] is a stable sort: for a comparator that is
    a consistent order its outcome is the one of any stable sort, here
    insertion from the right, an element going before the first one it
    does not exceed. *)
Fixpoint insert {A} (cmp : A -> A -> Z) (x : A) (sorted : list A) : list A :=
  match sorted with
  | [] => [x]
  | y :: rest => if cmp x y <=? 0 then x :: y :: rest else y :: insert cmp x rest
  end.

Fixpoint sort {A} (cmp : A -> A -> Z) (l : list A) : list A :=
  match l with
  | [] => []
  | x :: rest => insert cmp x (sort cmp rest)
  end.

End JSArray.

(** ** [analysis/grouping.ts] *)

Module Grouping.

(** [const group = grouped.get(label) || []; group.push(pr);
    grouped.set(label, group)]. *)
Definition push (grouped : list (string * list PullRequest)) (label : string)
    (pr : PullRequest) : list (string * list PullRequest) :=
  JSMap.set grouped label (default [] (JSMap.get grouped label) ++ [pr]).

Definition groupOne (grouped : list (string * list PullRequest)) (pr : PullRequest)
    : list (string * list PullRequest) :=
  if (length (labels pr) =? 0)%nat
  then push grouped "unlabeled" pr
  else foldl (fun g label => push g label pr) grouped (labels pr).

Definition groupPRsByLabel (prs : list PullRequest)
    : list (string * list PullRequest) :=
  foldl groupOne [] prs.

(** [(a, b) => b[1].length - a[1].length]. *)
Definition bySize (a b : string * list PullRequest) : Z :=
  Z.of_nat (length b.2) - Z.of_nat (length a.2).

Definition getTopLabels (grouped : list (string * list PullRequest))
    (limit : option Z) : list string :=
  map fst (JS.slice (JSArray.sort bySize grouped) 0 (default 5 limit)).

(** The entries a pull request contributes to the group of [label]: one
    per occurrence of the label among its labels, or one under
    "unlabeled" when it has no label. *)
Definition entries (label : string) (pr : PullRequest) : list PullRequest :=
  match labels pr with
  | [] => if String.eqb "unlabeled" label then [pr] else []
  | ls => map (fun _ => pr) (List.filter (fun l => String.eqb l label) ls)
  end.

Definition members (label : string) (prs : list PullRequest) : list PullRequest :=
  concat (map (entries label) prs).

(** The size of the group of a label (0 when the label is no key), and a
    list of entries in which no entry is smaller than a later one. *)
Definition size_of (grouped : list (string * list PullRequest)) (label : string) : nat :=
  length (default [] (JSMap.get grouped label)).

Fixpoint ranked (l : list (string * list PullRequest)) : Prop :=
  match l with
  | [] => True
  | a :: rest => Forall (fun b => (length b.2 <= length a.2)%nat) rest /\ ranked rest
  end.

(** Every value stored in the map has had a [push]. *)
Definition no_empty_group (grouped : list (string * list PullRequest)) : Prop :=
  forall label, JSMap.get grouped label <> Some [].

End Grouping.

(** ** [github/fetchers.ts]: [fetchDeployments] *)

Module DeployApi.

Record Listed : Type := {
  id : Z;
  environment : option string;
  created_at : Z;
  url : string;
  ref : string;
  sha : string;
}.

(** [repos.listDeployments] and [repos.getCommit] (the message of the
    commit); [None] is a rejected request. *)
Record Server : Type := {
  repos_listDeployments : option (list Listed);
  repos_getCommit : string -> option string;
}.

End DeployApi.

Module Deployments.

(** [Deployment] of [types.ts]. *)
Record Deployment : Type := {
  id : Z;
  environment : string;
  createdAt : Z;
  url : string;
  ref : string;
  sha : string;
  prNumbers : list float;
}.

Inductive Event : Type :=
| ListDeployments
| GetCommit (ref : string)
| ConsoleError.

(** [message.match(/#(\d+)/g)] followed by [parseInt(match.substring(1),
    10)] on every match, as one pass over the message: outside a match,
    just after a "#", or inside the digits of a match whose digits so far
    denote the integer [v]. Matches are found left to right, each as long
    as possible; at the end of a match [parseInt] returns the number
    nearest to [v]. *)
Inductive Scan : Type := Idle | Hash | Run (v : Z).

Fixpoint scan (message : string) (state : Scan) : list float :=
  match message with
  | EmptyString =>
      match state with
      | Run v => [JSNumber.number_of_integer v]
      | _ => []
      end
  | String c rest =>
      if JSNumber.is_digit c then
        match state with
        | Idle => scan rest Idle
        | Hash => scan rest (Run (JSNumber.digit_value c))
        | Run v => scan rest (Run (v * 10 + JSNumber.digit_value c))
        end
      else
        let next := if Ascii.eqb c "#" then Hash else Idle in
        match state with
        | Run v => JSNumber.number_of_integer v :: scan rest next
        | _ => scan rest next
        end
  end.

Definition prNumbersOf (message : string) : list float := scan message Idle.

(** The body of the loop for one deployment inside the window: the inner
    [try] swallows a rejected commit lookup. *)
Definition build (server : DeployApi.Server) (deployment : DeployApi.Listed)
    : Deployment :=
  let prNumbers :=
    match DeployApi.repos_getCommit server (DeployApi.sha deployment) with
    | Some message => prNumbersOf message
    | None => []
    end in
  {| id := DeployApi.id deployment;
     environment :=
       default "unknown"%string (Config.truthy (DeployApi.environment deployment));
     createdAt := DeployApi.created_at deployment;
     url := DeployApi.url deployment;
     ref := DeployApi.ref deployment;
     sha := DeployApi.sha deployment;
     prNumbers := prNumbers |}.

Fixpoint collect (server : DeployApi.Server) (since : option Z)
    (data : list DeployApi.Listed) (deployments : list Deployment) (tr : list Event)
    : list Deployment * list Event :=
  match data with
  | [] => (deployments, tr)
  | deployment :: rest =>
      if Fetchers.notBefore (DeployApi.created_at deployment) since then
        collect server since rest (deployments ++ [build server deployment])
          (tr ++ [GetCommit (DeployApi.sha deployment)])
      else collect server since rest deployments tr
  end.

(** [fetchDeployments]: the outer [catch] logs and does not rethrow. *)
Definition fetchDeployments (octokitInstance : option Client.Octokit)
    (server : DeployApi.Server) (since : option Z) (tr : list Event)
    : Fetchers.Result (list Deployment) * list Event :=
  match Client.getGitHubClient octokitInstance with
  | inl _ => (Fetchers.Thrown, tr)
  | inr client =>
      let tr0 := tr ++ [ListDeployments] in
      match DeployApi.repos_listDeployments server with
      | None => (Fetchers.Returned [], tr0 ++ [ConsoleError])
      | Some data =>
          let '(deployments, tr1) := collect server since data [] tr0 in
          (Fetchers.Returned deployments, tr1)
      end
  end.

End Deployments.

(** ** Sample data for the fetchers *)

Definition pull (n : Z) (created : Z) (merged : option Z) : Api.Pull :=
  {| Api.number := n; Api.title := "t"; Api.html_url := "u";
     Api.labels := [Api.LString "bug"; Api.LObject None];
     Api.created_at := created; Api.merged_at := merged;
     Api.user_login := None |}.

(** A listing of three pull requests (merged inside the window, not
    merged, merged before the window) and a server that answers every
    request but the details of the numbers in [down]. *)
Definition listing : list Api.Pull :=
  [pull 11 1000 (Some 5000); pull 12 1000 None; pull 13 1000 (Some 1500)].

Definition github (down : list Z) : Api.Server :=
  {| Api.pulls_list := Some listing;
     Api.pulls_get := fun n =>
       if bool_decide (n ∈ down) then None
       else Some {| Api.additions := Some 10; Api.deletions := None;
                    Api.changed_files := Some 2 |};
     Api.pulls_listFiles := fun n => Some ["src/a.ts"%string] |}.

(** * Properties *)

(** ** Order of binary64 numbers *)

Section FloatOrder.

Lemma SFcompare_antisym (x y : spec_float) :
  SFcompare y x = option_map CompOpp (SFcompare x y).
Proof.
  destruct x as [sx| sx | | sx mx ex], y as [sy | sy | | sy my ey];
    try reflexivity;
    try (destruct sx; reflexivity);
    try (destruct sy; reflexivity);
    try (destruct sx, sy; reflexivity).
  cbn [SFcompare option_map].
  rewrite (Z.compare_antisym ex ey).
  change (Pos.compare_cont Eq my mx) with (Pos.compare_cont (CompOpp Eq) my mx).
  rewrite <- (Pos.compare_cont_antisym mx my Eq).
  destruct sx, sy; try reflexivity;
    destruct (ex ?= ey)%Z; cbn; try reflexivity;
    destruct (Pos.compare_cont Eq mx my); reflexivity.
Qed.

(** [x === t] entails [x >= t]. *)
Lemma eqb_geb (x t : float) : (x =? t)%float = true -> (t <=? x)%float = true.
Proof.
  rewrite FloatAxioms.eqb_spec, FloatAxioms.leb_spec. unfold SFeqb, SFleb.
  rewrite (SFcompare_antisym (Prim2SF x) (Prim2SF t)).
  destruct (SFcompare (Prim2SF x) (Prim2SF t)) as [[]|]; cbn; congruence.
Qed.

(** [x < t] excludes [x >= t]. *)
Lemma ltb_not_geb (x t : float) : (x <? t)%float = true -> (t <=? x)%float = false.
Proof.
  rewrite FloatAxioms.ltb_spec, FloatAxioms.leb_spec. unfold SFltb, SFleb.
  rewrite (SFcompare_antisym (Prim2SF x) (Prim2SF t)).
  destruct (SFcompare (Prim2SF x) (Prim2SF t)) as [[]|]; cbn; congruence.
Qed.

End FloatOrder.

(** ** The formula on capped counters *)

Lemma Zrange_In (n : nat) (z : Z) : 0 <= z < Z.of_nat n -> In z (Check.Zrange n).
Proof.
  intros H. unfold Check.Zrange. apply in_map_iff.
  exists (Z.to_nat z). split; [lia|]. apply in_seq. lia.
Qed.

Lemma over_inputs_spec (p : Z -> Z -> bool -> bool -> bool) :
  Check.over_inputs p = true ->
  forall l f nt sm, 0 <= l <= 2000 -> 0 <= f <= 20 -> p l f nt sm = true.
Proof.
  unfold Check.over_inputs. intros H l f nt sm Hl Hf.
  rewrite forallb_forall in H.
  specialize (H l (Zrange_In 2001 l ltac:(lia))).
  rewrite forallb_forall in H.
  specialize (H f (Zrange_In 21 f ltac:(lia))).
  rewrite forallb_forall in H.
  specialize (H nt ltac:(destruct nt; cbn; auto)).
  rewrite forallb_forall in H.
  apply H. destruct sm; cbn; auto.
Qed.

Lemma calculateRisk_capped (pr : PullRequest) :
  Risk.calculateRisk pr =
  Check.capped_score (Z.min (additions pr + deletions pr) 2000)
    (Z.min (changedFiles pr) 20) (Risk.noTests pr) (Risk.slowMerge pr).
Proof. reflexivity. Qed.

Lemma calculateFormulaRisk_capped (pr : PullRequest) :
  AiRisk.calculateFormulaRisk pr =
  Check.capped_score (Z.min (additions pr + deletions pr) 2000)
    (Z.min (changedFiles pr) 20) (AiRisk.noTests pr) (AiRisk.slowMerge pr).
Proof. reflexivity. Qed.

Lemma all_scores_in_unit_interval :
  Check.over_inputs (fun l f nt sm =>
    Check.in_unit_interval (Check.capped_score l f nt sm)) = true.
Proof. vm_compute. reflexivity. Qed.

(** C6. For every pull request whose additions, deletions and changed-file
    count are non-negative, the formula score of [calculateRisk] lies in
    [0, 1]. *)
Theorem calculateRisk_bounded (pr : PullRequest) :
  0 <= additions pr -> 0 <= deletions pr -> 0 <= changedFiles pr ->
  (0 <=? Risk.calculateRisk pr)%float = true
  /\ (Risk.calculateRisk pr <=? 1)%float = true.
Proof.
  intros Ha Hd Hc. rewrite calculateRisk_capped.
  apply andb_prop.
  apply (over_inputs_spec _ all_scores_in_unit_interval); lia.
Qed.

Lemma calculateRisk_bounded_witness :
  let pr := mkPR 842 300 120 14 ["src/charge.ts"; "src/charge.test.ts"]%string 50 in
  (0 <=? Risk.calculateRisk pr)%float = true
  /\ (Risk.calculateRisk pr <=? 1)%float = true.
Proof. apply calculateRisk_bounded; cbn; lia. Defined.

(** The worked example of the specification: 420 lines, 14 files, a test
    file, merged after 50 hours. *)
Example charge_route_score :
  Risk.calculateRisk
    (mkPR 842 300 120 14 ["src/charge.ts"; "src/charge.test.ts"]%string 50)
  = 0.294%float.
Proof. reflexivity. Qed.

Lemma top_score_is_weight_sum :
  Check.top_score = (1 * 0.4 + 1 * 0.3 + 0.2 + 0.1)%float
  /\ (Check.top_score <? 1)%float = true.
Proof. split; reflexivity. Qed.

Lemma noTests_true_iff (pr : PullRequest) :
  Risk.noTests pr = true <->
  forall f, In f (filesChanged pr) -> Risk.test_like f = false.
Proof.
  unfold Risk.noTests, JS.some. rewrite negb_true_iff. split.
  - intros H f Hf. destruct (Risk.test_like f) eqn:E; [|reflexivity].
    assert (existsb Risk.test_like (filesChanged pr) = true) as Hex
      by (apply existsb_exists; eauto).
    congruence.
  - intros H. destruct (existsb Risk.test_like (filesChanged pr)) eqn:E; [|reflexivity].
    apply existsb_exists in E as (f & Hf & Ht). rewrite (H f Hf) in Ht. discriminate.
Qed.

(** C8, as the code has it. A pull request with at least 2000 changed
    lines, at least 20 changed files, no test-like path and a merge that
    took more than 72 hours scores 0.4 + 0.3 + 0.2 + 0.1 as binary64
    arithmetic adds them from left to right, which is 0.9999999999999999
    (the double 0x1.fffffffffffffp-1); this is strictly less than 1.0. *)
Theorem weight_sum_score (pr : PullRequest) :
  2000 <= additions pr + deletions pr ->
  20 <= changedFiles pr ->
  (forall f, In f (filesChanged pr) -> Risk.test_like f = false) ->
  (72 <? timeToMergeHours pr)%float = true ->
  Risk.calculateRisk pr = Check.top_score
  /\ (Risk.calculateRisk pr <? 1)%float = true
  /\ Risk.calculateRisk pr = (0.4 + 0.3 + 0.2 + 0.1)%float.
Proof.
  intros Hl Hf Ht Hm. rewrite calculateRisk_capped.
  rewrite (Z.min_r _ 2000) by lia. rewrite (Z.min_r _ 20) by lia.
  apply noTests_true_iff in Ht. rewrite Ht.
  unfold Risk.slowMerge. rewrite Hm. repeat split; reflexivity.
Qed.

Lemma weight_sum_score_witness :
  let pr := mkPR 1 1500 500 20 ["src/feature.ts"%string] 73 in
  Risk.calculateRisk pr = Check.top_score
  /\ (Risk.calculateRisk pr <? 1)%float = true
  /\ Risk.calculateRisk pr = (0.4 + 0.3 + 0.2 + 0.1)%float.
Proof.
  apply weight_sum_score; cbn; try lia; try reflexivity.
  intros f [<- | []]. reflexivity.
Defined.

(** C8, as the specification words it, fails: this pull request meets
    every condition and its score is not 1.0. *)
Lemma weight_sum_not_one :
  let pr := mkPR 1 1500 500 20 ["src/feature.ts"%string] 73 in
  2000 <= additions pr + deletions pr
  /\ 20 <= changedFiles pr
  /\ (forall f, In f (filesChanged pr) -> Risk.test_like f = false)
  /\ (72 <? timeToMergeHours pr)%float = true
  /\ (Risk.calculateRisk pr =? 1)%float = false
  /\ Risk.calculateRisk pr <> 1%float.
Proof.
  cbn zeta. repeat split; try (cbn; lia).
  - intros f [<- | []]. reflexivity.
  - intros H. apply (f_equal (fun x => (x =? 1)%float)) in H.
    vm_compute in H. discriminate.
Qed.

(** No pull request with non-negative counters reaches 1.0. *)
Lemma all_scores_below_one :
  Check.over_inputs (fun l f nt sm =>
    (Check.capped_score l f nt sm <=? Check.top_score)%float) = true.
Proof. vm_compute. reflexivity. Qed.

Lemma calculateRisk_max (pr : PullRequest) :
  0 <= additions pr -> 0 <= deletions pr -> 0 <= changedFiles pr ->
  (Risk.calculateRisk pr <=? Check.top_score)%float = true.
Proof.
  intros Ha Hd Hc. rewrite calculateRisk_capped.
  apply (over_inputs_spec _ all_scores_below_one); lia.
Qed.

(** ** Test-like paths *)

Lemma append_cons (c : ascii) (a r : string) :
  (String c a ++ r)%string = String c (a ++ r)%string.
Proof. reflexivity. Qed.

Lemma append_nil (r : string) : (EmptyString ++ r)%string = r.
Proof. reflexivity. Qed.

Lemma prefix_app (a s : string) :
  String.prefix a s = true <-> exists after, s = (a ++ after)%string.
Proof.
  revert s. induction a as [|c a IH]; intros s.
  - split; [intros _; exists s; reflexivity | intros _; destruct s; reflexivity].
  - destruct s as [|d s]; cbn [String.prefix].
    { split; [discriminate | intros [r Hr]; rewrite append_cons in Hr; discriminate]. }
    destruct (Ascii.ascii_dec c d) as [->|Hne].
    + rewrite IH. split; intros [r Hr]; exists r; rewrite append_cons in *; congruence.
    + split; [discriminate | intros [r Hr]; rewrite append_cons in Hr; congruence].
Qed.

Lemma regex_test_spec (alts : list string) (s : string) :
  JS.regex_test alts s = true <->
  exists a before after, In a alts /\ s = (before ++ a ++ after)%string.
Proof.
  induction s as [|c s IH]; cbn [JS.regex_test]; rewrite orb_true_iff, existsb_exists.
  - split.
    + intros [(a & Ha & Hp) | [=]]. apply prefix_app in Hp as [after ->].
      exists a, EmptyString, after. auto.
    + intros (a & before & after & Ha & Hs). left. exists a. split; [assumption|].
      apply prefix_app. destruct before as [|d before].
      * exists after. exact Hs.
      * rewrite append_cons in Hs. discriminate.
  - rewrite IH. split.
    + intros [(a & Ha & Hp) | (a & before & after & Ha & ->)].
      * apply prefix_app in Hp as [after ->]. exists a, EmptyString, after. auto.
      * exists a, (String c before), after. auto.
    + intros (a & [|d before] & after & Ha & Hs).
      * left. exists a. split; [assumption|]. apply prefix_app. exists after. exact Hs.
      * right. rewrite append_cons in Hs. injection Hs as -> ->.
        exists a, before, after. auto.
Qed.

Lemma string_app_assoc (a b c : string) :
  ((a ++ b) ++ c)%string = (a ++ (b ++ c))%string.
Proof. induction a; [reflexivity|]. rewrite !append_cons. congruence. Qed.

(** The scorer of [risk.ts] is case-insensitive: a path is test-like
    exactly when its lower-cased form contains "test" or "spec" (the two
    dotted alternatives of the regular expression add nothing). *)
Lemma risk_test_like_spec (f : string) :
  Risk.test_like f = true <->
  Spec.contains_ci "test" f \/ Spec.contains_ci "spec" f.
Proof.
  unfold Risk.test_like, Spec.contains_ci. rewrite regex_test_spec. split.
  - intros (a & before & after & Ha & Hs). cbn in Ha.
    destruct Ha as [<- | [<- | [<- | [<- | []]]]].
    + left. eauto.
    + right. eauto.
    + left. exists (before ++ ".")%string, ("." ++ after)%string.
      rewrite Hs, string_app_assoc. reflexivity.
    + right. exists (before ++ ".")%string, ("." ++ after)%string.
      rewrite Hs, string_app_assoc. reflexivity.
  - intros [(before & after & Hs) | (before & after & Hs)].
    + exists "test"%string, before, after. cbn. auto.
    + exists "spec"%string, before, after. cbn. auto.
Qed.

Lemma ai_test_like_spec (f : string) :
  AiRisk.test_like f = true <->
  (exists before after, f = (before ++ "test" ++ after)%string)
  \/ (exists before after, f = (before ++ "spec" ++ after)%string).
Proof.
  unfold AiRisk.test_like. rewrite regex_test_spec. split.
  - intros (a & before & after & Ha & Hs). cbn in Ha.
    destruct Ha as [<- | [<- | []]]; eauto.
  - intros [(before & after & Hs) | (before & after & Hs)].
    + exists "test"%string, before, after. cbn. auto.
    + exists "spec"%string, before, after. cbn. auto.
Qed.

Lemma test_like_lower_case (f : string) :
  JS.toLowerCase f = f -> Risk.test_like f = AiRisk.test_like f.
Proof.
  intros Hf. apply eq_true_iff_eq.
  rewrite risk_test_like_spec, ai_test_like_spec.
  unfold Spec.contains_ci. rewrite Hf. reflexivity.
Qed.

(** Where no changed path has an upper-case letter, the two scorers
    agree. *)
Lemma scorers_agree_on_lower_case (pr : PullRequest) :
  (forall f, In f (filesChanged pr) -> JS.toLowerCase f = f) ->
  AiRisk.calculateFormulaRisk pr = Risk.calculateRisk pr.
Proof.
  intros H. rewrite calculateRisk_capped, calculateFormulaRisk_capped.
  f_equal. unfold AiRisk.noTests, Risk.noTests, JS.some. f_equal.
  induction (filesChanged pr) as [|f fs IH]; [reflexivity|]. cbn.
  rewrite (test_like_lower_case f) by (apply H; left; reflexivity).
  f_equal. apply IH. intros g Hg. apply H. right. exact Hg.
Qed.

(** C2. The scorer of [risk.ts] sees "SRC/Feature.Test.ts" as a test and
    "src/feature.ts" as none, but the scorer behind the threshold filter
    of [hybridRiskAnalysis] is case-sensitive: for a pull request whose
    only changed file is "SRC/Feature.Test.ts" its no-tests term is 0.2,
    not 0, and the pull request passes a threshold its risk.ts score does
    not reach. *)
Theorem formula_filter_case_sensitive :
  let pr := mkPR 7 0 0 0 ["SRC/Feature.Test.ts"%string] 1 in
  let plain := mkPR 8 0 0 0 ["src/feature.ts"%string] 1 in
  Risk.noTests pr = false /\ Risk.calculateRisk pr = 0%float
  /\ Risk.noTests plain = true /\ Risk.calculateRisk plain = 0.2%float
  /\ AiRisk.noTests plain = true /\ AiRisk.calculateFormulaRisk plain = 0.2%float
  /\ AiRisk.noTests pr = true /\ AiRisk.calculateFormulaRisk pr = 0.2%float
  /\ AiRisk.highRiskPRs (Risk.calculateRiskForPRs [pr]) 0.2
     = Risk.calculateRiskForPRs [pr].
Proof. cbn zeta. repeat split; reflexivity. Qed.

(** C10. The two scorers differ on a pull request whose only test file is
    spelled with capitals: [calculateRisk] gives 0.35 and
    [calculateFormulaRisk] 0.55. *)
Theorem scorers_disagree :
  let pr := mkPR 9 600 400 10 ["SRC/Feature.Test.ts"%string] 1 in
  Risk.calculateRisk pr = 0.35%float
  /\ AiRisk.calculateFormulaRisk pr = 0.55%float
  /\ (Risk.calculateRisk pr =? AiRisk.calculateFormulaRisk pr)%float = false.
Proof. cbn zeta. repeat split; reflexivity. Qed.

(** ** The threshold filter *)

(** The comparison of the filter is inclusive on the score the filter
    computes: a pull request of the input for which [calculateFormulaRisk]
    gives exactly the threshold passes the filter, and one for which it
    gives strictly less does not. *)
Lemma highRiskPRs_inclusive (prs : list PullRequest) (pr : PullRequest) (t : float) :
  In pr prs ->
  ((AiRisk.calculateFormulaRisk pr =? t)%float = true ->
     In pr (AiRisk.highRiskPRs prs t))
  /\ ((AiRisk.calculateFormulaRisk pr <? t)%float = true ->
     ~ In pr (AiRisk.highRiskPRs prs t)).
Proof.
  intros Hin. unfold AiRisk.highRiskPRs. split.
  - intros He. apply filter_In. split; [assumption|]. apply eqb_geb, He.
  - intros Hl Hf. apply filter_In in Hf as [_ Hf].
    rewrite (ltb_not_geb _ _ Hl) in Hf. discriminate.
Qed.

(** ** Groups *)

Section Groups.

Context {A : Type}.
Implicit Types (l g : list A) (size fuel : nat).

Lemma slice_window l (i c : Z) :
  0 <= i < Z.of_nat (length l) -> 1 <= c ->
  JS.slice l i (i + c) = take (Z.to_nat c) (drop (Z.to_nat i) l).
Proof.
  intros Hi Hc. unfold JS.slice.
  destruct (Z.ltb_spec i 0); [lia|].
  destruct (Z.ltb_spec (i + c) 0); [lia|].
  rewrite (Z.min_l i) by lia.
  destruct (Z.le_gt_cases (i + c) (Z.of_nat (length l))) as [Hle | Hgt].
  - rewrite Z.min_l by lia. f_equal. lia.
  - rewrite Z.min_r by lia.
    rewrite !take_ge; [reflexivity | |]; rewrite length_drop; lia.
Qed.

Lemma groups_upto_fuel fuel fuel' size l :
  (1 <= size)%nat -> (length l <= fuel)%nat -> (length l <= fuel')%nat ->
  Spec.groups_upto fuel size l = Spec.groups_upto fuel' size l.
Proof.
  intros Hs. revert fuel' l.
  induction fuel as [|fuel IH]; intros fuel' l Hf Hf'.
  - destruct l; [|cbn in Hf; lia]. destruct fuel'; reflexivity.
  - destruct l as [|x l]; [destruct fuel'; reflexivity|].
    destruct fuel' as [|fuel']; [cbn in Hf'; lia|].
    cbn [Spec.groups_upto]. f_equal.
    apply IH; rewrite length_drop; cbn [length] in *; lia.
Qed.

Lemma groups_nil size : Spec.groups size (@nil A) = [].
Proof. reflexivity. Qed.

Lemma groups_step size l :
  (1 <= size)%nat -> l <> [] ->
  Spec.groups size l = take size l :: Spec.groups size (drop size l).
Proof.
  intros Hs Hl. unfold Spec.groups.
  destruct l as [|x l]; [congruence|].
  cbn [length Spec.groups_upto]. f_equal.
  apply groups_upto_fuel; [assumption | | reflexivity].
  rewrite length_drop. cbn [length]. lia.
Qed.

(** Induction along the groups of a list. *)
Lemma groups_ind size (P : list A -> Prop) :
  (1 <= size)%nat ->
  P [] ->
  (forall l, l <> [] -> P (drop size l) -> P l) ->
  forall l, P l.
Proof.
  intros Hs Hnil Hstep l.
  remember (length l) as n eqn:Hn. revert l Hn.
  induction n as [n IH] using lt_wf_ind. intros l ->.
  destruct l as [|x l]; [exact Hnil|].
  apply Hstep; [discriminate|].
  apply (IH (length (drop size (x :: l)))); [|reflexivity].
  rewrite length_drop. cbn [length]. lia.
Qed.

Lemma groups_concat size l :
  (1 <= size)%nat -> concat (Spec.groups size l) = l.
Proof.
  intros Hs. pattern l. revert l.
  apply (groups_ind size); [assumption | reflexivity | intros l Hl IH].
  rewrite groups_step by assumption. cbn [concat]. rewrite IH.
  apply take_drop.
Qed.

Lemma groups_sizes size l :
  (1 <= size)%nat ->
  forall k g, Spec.groups size l !! k = Some g ->
    (1 <= length g <= size)%nat
    /\ (S k < length (Spec.groups size l) -> length g = size)%nat.
Proof.
  intros Hs. pattern l. revert l.
  apply (groups_ind size); [assumption | | intros l Hl IH].
  - intros k g. rewrite groups_nil. intros [=].
  - intros k g. rewrite groups_step by assumption.
    destruct k as [|k]; cbn [lookup list_lookup length].
    + intros [= <-]. rewrite length_take. split.
      * destruct l; [congruence | cbn [length]; lia].
      * intros Hlen.
        destruct (decide (drop size l = [])) as [Hd | Hd].
        { rewrite Hd, groups_nil in Hlen. cbn in Hlen. lia. }
        assert (length (drop size l) <> 0)%nat as Hne
          by (destruct (drop size l); [congruence | cbn; lia]).
        rewrite length_drop in Hne. lia.
    + intros Hg. destruct (IH k g Hg) as [Hb Hfull]. split; [exact Hb|].
      intros Hlen. apply Hfull. lia.
Qed.

Lemma groups_length size l :
  (1 <= size)%nat ->
  Z.of_nat (length (Spec.groups size l))
  = (Z.of_nat (length l) + Z.of_nat size - 1) / Z.of_nat size.
Proof.
  intros Hs. pattern l. revert l.
  apply (groups_ind size); [assumption | | intros l Hl IH].
  - rewrite groups_nil. cbn [length]. symmetry. apply Z.div_small. lia.
  - rewrite groups_step by assumption. cbn [length].
    rewrite Nat2Z.inj_succ, IH, length_drop.
    assert (length l <> 0)%nat by (destruct l; [congruence | cbn; lia]).
    destruct (le_lt_dec (length l) size) as [Hle | Hgt].
    + replace (length l - size)%nat with 0%nat by lia.
      rewrite (Z.div_small (Z.of_nat 0 + _ - 1)) by lia.
      apply Z.div_unique with (r := Z.of_nat (length l) - 1); lia.
    + rewrite Nat2Z.inj_sub by lia.
      replace (Z.of_nat (length l) + Z.of_nat size - 1)
        with ((Z.of_nat (length l) - Z.of_nat size + Z.of_nat size - 1)
              + 1 * Z.of_nat size) by lia.
      rewrite Z.div_add by lia. lia.
Qed.

Lemma groups_one l : Spec.groups 1 l = map (fun x => [x]) l.
Proof.
  induction l as [|x l IH]; [reflexivity|].
  rewrite groups_step by (lia || discriminate).
  cbn [take drop map]. rewrite take_0, drop_0, IH. reflexivity.
Qed.

End Groups.

(** ** The batch loop *)

Section Escalation.

Context {Remote : Type}.
Variable provider : Remote -> PullRequest -> option Schema.AIRiskAnalysis * Remote.

Implicit Types (w : AiRisk.World Remote) (prs batch : list PullRequest).

Lemma calls_app (tr tr' : list AiRisk.Event) :
  AiRisk.calls (tr ++ tr') = AiRisk.calls tr ++ AiRisk.calls tr'.
Proof. apply omap_app. Qed.

Lemma individually_app (s : Remote) prs prs' :
  Spec.individually provider s (prs ++ prs')
  = let '(rs, s1) := Spec.individually provider s prs in
    let '(rs', s2) := Spec.individually provider s1 prs' in
    (rs ++ rs', s2).
Proof.
  revert s. induction prs as [|pr prs IH]; intros s; cbn [app Spec.individually].
  - destruct (Spec.individually provider s prs'); reflexivity.
  - destruct (provider s pr) as [object s1]. rewrite IH.
    destruct (Spec.individually provider s1 prs) as [rs s2].
    destruct (Spec.individually provider s2 prs') as [rs' s3]. reflexivity.
Qed.

(** Starting the calls of a batch asks the provider about its records one
    after another; only the provider's state, not the trace, decides the
    outcomes. *)
Lemma startAll_individually apiKey batch w :
  let run := AiRisk.startAll provider apiKey batch w in
  let alone := Spec.individually provider (AiRisk.remote w) batch in
  run.1 = alone.1
  /\ AiRisk.remote run.2 = alone.2
  /\ AiRisk.nextSettled run.2 = AiRisk.nextSettled w
  /\ AiRisk.trace run.2
     = AiRisk.trace w ++ map (fun pr => AiRisk.GenerateObject (number pr)) batch.
Proof.
  cbn zeta. revert w. induction batch as [|pr batch IH]; intros w.
  - cbn. rewrite app_nil_r. auto.
  - cbn [AiRisk.startAll Spec.individually map].
    unfold AiRisk.analyzeOne, AiRisk.analyzeRiskWithAI.
    destruct (provider (AiRisk.remote w) pr) as [[analysis|] s1];
      match goal with |- context [AiRisk.startAll _ _ _ ?w1] =>
        destruct (IH w1) as (H1 & H2 & H3 & H4) end;
      cbn [AiRisk.remote AiRisk.trace AiRisk.nextSettled] in *;
      destruct (AiRisk.startAll _ _ _ _) as [rs w2];
      destruct (Spec.individually provider s1 batch) as [rs' s2];
      cbn [fst snd] in *; subst; rewrite H4, <- app_assoc; auto.
Qed.

(** The rejections pending are each caught once, in an order the world
    chooses; catching asks the provider nothing. *)
Lemma catchAll_spec (fuel : nat) (pending : list Z) w :
  length pending = fuel ->
  exists order,
    order ≡ₚ pending
    /\ AiRisk.remote (AiRisk.catchAll fuel pending w) = AiRisk.remote w
    /\ AiRisk.nextSettled (AiRisk.catchAll fuel pending w) = AiRisk.nextSettled w
    /\ AiRisk.trace (AiRisk.catchAll fuel pending w)
       = AiRisk.trace w ++ map AiRisk.ConsoleError order.
Proof.
  revert pending w. induction fuel as [|fuel IH]; intros pending w Hlen.
  - exists []. apply length_zero_iff_nil in Hlen as ->. cbn.
    rewrite app_nil_r. auto.
  - cbn [AiRisk.catchAll].
    set (k := (AiRisk.nextSettled w (AiRisk.trace w) pending mod length pending)%nat).
    assert (k < length pending)%nat as Hk
      by (apply Nat.mod_upper_bound; lia).
    pose proof (take_drop k pending) as Hsplit.
    destruct (drop k pending) as [|prNumber later] eqn:Hdrop.
    { apply (f_equal length) in Hdrop. rewrite length_drop in Hdrop.
      cbn in Hdrop. lia. }
    destruct (IH (take k pending ++ later) (AiRisk.emit (AiRisk.ConsoleError prNumber) w))
      as (order & Hperm & Hrem & Hnext & Htrace).
    { apply (f_equal length) in Hsplit.
      rewrite length_app in Hsplit |- *. cbn [length] in Hsplit. lia. }
    exists (prNumber :: order). split; [|split; [|split]].
    + rewrite Hperm.
      transitivity (take k pending ++ prNumber :: later);
        [|rewrite Hsplit; reflexivity].
      first [apply Permutation_middle | symmetry; apply Permutation_middle].
    + rewrite Hrem. reflexivity.
    + rewrite Hnext. reflexivity.
    + rewrite Htrace. cbn [AiRisk.emit AiRisk.trace map].
      rewrite <- app_assoc. reflexivity.
Qed.

Lemma rejections_rejected batch (settled : list (option (Z * Schema.AIRiskAnalysis))) :
  AiRisk.rejections batch settled = Observe.rejected batch settled.
Proof.
  revert settled. induction batch as [|pr batch IH]; intros [|[x|] settled];
    cbn; rewrite ?IH; reflexivity.
Qed.

(** A batch: the outcomes are those of asking the provider about its
    records one after another, the requests leave in this order, and the
    rejections are logged afterwards in some order. *)
Lemma promiseAll_spec apiKey batch w :
  let run := AiRisk.promiseAll provider apiKey batch w in
  let alone := Spec.individually provider (AiRisk.remote w) batch in
  run.1 = alone.1
  /\ AiRisk.remote run.2 = alone.2
  /\ AiRisk.nextSettled run.2 = AiRisk.nextSettled w
  /\ exists order,
       order ≡ₚ Observe.rejected batch alone.1
       /\ AiRisk.trace run.2
          = AiRisk.trace w
            ++ map (fun pr => AiRisk.GenerateObject (number pr)) batch
            ++ map AiRisk.ConsoleError order.
Proof.
  cbn zeta. unfold AiRisk.promiseAll.
  destruct (startAll_individually apiKey batch w) as (H1 & H2 & H3 & H4).
  destruct (AiRisk.startAll provider apiKey batch w) as [batchResults w1].
  cbn [fst snd] in *.
  destruct (catchAll_spec (length (AiRisk.rejections batch batchResults))
              (AiRisk.rejections batch batchResults) w1 eq_refl)
    as (order & Hperm & Hrem & Hnext & Htrace).
  cbn [fst snd].
  split; [exact H1|]. split; [rewrite Hrem; exact H2|].
  split; [rewrite Hnext; exact H3|].
  exists order. split.
  - rewrite Hperm, rejections_rejected, H1. reflexivity.
  - rewrite Htrace, H4, <- app_assoc. reflexivity.
Qed.

Lemma calls_requests batch :
  AiRisk.calls (map (fun pr => AiRisk.GenerateObject (number pr)) batch)
  = map number batch.
Proof.
  induction batch as [|pr batch IH]; [reflexivity|].
  cbn [map]. rewrite <- IH. reflexivity.
Qed.

Lemma calls_errors (order : list Z) :
  AiRisk.calls (map AiRisk.ConsoleError order) = [].
Proof.
  induction order as [|n order IH]; [reflexivity|].
  cbn [map]. rewrite <- IH. reflexivity.
Qed.

Lemma promiseAll_individually apiKey batch w :
  let run := AiRisk.promiseAll provider apiKey batch w in
  let alone := Spec.individually provider (AiRisk.remote w) batch in
  run.1 = alone.1
  /\ AiRisk.remote run.2 = alone.2
  /\ AiRisk.calls (AiRisk.trace run.2)
     = AiRisk.calls (AiRisk.trace w) ++ map number batch.
Proof.
  cbn zeta.
  destruct (promiseAll_spec apiKey batch w) as (H1 & H2 & _ & order & _ & H4).
  split; [exact H1|]. split; [exact H2|].
  rewrite H4, !calls_app, calls_requests, calls_errors, app_nil_r. reflexivity.
Qed.

Lemma storeAll_app results rs rs' :
  AiRisk.storeAll results (rs ++ rs') = AiRisk.storeAll (AiRisk.storeAll results rs) rs'.
Proof. apply foldl_app. Qed.

(** What the loop computes from index [i] on, when [concurrent] is at
    least 1: it ends, having visited the rest of the list group by group. *)
Lemma batchLoop_spec fuel prs apiKey (concurrent : Z) (onProgress : bool)
    (i : Z) (acc : AiRisk.Outcome Remote) :
  1 <= concurrent -> 0 <= i ->
  (Z.to_nat (Z.of_nat (length prs) - i) < fuel)%nat ->
  let rest := drop (Z.to_nat i) prs in
  let alone := Spec.individually provider (AiRisk.remote (AiRisk.world acc)) rest in
  exists out,
    AiRisk.batchLoop provider fuel prs apiKey concurrent onProgress i acc = Some out
    /\ AiRisk.results out = AiRisk.storeAll (AiRisk.results acc) alone.1
    /\ AiRisk.batches out
       = AiRisk.batches acc ++ Spec.groups (Z.to_nat concurrent) rest
    /\ AiRisk.remote (AiRisk.world out) = alone.2
    /\ AiRisk.calls (AiRisk.trace (AiRisk.world out))
       = AiRisk.calls (AiRisk.trace (AiRisk.world acc)) ++ map number rest.
Proof.
  intros Hc. cbn zeta. revert i acc.
  induction fuel as [|fuel IH]; intros i acc Hi Hfuel; [lia|].
  cbn [AiRisk.batchLoop].
  destruct (Z.ltb_spec i (Z.of_nat (length prs))) as [Hlt | Hge].
  - rewrite slice_window by lia.
    set (rest := drop (Z.to_nat i) prs).
    set (batch := take (Z.to_nat concurrent) rest).
    destruct (promiseAll_individually apiKey batch (AiRisk.world acc))
      as (H1 & H2 & H3).
    destruct (AiRisk.promiseAll provider apiKey batch (AiRisk.world acc))
      as [batchResults w1].
    cbn [fst snd] in H1, H2, H3.
    set (w3 := if i + concurrent <? Z.of_nat (length prs) then _ else _).
    assert (AiRisk.remote w3 = AiRisk.remote w1) as Hsame
      by (unfold w3; destruct (i + concurrent <? _), onProgress; reflexivity).
    assert (AiRisk.calls (AiRisk.trace w3) = AiRisk.calls (AiRisk.trace w1)) as Hquiet.
    { unfold w3. destruct (i + concurrent <? _), onProgress;
        cbn [AiRisk.emit AiRisk.trace]; rewrite ?calls_app; cbn;
        rewrite ?app_nil_r; reflexivity. }
    clearbody w3.
    match goal with |- context [AiRisk.batchLoop _ _ _ _ _ _ _ ?acc1] =>
      destruct (IH (i + concurrent) acc1) as (out & Hrun & Hres & Hbat & Hrem & Hcalls);
        [lia | lia |] end.
    exists out. split; [exact Hrun|].
    cbn [AiRisk.results AiRisk.batches AiRisk.world] in Hres, Hbat, Hrem, Hcalls.
    assert (drop (Z.to_nat (i + concurrent)) prs = drop (Z.to_nat concurrent) rest)
      as Hdrop.
    { unfold rest. rewrite drop_drop. f_equal. lia. }
    rewrite Hdrop, Hsame, H2 in Hres, Hrem. rewrite Hdrop, Hquiet, H3 in Hcalls.
    rewrite Hdrop in Hbat.
    assert (rest <> []) as Hne.
    { intros E. apply (f_equal length) in E. unfold rest in E.
      rewrite length_drop in E. cbn in E. lia. }
    rewrite (groups_step _ rest) by (assumption || lia). fold batch.
    assert (batch ++ drop (Z.to_nat concurrent) rest = rest) as Hsplit
      by apply take_drop.
    rewrite <- (f_equal (map number) Hsplit), map_app.
    rewrite <- (f_equal (Spec.individually provider _) Hsplit), individually_app.
    destruct (Spec.individually provider (AiRisk.remote (AiRisk.world acc)) batch)
      as [rs s1].
    cbn [fst snd] in *. subst batchResults.
    destruct (Spec.individually provider s1 (drop (Z.to_nat concurrent) rest))
      as [rs' s2].
    cbn [fst snd] in *.
    rewrite storeAll_app, Hres, Hbat, Hrem, Hcalls, <- !app_assoc. auto.
  - exists acc. split; [reflexivity|].
    rewrite drop_ge by lia. cbn. rewrite !app_nil_r. auto.
Qed.

(** Nothing in the source rejects a group size of 0: the index never
    moves and the loop does not end. *)
Lemma batchLoop_zero_stuck fuel prs apiKey (onProgress : bool)
    (acc : AiRisk.Outcome Remote) :
  prs <> [] ->
  AiRisk.batchLoop provider fuel prs apiKey 0 onProgress 0 acc = None.
Proof.
  intros Hne. revert acc. induction fuel as [|fuel IH]; intros acc; [reflexivity|].
  cbn [AiRisk.batchLoop].
  destruct (Z.ltb_spec 0 (Z.of_nat (length prs))) as [Hlt | Hge].
  - change (0 + 0) with 0.
    assert (JS.slice prs 0 0 = []) as ->.
    { unfold JS.slice. cbn [Z.ltb Z.compare]. rewrite Z.min_l by lia.
      reflexivity. }
    cbn [AiRisk.promiseAll]. apply IH.
  - destruct prs; [congruence | cbn in Hge; lia].
Qed.

Lemma batchAnalyze_spec fuel prs apiKey (options : AiRisk.Options) w :
  let c := default 3 (AiRisk.concurrent options) in
  1 <= c -> (length prs < fuel)%nat ->
  let alone := Spec.individually provider (AiRisk.remote w) prs in
  exists out,
    AiRisk.batchAnalyzeRisksWithAI provider fuel prs apiKey options w = Some out
    /\ AiRisk.results out = AiRisk.storeAll ∅ alone.1
    /\ AiRisk.batches out = Spec.groups (Z.to_nat c) prs
    /\ AiRisk.remote (AiRisk.world out) = alone.2
    /\ AiRisk.calls (AiRisk.trace (AiRisk.world out))
       = AiRisk.calls (AiRisk.trace w) ++ map number prs.
Proof.
  cbn zeta. intros Hc Hfuel. unfold AiRisk.batchAnalyzeRisksWithAI.
  destruct (batchLoop_spec fuel prs apiKey (default 3 (AiRisk.concurrent options))
              (AiRisk.onProgress options) 0
              {| AiRisk.results := ∅; AiRisk.batches := []; AiRisk.world := w |})
    as (out & Hrun & Hrest); [assumption | lia | lia |].
  exists out. split; [exact Hrun|]. exact Hrest.
Qed.

(** Every settled call is either a rejection or an analysis keyed by the
    number of the record it was made for. *)
Lemma individually_lookup (s : Remote) prs i pr :
  prs !! i = Some pr ->
  exists o, (Spec.individually provider s prs).1 !! i = Some o
    /\ forall n analysis, o = Some (n, analysis) -> n = number pr.
Proof.
  revert s i. induction prs as [|pr0 prs IH]; intros s i; [intros [=]|].
  cbn [Spec.individually]. destruct (provider s pr0) as [object s1].
  specialize (IH s1).
  destruct (Spec.individually provider s1 prs) as [rs s2]. cbn [fst] in *.
  destruct i as [|i]; cbn [lookup list_lookup].
  - intros [= ->]. eexists. split; [reflexivity|].
    intros n analysis. destruct object; cbn; [intros [= <- _]; reflexivity | intros [=]].
  - apply IH.
Qed.

Lemma individually_length (s : Remote) prs :
  length (Spec.individually provider s prs).1 = length prs.
Proof.
  revert s. induction prs as [|pr prs IH]; intros s; [reflexivity|].
  cbn [Spec.individually]. destruct (provider s pr) as [object s1].
  specialize (IH s1). destruct (Spec.individually provider s1 prs). cbn in *. lia.
Qed.

Lemma successes_failures {X} (settled : list (option X)) :
  (Spec.successes settled + Spec.failures settled = length settled)%nat.
Proof.
  unfold Spec.successes, Spec.failures.
  induction settled as [|[x|] settled IH]; cbn in *; lia.
Qed.

(** With distinct numbers no [set] overwrites another. *)
Lemma storeAll_individually (s : Remote) prs (m : gmap Z Schema.AIRiskAnalysis) :
  NoDup (map number prs) ->
  let settled := (Spec.individually provider s prs).1 in
  (forall k, ~ In k (map number prs) -> AiRisk.storeAll m settled !! k = m !! k)
  /\ (forall i pr o, prs !! i = Some pr -> settled !! i = Some o ->
        AiRisk.storeAll m settled !! number pr
        = match o with Some (_, analysis) => Some analysis | None => m !! number pr end)
  /\ ((forall k, In k (map number prs) -> m !! k = None) ->
        size (AiRisk.storeAll m settled) = (size m + Spec.successes settled)%nat).
Proof.
  cbn zeta. revert s m. induction prs as [|pr0 prs IH]; intros s m Hnd.
  - cbn. repeat split; [intros ? ? ? [=] | intros _; unfold Spec.successes; cbn; lia].
  - cbn [map] in Hnd. apply NoDup_cons in Hnd as [Hfresh Hnd].
    rewrite list_elem_of_In in Hfresh.
    cbn [Spec.individually]. destruct (provider s pr0) as [object s1].
    specialize (IH s1).
    destruct (Spec.individually provider s1 prs) as [rs s2]. cbn [fst] in *.
    change (AiRisk.storeAll m (?o :: rs))
      with (AiRisk.storeAll (AiRisk.store m o) rs).
    set (m' := AiRisk.store m ((λ analysis, (number pr0, analysis)) <$> object)).
    destruct (IH m' Hnd) as (Hout & Hin & Hsize).
    assert (forall k, k <> number pr0 -> m' !! k = m !! k) as Hother.
    { intros k Hk. unfold m'. destruct object; cbn; [|reflexivity].
      apply lookup_insert_ne. congruence. }
    repeat split.
    + intros k Hk. cbn [map In] in Hk.
      rewrite Hout by tauto. apply Hother. intros ->. tauto.
    + intros i pr o Hi Ho. destruct i as [|i]; cbn [lookup list_lookup] in Hi, Ho.
      * injection Hi as ->. injection Ho as <-.
        rewrite Hout by assumption. unfold m'.
        destruct object; cbn; [apply lookup_insert_eq | reflexivity].
      * rewrite (Hin i pr o Hi Ho). destruct o as [[]|]; [reflexivity|].
        apply Hother. intros E. apply Hfresh. rewrite <- E.
        apply in_map, list_elem_of_In, (list_elem_of_lookup_2 _ i), Hi.
    + intros Hm. rewrite Hsize.
      * unfold m', Spec.successes. destruct object; cbn; [|lia].
        rewrite map_size_insert_None by (apply Hm; left; reflexivity). lia.
      * intros k Hk. rewrite Hother by (intros ->; tauto).
        apply Hm. right. exact Hk.
Qed.

End Escalation.

(** ** The escalator *)

Section Escalator.

Context {Remote : Type}.
Variable provider : Remote -> PullRequest -> option Schema.AIRiskAnalysis * Remote.

Implicit Types (w : AiRisk.World Remote) (prs : list PullRequest).

(** C5. A failed call stays with its record. For every list of records
    with distinct numbers, whatever calls fail, the batch escalator
    returns; its map holds, for each record whose call succeeded, that
    call's analysis under the record's number, and nothing under the
    number of a record whose call failed; so the map has one entry per
    successful call, and N - 1 entries when exactly one of N calls fails. *)
Theorem escalation_isolated fuel prs apiKey (options : AiRisk.Options) w :
  NoDup (map number prs) ->
  1 <= default 3 (AiRisk.concurrent options) ->
  (length prs < fuel)%nat ->
  let settled := (Spec.individually provider (AiRisk.remote w) prs).1 in
  exists out,
    AiRisk.batchAnalyzeRisksWithAI provider fuel prs apiKey options w = Some out
    /\ (forall i pr, prs !! i = Some pr ->
          exists o, settled !! i = Some o
            /\ AiRisk.results out !! number pr = snd <$> o
            /\ (forall n analysis, o = Some (n, analysis) -> n = number pr))
    /\ (forall k, ~ In k (map number prs) -> AiRisk.results out !! k = None)
    /\ size (AiRisk.results out) = Spec.successes settled
    /\ (Spec.failures settled = 1%nat ->
          size (AiRisk.results out) = (length prs - 1)%nat).
Proof.
  intros Hnd Hc Hfuel. cbn zeta.
  destruct (batchAnalyze_spec provider fuel prs apiKey options w Hc Hfuel)
    as (out & Hrun & Hres & _).
  destruct (storeAll_individually provider (AiRisk.remote w) prs ∅ Hnd)
    as (Hout & Hin & Hsize).
  exists out. split; [exact Hrun|]. rewrite Hres.
  assert (size (AiRisk.storeAll ∅ (Spec.individually provider (AiRisk.remote w) prs).1)
          = Spec.successes (Spec.individually provider (AiRisk.remote w) prs).1)
    as Hcount.
  { rewrite Hsize by (intros; apply lookup_empty). rewrite map_size_empty. lia. }
  repeat split.
  - intros i pr Hi.
    destruct (individually_lookup provider (AiRisk.remote w) prs i pr Hi)
      as (o & Ho & Hkey).
    exists o. split; [exact Ho|]. split; [|exact Hkey].
    rewrite (Hin i pr o Hi Ho). destruct o as [[]|]; [reflexivity | apply lookup_empty].
  - intros k Hk. rewrite Hout by assumption. apply lookup_empty.
  - exact Hcount.
  - intros Hone. rewrite Hcount.
    pose proof (successes_failures (Spec.individually provider (AiRisk.remote w) prs).1)
      as Hsum.
    rewrite individually_length in Hsum. lia.
Qed.

(** The map the loop builds holds, under every number, the analysis of
    the last successful call for a record of that number. *)
Lemma storeAll_entry (m : gmap Z Schema.AIRiskAnalysis)
    (settled : list (option (Z * Schema.AIRiskAnalysis))) (n : Z) :
  AiRisk.storeAll m settled !! n
  = match Spec.entry settled n with
    | Some analysis => Some analysis
    | None => m !! n
    end.
Proof.
  revert m. induction settled as [|r later IH]; intros m; [reflexivity|].
  change (AiRisk.storeAll m (r :: later))
    with (AiRisk.storeAll (AiRisk.store m r) later).
  rewrite IH. cbn [Spec.entry].
  destruct (Spec.entry later n) as [analysis|]; [reflexivity|].
  destruct r as [[k analysis]|]; cbn [AiRisk.store]; [|reflexivity].
  destruct (bool_decide_reflect (k = n)) as [-> | Hne].
  - apply lookup_insert_eq.
  - apply lookup_insert_ne, Hne.
Qed.

(** C7. With a group size of at least 1 the batch escalator visits its
    input in consecutive groups of that size (3 when none is given): the
    groups, put end to end, are the input; every group has between 1 and
    [concurrent] records and every group but the last has [concurrent];
    seven records in groups of 3 make the sizes 3, 3, 1; and the entries
    of the map are those of analysing the records one at a time: under
    every number the map holds the analysis returned by the last
    successful individual call for a record of that number, and nothing
    when there is none. A run in groups of one gives the same map. *)
Theorem batches_partition fuel prs apiKey (options : AiRisk.Options) w :
  let c := default 3 (AiRisk.concurrent options) in
  1 <= c -> (length prs < fuel)%nat ->
  exists out one,
    AiRisk.batchAnalyzeRisksWithAI provider fuel prs apiKey options w = Some out
    /\ AiRisk.batches out = Spec.groups (Z.to_nat c) prs
    /\ concat (AiRisk.batches out) = prs
    /\ (forall k g, AiRisk.batches out !! k = Some g ->
          1 <= Z.of_nat (length g) <= c
          /\ ((S k < length (AiRisk.batches out))%nat -> Z.of_nat (length g) = c))
    /\ (length prs = 7%nat -> c = 3 ->
          map length (AiRisk.batches out) = [3; 3; 1]%nat)
    /\ (forall n,
          AiRisk.results out !! n
          = Spec.entry (Spec.individually provider (AiRisk.remote w) prs).1 n)
    /\ AiRisk.results out
       = AiRisk.storeAll ∅ (Spec.individually provider (AiRisk.remote w) prs).1
    /\ AiRisk.batchAnalyzeRisksWithAI provider fuel prs apiKey
         {| AiRisk.concurrent := Some 1; AiRisk.onProgress := AiRisk.onProgress options |}
         w = Some one
    /\ AiRisk.batches one = map (fun pr => [pr]) prs
    /\ AiRisk.results one = AiRisk.results out.
Proof.
  cbn zeta. intros Hc Hfuel.
  destruct (batchAnalyze_spec provider fuel prs apiKey options w Hc Hfuel)
    as (out & Hrun & Hres & Hbat & _).
  destruct (batchAnalyze_spec provider fuel prs apiKey
              {| AiRisk.concurrent := Some 1;
                 AiRisk.onProgress := AiRisk.onProgress options |} w)
    as (one & Hrun1 & Hres1 & Hbat1 & _); [cbn; lia | assumption |].
  exists out, one. split; [exact Hrun|]. split; [exact Hbat|].
  assert (1 <= Z.to_nat (default 3%Z (AiRisk.concurrent options)))%nat as Hsize by lia.
  rewrite Hbat. repeat split.
  - apply groups_concat, Hsize.
  - destruct (groups_sizes _ prs Hsize k g H) as [[] _]. lia.
  - destruct (groups_sizes _ prs Hsize k g H) as [[] _]. lia.
  - intros Hk. destruct (groups_sizes _ prs Hsize k g H) as [_ Hfull].
    rewrite (Hfull Hk). lia.
  - intros Hlen ->.
    destruct prs as [|p1 [|p2 [|p3 [|p4 [|p5 [|p6 [|p7 [|p8 ?]]]]]]]];
      cbn in Hlen; try lia. reflexivity.
  - intros n. rewrite Hres, storeAll_entry.
    destruct (Spec.entry _ n); [reflexivity | apply lookup_empty].
  - exact Hres.
  - exact Hrun1.
  - rewrite Hbat1. apply groups_one.
  - rewrite Hres1, Hres. reflexivity.
Qed.

(** The calls the hybrid analysis makes are exactly the records the
    threshold filter lets through, in input order. *)
Lemma hybrid_spec fuel prs apiKey (threshold : option float) w :
  (length prs < fuel)%nat ->
  let selected := AiRisk.highRiskPRs prs (default 0.5%float threshold) in
  exists out,
    AiRisk.hybridRiskAnalysis provider fuel prs apiKey threshold w = Some out
    /\ AiRisk.results out
       = AiRisk.storeAll ∅ (Spec.individually provider (AiRisk.remote w) selected).1
    /\ AiRisk.batches out = Spec.groups 3 selected
    /\ AiRisk.calls (AiRisk.trace (AiRisk.world out))
       = AiRisk.calls (AiRisk.trace w) ++ map number selected.
Proof.
  intros Hfuel. cbn zeta. unfold AiRisk.hybridRiskAnalysis.
  set (selected := AiRisk.highRiskPRs prs (default 0.5%float threshold)).
  assert (length selected <= length prs)%nat as Hlen
    by apply List.filter_length_le.
  destruct (batchAnalyze_spec provider fuel selected apiKey AiRisk.noOptions
              (AiRisk.emit (AiRisk.ConsoleLog (length selected)) w))
    as (out & Hrun & Hres & Hbat & _ & Hcalls); [cbn; lia | lia |].
  exists out. split; [exact Hrun|]. split; [exact Hres|]. split; [exact Hbat|].
  rewrite Hcalls. cbn [AiRisk.emit AiRisk.trace]. rewrite calls_app. cbn.
  rewrite app_nil_r. reflexivity.
Qed.

End Escalator.

(** ** The pipeline *)

Lemma lookup_map {A B} (f : A -> B) (l : list A) (i : nat) :
  map f l !! i = f <$> (l !! i).
Proof.
  revert i. induction l as [|x l IH]; intros [|i]; cbn; try reflexivity. apply IH.
Qed.

Lemma mergeOne_same_change (aiRiskResults : gmap Z Schema.AIRiskAnalysis)
    (pr : PullRequest) (r : option float) :
  Spec.same_change pr (Digest.mergeOne aiRiskResults (Risk.with_riskScore pr r)).
Proof.
  unfold Digest.mergeOne. cbn [number Risk.with_riskScore].
  destruct (aiRiskResults !! number pr); unfold Spec.same_change; cbn; repeat split.
Qed.

Section Pipeline.

Context {Remote : Type}.
Variable provider : Remote -> PullRequest -> option Schema.AIRiskAnalysis * Remote.

Implicit Types (w : AiRisk.World Remote) (prs : list PullRequest).

(** C9. On an empty record set the pipeline returns the empty set and asks
    the provider nothing, whatever the provider, the threshold and the
    options: no request is added to the trace and the provider's state is
    the one it started from. The batch escalator by itself returns the
    empty map without a single group. *)
Theorem empty_input fuel apiKey (aiRisk : bool) (aiRiskThreshold : option float)
    (options : AiRisk.Options) w :
  (exists w',
     Digest.analyzeRisks provider (S fuel) [] apiKey aiRisk aiRiskThreshold w
     = Some ([], w')
     /\ AiRisk.calls (AiRisk.trace w') = AiRisk.calls (AiRisk.trace w)
     /\ AiRisk.remote w' = AiRisk.remote w)
  /\ (exists out,
        AiRisk.hybridRiskAnalysis provider (S fuel) [] apiKey aiRiskThreshold w
        = Some out
        /\ AiRisk.results out = ∅
        /\ AiRisk.batches out = []
        /\ AiRisk.calls (AiRisk.trace (AiRisk.world out)) = AiRisk.calls (AiRisk.trace w)
        /\ AiRisk.remote (AiRisk.world out) = AiRisk.remote w)
  /\ AiRisk.batchAnalyzeRisksWithAI provider (S fuel) [] apiKey options w
     = Some {| AiRisk.results := ∅; AiRisk.batches := []; AiRisk.world := w |}.
Proof.
  assert (AiRisk.calls (AiRisk.trace (AiRisk.emit (AiRisk.ConsoleLog 0) w))
          = AiRisk.calls (AiRisk.trace w)) as Hquiet.
  { cbn [AiRisk.emit AiRisk.trace]. rewrite calls_app. cbn. apply app_nil_r. }
  split; [|split].
  - destruct aiRisk.
    + eexists. split; [reflexivity|]. split; [exact Hquiet | reflexivity].
    + exists w. auto.
  - eexists. split; [reflexivity|]. cbn [AiRisk.results AiRisk.batches AiRisk.world].
    repeat split. exact Hquiet.
  - reflexivity.
Qed.

(** C3. Whatever the provider does and whatever the threshold, the
    pipeline returns one record per input record, in input order: the
    output has the length of the input and its i-th record describes the
    same change as the i-th input record. *)
Theorem pipeline_preserves_records fuel prs apiKey (aiRisk : bool)
    (aiRiskThreshold : option float) w :
  (length prs < fuel)%nat ->
  exists out w',
    Digest.analyzeRisks provider fuel prs apiKey aiRisk aiRiskThreshold w
    = Some (out, w')
    /\ length out = length prs
    /\ map number out = map number prs
    /\ Forall2 Spec.same_change prs out.
Proof.
  intros Hfuel. unfold Digest.analyzeRisks.
  assert (forall m, Forall2 Spec.same_change prs
            (Digest.merge m (Risk.calculateRiskForPRs prs))) as Hsame.
  { intros m. unfold Digest.merge, Risk.calculateRiskForPRs.
    induction prs as [|pr l IH]; cbn [map]; constructor.
    - apply mergeOne_same_change.
    - apply IH. cbn in Hfuel. lia. }
  assert (Forall2 Spec.same_change prs (Risk.calculateRiskForPRs prs)) as Hplain.
  { unfold Risk.calculateRiskForPRs. clear.
    induction prs as [|pr l IH]; cbn [map]; constructor; [|exact IH].
    unfold Spec.same_change. cbn. repeat split. }
  assert (forall out, Forall2 Spec.same_change prs out ->
            length out = length prs /\ map number out = map number prs) as Hshape.
  { clear. intros out H. induction H as [|a b l l' Hab _ [IHl IHn]]; [auto|].
    cbn. destruct Hab as [Hn _]. split; congruence. }
  destruct aiRisk.
  - destruct (hybrid_spec provider fuel (Risk.calculateRiskForPRs prs) apiKey
                (Some (JS.or_default aiRiskThreshold 0.5)) w)
      as (esc & Hrun & _).
    { unfold Risk.calculateRiskForPRs. rewrite length_map. exact Hfuel. }
    rewrite Hrun. eexists _, _. split; [reflexivity|].
    destruct (Hshape _ (Hsame (AiRisk.results esc))) as [Hl Hn]. auto.
  - eexists _, _. split; [reflexivity|].
    destruct (Hshape _ Hplain) as [Hl Hn]. auto.
Qed.

(** C1. The score of the analysis replaces the formula score, it is not
    mixed with it. For records fetched without an analysis, the pipeline
    with AI scoring on returns, and at every position: if the number of
    the record is a key of the escalator's map, the output record carries
    that analysis and its riskScore is the analysis's riskScore; if it is
    not, the output record has the formula score of [calculateRisk] and no
    analysis. *)
Theorem score_override fuel prs apiKey (aiRiskThreshold : option float) w :
  (length prs < fuel)%nat ->
  Forall (fun pr => aiRiskAnalysis pr = None) prs ->
  exists esc out w',
    AiRisk.hybridRiskAnalysis provider fuel (Risk.calculateRiskForPRs prs) apiKey
      (Some (JS.or_default aiRiskThreshold 0.5)) w = Some esc
    /\ Digest.analyzeRisks provider fuel prs apiKey true aiRiskThreshold w
       = Some (out, w')
    /\ forall i pr, prs !! i = Some pr ->
         exists pr', out !! i = Some pr'
           /\ number pr' = number pr
           /\ match AiRisk.results esc !! number pr with
              | Some analysis =>
                  riskScore pr' = Some (Schema.riskScore analysis)
                  /\ aiRiskAnalysis pr' = Some analysis
              | None =>
                  riskScore pr' = Some (Risk.calculateRisk pr)
                  /\ aiRiskAnalysis pr' = None
              end.
Proof.
  intros Hfuel Hfetched. unfold Digest.analyzeRisks.
  destruct (hybrid_spec provider fuel (Risk.calculateRiskForPRs prs) apiKey
              (Some (JS.or_default aiRiskThreshold 0.5)) w)
    as (esc & Hrun & _).
  { unfold Risk.calculateRiskForPRs. rewrite length_map. exact Hfuel. }
  rewrite Hrun. exists esc. eexists _, _. split; [reflexivity|]. split; [reflexivity|].
  intros i pr Hi. unfold Digest.merge, Risk.calculateRiskForPRs.
  rewrite !lookup_map, Hi. cbn [fmap option_fmap option_map].
  eexists. split; [reflexivity|].
  unfold Digest.mergeOne. cbn [number Risk.with_riskScore].
  destruct (AiRisk.results esc !! number pr) as [analysis|]; cbn; [auto|].
  repeat split. rewrite Forall_forall in Hfetched. apply Hfetched.
  apply (list_elem_of_lookup_2 _ i), Hi.
Qed.

End Pipeline.

(** ** The threshold filter in the pipeline *)

Section Filter.

Context {Remote : Type}.
Variable provider : Remote -> PullRequest -> option Schema.AIRiskAnalysis * Remote.

Implicit Types (w : AiRisk.World Remote) (prs : list PullRequest).

(** What [hybridRiskAnalysis] hands to the batch escalator, and what the
    escalator asks the provider about, is the list the filter lets
    through. *)
Lemma hybrid_escalates fuel prs apiKey (threshold : option float) w :
  (length prs < fuel)%nat ->
  let selected := AiRisk.highRiskPRs prs (default 0.5%float threshold) in
  exists out,
    AiRisk.hybridRiskAnalysis provider fuel prs apiKey threshold w = Some out
    /\ concat (AiRisk.batches out) = selected
    /\ AiRisk.calls (AiRisk.trace (AiRisk.world out))
       = AiRisk.calls (AiRisk.trace w) ++ map number selected.
Proof.
  intros Hfuel. cbn zeta.
  destruct (hybrid_spec provider fuel prs apiKey threshold w Hfuel)
    as (out & Hrun & _ & Hbat & Hcalls).
  exists out. split; [exact Hrun|]. split; [|exact Hcalls].
  rewrite Hbat. apply groups_concat. lia.
Qed.

(** C4. The comparison of the filter is inclusive, but it is not made on
    the formula score the record carries. [hybridRiskAnalysis] scores
    again with [calculateFormulaRisk], which takes "SRC/Feature.Test.ts"
    for no test. On that score the claim holds for every input and every
    threshold: a record scored exactly the threshold is in the groups
    handed to the batch escalator and one scored strictly less is not. On
    the formula score it fails. With the threshold 0.2 and whatever the
    provider: the record whose formula score is exactly 0.2 is sent to the
    escalation and the one whose formula score is 0.1998 is not, as the
    claim has it; but the record numbered 7, whose formula score 0.0154 is
    strictly below 0.2, is sent as well, the filter having scored it
    0.2154, and the pipeline replaces its score with the provider's. *)
Theorem threshold_not_on_formula_score (fuel : nat) w :
  let at_t := mkPR 1 1000 0 0 ["a.test.ts"%string] 1 in
  let below := mkPR 2 999 0 0 ["a.test.ts"%string] 1 in
  let pr := mkPR 7 1 1 1 ["SRC/Feature.Test.ts"%string] 1 in
  let prsWithRisk := Risk.calculateRiskForPRs [at_t; below; pr] in
  (forall prs apiKey (t : float) record,
     (length prs < S fuel)%nat -> In record prs ->
     exists out,
       AiRisk.hybridRiskAnalysis provider (S fuel) prs apiKey (Some t) w = Some out
       /\ ((AiRisk.calculateFormulaRisk record =? t)%float = true ->
           In record (concat (AiRisk.batches out)))
       /\ ((AiRisk.calculateFormulaRisk record <? t)%float = true ->
           ~ In record (concat (AiRisk.batches out))))
  /\ map riskScore prsWithRisk
     = [Some 0.2%float; Some 0.1998%float; Some 0.015399999999999999%float]
  /\ (Risk.calculateRisk pr <? 0.2)%float = true
  /\ AiRisk.calculateFormulaRisk pr = 0.2154%float
  /\ (exists esc,
        AiRisk.hybridRiskAnalysis provider (4 + fuel) prsWithRisk "k" (Some 0.2%float) w
        = Some esc
        /\ map (map number) (AiRisk.batches esc) = [[1; 7]]
        /\ AiRisk.calls (AiRisk.trace (AiRisk.world esc))
           = AiRisk.calls (AiRisk.trace w) ++ [1; 7])
  /\ (exists out w',
        Digest.analyzeRisks provider (4 + fuel) [at_t; below; pr] "k" true
          (Some 0.2%float) w = Some (out, w')
        /\ AiRisk.calls (AiRisk.trace w') = AiRisk.calls (AiRisk.trace w) ++ [1; 7])
  /\ option_map (fun r => map (fun p => (number p, riskScore p)) r.1)
       (Digest.analyzeRisks (flaky []) 4 [at_t; below; pr] "k" true
          (Some 0.2%float) world0)
     = Some [(1, Some 0.9%float); (2, Some 0.1998%float); (7, Some 0.9%float)].
Proof.
  cbn zeta.
  set (prsWithRisk := Risk.calculateRiskForPRs _).
  assert (AiRisk.highRiskPRs prsWithRisk 0.2
          = [Risk.with_riskScore (mkPR 1 1000 0 0 ["a.test.ts"%string] 1) (Some 0.2%float);
             Risk.with_riskScore (mkPR 7 1 1 1 ["SRC/Feature.Test.ts"%string] 1)
               (Some 0.015399999999999999%float)]) as Hsel
    by reflexivity.
  destruct (hybrid_spec provider (4 + fuel) prsWithRisk "k" (Some 0.2%float) w)
    as (esc & Hrun & _ & Hbat & Hcalls); [cbn; lia|].
  change (default 0.5%float (Some 0.2%float)) with 0.2%float in Hbat, Hcalls.
  rewrite Hsel in Hbat, Hcalls.
  split.
  { intros prs apiKey t record Hfuel Hin.
    destruct (hybrid_escalates (S fuel) prs apiKey (Some t) w Hfuel)
      as (out & Hout & Hsent & _).
    change (default 0.5%float (Some t)) with t in Hsent.
    exists out. split; [exact Hout|]. rewrite Hsent.
    apply highRiskPRs_inclusive, Hin. }
  split; [reflexivity|]. split; [reflexivity|]. split; [reflexivity|].
  split; [|split].
  - exists esc. split; [exact Hrun|]. split; [rewrite Hbat; reflexivity | exact Hcalls].
  - unfold Digest.analyzeRisks. fold prsWithRisk.
    change (JS.or_default (Some 0.2%float) 0.5) with 0.2%float.
    rewrite Hrun. eexists _, _. split; [reflexivity | exact Hcalls].
  - vm_compute. reflexivity.
Qed.

End Filter.

Lemma threshold_not_on_formula_score_witness :
  let at_t := mkPR 1 1000 0 0 ["a.test.ts"%string] 1 in
  let below := mkPR 2 999 0 0 ["a.test.ts"%string] 1 in
  exists out,
    AiRisk.hybridRiskAnalysis (flaky []) 4 [at_t; below] "k" (Some 0.2%float) world0
    = Some out
    /\ In at_t (concat (AiRisk.batches out))
    /\ ~ In below (concat (AiRisk.batches out)).
Proof.
  cbn zeta.
  destruct (threshold_not_on_formula_score (flaky []) 3 world0) as [Hgen _].
  destruct (Hgen [mkPR 1 1000 0 0 ["a.test.ts"%string] 1;
                  mkPR 2 999 0 0 ["a.test.ts"%string] 1] "k"%string 0.2%float
              (mkPR 1 1000 0 0 ["a.test.ts"%string] 1))
    as (out & Hrun & Hin & _); [cbn; lia | left; reflexivity |].
  destruct (Hgen [mkPR 1 1000 0 0 ["a.test.ts"%string] 1;
                  mkPR 2 999 0 0 ["a.test.ts"%string] 1] "k"%string 0.2%float
              (mkPR 2 999 0 0 ["a.test.ts"%string] 1))
    as (out' & Hrun' & _ & Hout); [cbn; lia | right; left; reflexivity |].
  rewrite Hrun in Hrun'. injection Hrun' as <-.
  exists out. split; [exact Hrun|].
  split; [apply Hin; reflexivity | apply Hout; reflexivity].
Defined.

(** ** The theorems at work on the sample data *)

Lemma escalation_isolated_witness :
  NoDup (map number seven)
  /\ 1 <= default 3 (AiRisk.concurrent AiRisk.noOptions)
  /\ (length seven < 8)%nat
  /\ exists out,
       AiRisk.batchAnalyzeRisksWithAI (flaky [4]) 8 seven "k" AiRisk.noOptions world0
       = Some out
       /\ (forall i pr, seven !! i = Some pr ->
             exists o, (Spec.individually (flaky [4]) tt seven).1 !! i = Some o
               /\ AiRisk.results out !! number pr = snd <$> o
               /\ (forall n analysis, o = Some (n, analysis) -> n = number pr))
       /\ (forall k, ~ In k (map number seven) -> AiRisk.results out !! k = None)
       /\ size (AiRisk.results out)
          = Spec.successes (Spec.individually (flaky [4]) tt seven).1
       /\ (Spec.failures (Spec.individually (flaky [4]) tt seven).1 = 1%nat ->
             size (AiRisk.results out) = (length seven - 1)%nat).
Proof.
  assert (NoDup (map number seven)) as Hnd by (apply (bool_decide_unpack _); vm_compute; exact I).
  split; [exact Hnd|]. split; [cbn; lia|]. split; [cbn; lia|].
  apply (escalation_isolated (flaky [4]) 8 seven "k" AiRisk.noOptions world0);
    [exact Hnd | cbn; lia | cbn; lia].
Defined.

Lemma batches_partition_witness :
  exists out one,
    AiRisk.batchAnalyzeRisksWithAI (flaky [4]) 8 seven "k" AiRisk.noOptions world0
    = Some out
    /\ AiRisk.batches out = Spec.groups 3 seven
    /\ concat (AiRisk.batches out) = seven
    /\ (forall k g, AiRisk.batches out !! k = Some g ->
          1 <= Z.of_nat (length g) <= 3
          /\ ((S k < length (AiRisk.batches out))%nat -> Z.of_nat (length g) = 3))
    /\ (length seven = 7%nat -> 3 = 3 ->
          map length (AiRisk.batches out) = [3; 3; 1]%nat)
    /\ (forall n,
          AiRisk.results out !! n
          = Spec.entry (Spec.individually (flaky [4]) tt seven).1 n)
    /\ AiRisk.results out
       = AiRisk.storeAll ∅ (Spec.individually (flaky [4]) tt seven).1
    /\ AiRisk.batchAnalyzeRisksWithAI (flaky [4]) 8 seven "k"
         {| AiRisk.concurrent := Some 1; AiRisk.onProgress := false |} world0
       = Some one
    /\ AiRisk.batches one = map (fun pr => [pr]) seven
    /\ AiRisk.results one = AiRisk.results out.
Proof.
  apply (batches_partition (flaky [4]) 8 seven "k" AiRisk.noOptions world0);
    cbn; lia.
Defined.

(** Two records with the same number: the map keeps the analysis of the
    later call, as analysing them one at a time and storing each result
    does; a number no record has is no key. *)
Example later_analysis_replaces_earlier :
  let prs := [mkPR 5 0 0 0 [] 1; mkPR 6 0 0 0 [] 1; mkPR 5 0 0 0 [] 1] in
  let w := {| AiRisk.remote := 0; AiRisk.nextSettled := fun _ _ => 0%nat;
              AiRisk.trace := [] |} in
  option_map
    (fun out => map (fun n => (n, Schema.riskScore <$> AiRisk.results out !! n)) [5; 6; 7])
    (AiRisk.batchAnalyzeRisksWithAI counting 4 prs "k" AiRisk.noOptions w)
  = Some [(5, Some 0.2%float); (6, Some 0.1%float); (7, None)]
  /\ map (fun n => (n, Schema.riskScore <$> Spec.entry (Spec.individually counting 0 prs).1 n))
       [5; 6; 7]
     = [(5, Some 0.2%float); (6, Some 0.1%float); (7, None)].
Proof. split; vm_compute; reflexivity. Qed.

Lemma pipeline_preserves_records_witness :
  exists out w',
    Digest.analyzeRisks (flaky [4]) 8 seven "k" true None world0 = Some (out, w')
    /\ length out = length seven
    /\ map number out = map number seven
    /\ Forall2 Spec.same_change seven out.
Proof.
  apply (pipeline_preserves_records (flaky [4]) 8 seven "k" true None world0).
  cbn. lia.
Defined.

Lemma score_override_witness :
  exists esc out w',
    AiRisk.hybridRiskAnalysis (flaky [4]) 8 (Risk.calculateRiskForPRs seven) "k"
      (Some (JS.or_default None 0.5)) world0 = Some esc
    /\ Digest.analyzeRisks (flaky [4]) 8 seven "k" true None world0 = Some (out, w')
    /\ forall i pr, seven !! i = Some pr ->
         exists pr', out !! i = Some pr'
           /\ number pr' = number pr
           /\ match AiRisk.results esc !! number pr with
              | Some analysis =>
                  riskScore pr' = Some (Schema.riskScore analysis)
                  /\ aiRiskAnalysis pr' = Some analysis
              | None =>
                  riskScore pr' = Some (Risk.calculateRisk pr)
                  /\ aiRiskAnalysis pr' = None
              end.
Proof.
  apply (score_override (flaky [4]) 8 seven "k" None world0).
  - cbn. lia.
  - repeat constructor.
Defined.

(** Seven records over the threshold, the fourth call rejected: three
    groups, one logged error, two pauses, six entries in the map, and the
    fourth record keeps its formula score. *)
Example one_failure_of_seven :
  option_map
    (fun out => (size (AiRisk.results out),
                 map (map number) (AiRisk.batches out),
                 AiRisk.trace (AiRisk.world out)))
    (AiRisk.hybridRiskAnalysis (flaky [4]) 8 seven "k" None world0)
  = Some (6%nat,
          [[1; 2; 3]; [4; 5; 6]; [7]],
          [AiRisk.ConsoleLog 7;
           AiRisk.GenerateObject 1; AiRisk.GenerateObject 2; AiRisk.GenerateObject 3;
           AiRisk.SetTimeout 500;
           AiRisk.GenerateObject 4; AiRisk.GenerateObject 5; AiRisk.GenerateObject 6;
           AiRisk.ConsoleError 4;
           AiRisk.SetTimeout 500;
           AiRisk.GenerateObject 7]).
Proof. vm_compute. reflexivity. Qed.

Example one_failure_of_seven_scores :
  option_map (fun r => map (fun pr => (number pr, riskScore pr)) r.1)
    (Digest.analyzeRisks (flaky [4]) 8 seven "k" true None world0)
  = Some [(1, Some 0.9%float); (2, Some 0.9%float); (3, Some 0.9%float);
          (4, Some Check.top_score);
          (5, Some 0.9%float); (6, Some 0.9%float); (7, Some 0.9%float)].
Proof. vm_compute. reflexivity. Qed.

(** * Further properties of the code *)

(** ** The order of binary64 numbers, continued *)

Ltac compare_cases :=
  repeat match goal with
  | H : context [(?a ?= ?b)%Z] |- _ => destruct (Z.compare_spec a b)
  | |- context [(?a ?= ?b)%Z] => destruct (Z.compare_spec a b)
  | H : context [Pos.compare_cont Eq ?a ?b] |- _ =>
      change (Pos.compare_cont Eq a b) with (Pos.compare a b) in H
  | |- context [Pos.compare_cont Eq ?a ?b] =>
      change (Pos.compare_cont Eq a b) with (Pos.compare a b)
  | H : context [(?a ?= ?b)%positive] |- _ => destruct (Pos.compare_spec a b)
  | |- context [(?a ?= ?b)%positive] => destruct (Pos.compare_spec a b)
  end.

Ltac by_float_cases :=
  intros;
  repeat match goal with
  | x : spec_float |- _ => destruct x as [[]|[]| |[] ? ?]
  end;
  cbn [SFcompare] in *; try discriminate; try reflexivity;
  compare_cases; cbn in *; try discriminate; try reflexivity; try lia.

Lemma SFleb_trans (x y z : spec_float) :
  SFleb x y = true -> SFleb y z = true -> SFleb x z = true.
Proof. unfold SFleb. by_float_cases. Qed.

Lemma SFleb_ltb_trans (x y z : spec_float) :
  SFleb x y = true -> SFltb y z = true -> SFltb x z = true.
Proof. unfold SFleb, SFltb. by_float_cases. Qed.

Lemma SFltb_leb_trans (x y z : spec_float) :
  SFltb x y = true -> SFleb y z = true -> SFltb x z = true.
Proof. unfold SFleb, SFltb. by_float_cases. Qed.

Lemma leb_trans (x y z : float) :
  (x <=? y)%float = true -> (y <=? z)%float = true -> (x <=? z)%float = true.
Proof. rewrite !FloatAxioms.leb_spec. apply SFleb_trans. Qed.

Lemma leb_ltb_trans (x y z : float) :
  (x <=? y)%float = true -> (y <? z)%float = true -> (x <? z)%float = true.
Proof. rewrite FloatAxioms.leb_spec, !FloatAxioms.ltb_spec. apply SFleb_ltb_trans. Qed.

Lemma ltb_leb_trans (x y z : float) :
  (x <? y)%float = true -> (y <=? z)%float = true -> (x <? z)%float = true.
Proof. rewrite FloatAxioms.leb_spec, !FloatAxioms.ltb_spec. apply SFltb_leb_trans. Qed.

(** ** The formula is monotone *)

Lemma adjacent_lines_ordered :
  Check.over_inputs (fun l f nt sm =>
    if l <? 2000
    then (Check.capped_score l f nt sm <=? Check.capped_score (l + 1) f nt sm)%float
    else true) = true.
Proof. vm_compute. reflexivity. Qed.

Lemma adjacent_files_ordered :
  Check.over_inputs (fun l f nt sm =>
    if f <? 20
    then (Check.capped_score l f nt sm <=? Check.capped_score l (f + 1) nt sm)%float
    else true) = true.
Proof. vm_compute. reflexivity. Qed.

Lemma flags_ordered :
  Check.over_inputs (fun l f nt sm =>
    (Check.capped_score l f false sm <=? Check.capped_score l f true sm)%float
    && (Check.capped_score l f nt false <=? Check.capped_score l f nt true)%float
    && (Check.capped_score l f nt sm <=? Check.capped_score l f nt sm)%float) = true.
Proof. vm_compute. reflexivity. Qed.

Lemma capped_score_refl l f nt sm :
  0 <= l <= 2000 -> 0 <= f <= 20 ->
  (Check.capped_score l f nt sm <=? Check.capped_score l f nt sm)%float = true.
Proof.
  intros Hl Hf.
  pose proof (over_inputs_spec _ flags_ordered l f nt sm Hl Hf) as H.
  apply andb_prop in H as [_ H]. exact H.
Qed.

Lemma capped_score_lines l l' f nt sm :
  0 <= l <= l' -> l' <= 2000 -> 0 <= f <= 20 ->
  (Check.capped_score l f nt sm <=? Check.capped_score l' f nt sm)%float = true.
Proof.
  intros Hl Hl' Hf.
  replace l' with (l + Z.of_nat (Z.to_nat (l' - l))) in * by lia.
  induction (Z.to_nat (l' - l)) as [|n IH].
  - rewrite Z.add_0_r. apply capped_score_refl; lia.
  - apply (leb_trans _ (Check.capped_score (l + Z.of_nat n) f nt sm)); [apply IH; lia|].
    pose proof (over_inputs_spec _ adjacent_lines_ordered (l + Z.of_nat n) f nt sm
                  ltac:(lia) Hf) as H.
    cbn beta in H. destruct (Z.ltb_spec (l + Z.of_nat n) 2000); [|lia].
    replace (l + Z.of_nat (S n)) with (l + Z.of_nat n + 1) by lia. exact H.
Qed.

Lemma capped_score_files l f f' nt sm :
  0 <= l <= 2000 -> 0 <= f <= f' -> f' <= 20 ->
  (Check.capped_score l f nt sm <=? Check.capped_score l f' nt sm)%float = true.
Proof.
  intros Hl Hf Hf'.
  replace f' with (f + Z.of_nat (Z.to_nat (f' - f))) in * by lia.
  induction (Z.to_nat (f' - f)) as [|n IH].
  - rewrite Z.add_0_r. apply capped_score_refl; lia.
  - apply (leb_trans _ (Check.capped_score l (f + Z.of_nat n) nt sm)); [apply IH; lia|].
    pose proof (over_inputs_spec _ adjacent_files_ordered l (f + Z.of_nat n) nt sm
                  Hl ltac:(lia)) as H.
    cbn beta in H. destruct (Z.ltb_spec (f + Z.of_nat n) 20); [|lia].
    replace (f + Z.of_nat (S n)) with (f + Z.of_nat n + 1) by lia. exact H.
Qed.

Lemma capped_score_flags l f (nt nt' sm sm' : bool) :
  0 <= l <= 2000 -> 0 <= f <= 20 ->
  (nt = true -> nt' = true) -> (sm = true -> sm' = true) ->
  (Check.capped_score l f nt sm <=? Check.capped_score l f nt' sm')%float = true.
Proof.
  intros Hl Hf Hnt Hsm.
  assert (forall a b, (Check.capped_score l f false b <=? Check.capped_score l f true b)%float = true
                      /\ (Check.capped_score l f a false <=? Check.capped_score l f a true)%float = true)
    as Hstep.
  { intros a b.
    pose proof (over_inputs_spec _ flags_ordered l f a b Hl Hf) as H.
    apply andb_prop in H as [H _]. apply andb_prop in H as [H1 H2]. auto. }
  apply (leb_trans _ (Check.capped_score l f nt' sm)).
  - destruct nt, nt'; try apply capped_score_refl; try assumption.
    + specialize (Hnt eq_refl). discriminate.
    + apply Hstep. exact false.
  - destruct sm, sm'; try apply capped_score_refl; try assumption.
    + specialize (Hsm eq_refl). discriminate.
    + apply Hstep. exact false.
Qed.

(** X1. The formula never rewards a riskier change: if a pull request has
    at least as many changed lines and files as another, lacks tests
    whenever the other does and is slow to merge whenever the other is,
    its score is at least the other's. In binary64 arithmetic this is not
    a consequence of the real-number formula; it holds on every pair of
    capped inputs. *)
Theorem calculateRisk_monotone (pr pr' : PullRequest) :
  0 <= additions pr + deletions pr <= additions pr' + deletions pr' ->
  0 <= changedFiles pr <= changedFiles pr' ->
  (Risk.noTests pr = true -> Risk.noTests pr' = true) ->
  (Risk.slowMerge pr = true -> Risk.slowMerge pr' = true) ->
  (Risk.calculateRisk pr <=? Risk.calculateRisk pr')%float = true.
Proof.
  intros Hl Hf Hnt Hsm. rewrite !calculateRisk_capped.
  set (l := Z.min (additions pr + deletions pr) 2000).
  set (l' := Z.min (additions pr' + deletions pr') 2000).
  set (f := Z.min (changedFiles pr) 20).
  set (f' := Z.min (changedFiles pr') 20).
  apply (leb_trans _ (Check.capped_score l' f (Risk.noTests pr) (Risk.slowMerge pr)));
    [apply capped_score_lines; lia|].
  apply (leb_trans _ (Check.capped_score l' f' (Risk.noTests pr) (Risk.slowMerge pr)));
    [apply capped_score_files; lia|].
  apply capped_score_flags; [lia | lia | assumption | assumption].
Qed.

Lemma calculateRisk_monotone_witness :
  (Risk.calculateRisk (mkPR 1 10 5 2 ["a.test.ts"%string] 1)
   <=? Risk.calculateRisk (mkPR 2 100 50 3 ["a.ts"%string] 80))%float = true.
Proof.
  apply calculateRisk_monotone; cbn; try lia; reflexivity.
Defined.

(** ** The filter's scorer against the scorer of [risk.ts] *)

Lemma toLowerCase_app (a b : string) :
  JS.toLowerCase (a ++ b) = (JS.toLowerCase a ++ JS.toLowerCase b)%string.
Proof.
  induction a as [|c a IH]; [reflexivity|].
  rewrite append_cons. cbn [JS.toLowerCase]. rewrite append_cons, IH. reflexivity.
Qed.

Lemma ai_test_like_risk_test_like (f : string) :
  AiRisk.test_like f = true -> Risk.test_like f = true.
Proof.
  rewrite ai_test_like_spec, risk_test_like_spec. unfold Spec.contains_ci.
  intros [(before & after & ->) | (before & after & ->)]; [left | right];
    exists (JS.toLowerCase before), (JS.toLowerCase after);
    rewrite !toLowerCase_app; reflexivity.
Qed.

Lemma risk_noTests_ai_noTests (pr : PullRequest) :
  Risk.noTests pr = true -> AiRisk.noTests pr = true.
Proof.
  unfold Risk.noTests, AiRisk.noTests, JS.some. rewrite !negb_true_iff.
  intros H. destruct (existsb AiRisk.test_like (filesChanged pr)) eqn:E; [|reflexivity].
  apply existsb_exists in E as (f & Hf & Ht).
  assert (existsb Risk.test_like (filesChanged pr) = true) as Hex.
  { apply existsb_exists. exists f. split; [assumption|].
    apply ai_test_like_risk_test_like, Ht. }
  congruence.
Qed.

Lemma calculateFormulaRisk_dominates (pr : PullRequest) :
  0 <= additions pr + deletions pr -> 0 <= changedFiles pr ->
  (Risk.calculateRisk pr <=? AiRisk.calculateFormulaRisk pr)%float = true.
Proof.
  intros Hl Hf. rewrite calculateRisk_capped, calculateFormulaRisk_capped.
  apply capped_score_flags; [lia | lia | apply risk_noTests_ai_noTests | auto].
Qed.

Lemma highRiskPRs_dominated (prs : list PullRequest) (pr : PullRequest) (t : float) :
  In pr prs ->
  0 <= additions pr + deletions pr -> 0 <= changedFiles pr ->
  (t <=? Risk.calculateRisk pr)%float = true ->
  In pr (AiRisk.highRiskPRs prs t).
Proof.
  intros Hin Hl Hf Ht. unfold AiRisk.highRiskPRs. apply filter_In.
  split; [assumption|].
  apply (leb_trans _ (Risk.calculateRisk pr)); [assumption|].
  apply calculateFormulaRisk_dominates; assumption.
Qed.

(** X2. [hybridRiskAnalysis] never misses a pull request that the digest
    shows at or above the threshold: although its filter recomputes the
    score with its own, case-sensitive scorer, that score is never below
    the one of [calculateRisk] when the line and file counters are not
    negative. So for a pull request of the input with such counters whose
    [calculateRisk] score reaches the threshold, [hybridRiskAnalysis]
    returns, the pull request is in one of the groups it hands to the
    batch escalator, and a request about it is sent to the provider. *)
Theorem displayed_risk_is_escalated {Remote : Type}
    (provider : Remote -> PullRequest -> option Schema.AIRiskAnalysis * Remote)
    (fuel : nat) (prs : list PullRequest) (pr : PullRequest) (apiKey : string)
    (t : float) (w : AiRisk.World Remote) :
  (length prs < fuel)%nat ->
  In pr prs ->
  0 <= additions pr + deletions pr -> 0 <= changedFiles pr ->
  (t <=? Risk.calculateRisk pr)%float = true ->
  exists out asked,
    AiRisk.hybridRiskAnalysis provider fuel prs apiKey (Some t) w = Some out
    /\ In pr (concat (AiRisk.batches out))
    /\ AiRisk.calls (AiRisk.trace (AiRisk.world out))
       = AiRisk.calls (AiRisk.trace w) ++ asked
    /\ In (number pr) asked.
Proof.
  intros Hfuel Hin Hl Hf Ht.
  destruct (hybrid_escalates provider fuel prs apiKey (Some t) w Hfuel)
    as (out & Hrun & Hbat & Hcalls).
  change (default 0.5%float (Some t)) with t in Hbat, Hcalls.
  pose proof (highRiskPRs_dominated prs pr t Hin Hl Hf Ht) as Hsel.
  exists out, (map number (AiRisk.highRiskPRs prs t)).
  split; [exact Hrun|]. split; [|split; [exact Hcalls|]].
  - rewrite Hbat. exact Hsel.
  - apply in_map, Hsel.
Qed.

Lemma displayed_risk_is_escalated_witness :
  let pr := mkPR 9 600 400 10 ["SRC/Feature.Test.ts"%string] 1 in
  exists out asked,
    AiRisk.hybridRiskAnalysis (flaky []) 2 [pr] "k" (Some 0.35%float) world0 = Some out
    /\ In pr (concat (AiRisk.batches out))
    /\ AiRisk.calls (AiRisk.trace (AiRisk.world out))
       = AiRisk.calls (AiRisk.trace world0) ++ asked
    /\ In (number pr) asked.
Proof.
  cbn zeta. apply displayed_risk_is_escalated;
    [cbn; lia | left; reflexivity | cbn; lia | cbn; lia | reflexivity].
Defined.

Lemma calculateFormulaRisk_max (pr : PullRequest) :
  0 <= additions pr + deletions pr -> 0 <= changedFiles pr ->
  (AiRisk.calculateFormulaRisk pr <=? Check.top_score)%float = true.
Proof.
  intros Hl Hf. rewrite calculateFormulaRisk_capped.
  apply (over_inputs_spec _ all_scores_below_one); lia.
Qed.

(** X3. A threshold of 1 or more switches the escalation off: no pull
    request with non-negative counters reaches 1.0 under the filter's
    scorer (the largest score is 0.9999999999999999), so the subset handed
    to the escalation is empty. *)
Theorem threshold_one_selects_nothing (prs : list PullRequest) (t : float) :
  Forall (fun pr => 0 <= additions pr + deletions pr /\ 0 <= changedFiles pr) prs ->
  (1 <=? t)%float = true ->
  AiRisk.highRiskPRs prs t = [].
Proof.
  intros Hprs Ht. unfold AiRisk.highRiskPRs.
  induction Hprs as [|pr prs [Hl Hf] _ IH]; [reflexivity|].
  cbn [List.filter]. rewrite IH.
  assert ((AiRisk.calculateFormulaRisk pr <? t)%float = true) as Hlt.
  { apply (leb_ltb_trans _ Check.top_score); [apply calculateFormulaRisk_max; assumption|].
    apply (ltb_leb_trans _ 1%float); [reflexivity | exact Ht]. }
  rewrite (ltb_not_geb _ _ Hlt). reflexivity.
Qed.

Lemma threshold_one_selects_nothing_witness : AiRisk.highRiskPRs seven 1 = [].
Proof.
  apply threshold_one_selects_nothing; [|reflexivity].
  repeat constructor; cbn; lia.
Defined.

(** ** What the escalator logs, reports and waits for *)

Section Pacing.

Context {Remote : Type}.
Variable provider : Remote -> PullRequest -> option Schema.AIRiskAnalysis * Remote.

Implicit Types (w : AiRisk.World Remote) (prs batch : list PullRequest).

Lemma rejected_app {X} prs prs' (settled settled' : list (option X)) :
  length prs = length settled ->
  Observe.rejected (prs ++ prs') (settled ++ settled')
  = Observe.rejected prs settled ++ Observe.rejected prs' settled'.
Proof.
  revert settled. induction prs as [|pr prs IH]; intros [|[x|] settled] Hlen;
    cbn in Hlen; try lia; cbn [app Observe.rejected]; [reflexivity | |].
  - apply IH. lia.
  - rewrite IH by lia. reflexivity.
Qed.

Lemma observe_app (tr tr' : list AiRisk.Event) :
  Observe.pauses (tr ++ tr') = Observe.pauses tr ++ Observe.pauses tr'
  /\ Observe.progress (tr ++ tr') = Observe.progress tr ++ Observe.progress tr'
  /\ Observe.errors (tr ++ tr') = Observe.errors tr ++ Observe.errors tr'.
Proof. unfold Observe.pauses, Observe.progress, Observe.errors. rewrite !omap_app. auto. Qed.

Lemma observe_requests batch :
  Observe.pauses (map (fun pr => AiRisk.GenerateObject (number pr)) batch) = []
  /\ Observe.progress (map (fun pr => AiRisk.GenerateObject (number pr)) batch) = []
  /\ Observe.errors (map (fun pr => AiRisk.GenerateObject (number pr)) batch) = [].
Proof.
  induction batch as [|pr batch (IH1 & IH2 & IH3)]; [auto|].
  cbn [map]. split; [exact IH1 | split; [exact IH2 | exact IH3]].
Qed.

Lemma observe_caught (order : list Z) :
  Observe.pauses (map AiRisk.ConsoleError order) = []
  /\ Observe.progress (map AiRisk.ConsoleError order) = []
  /\ Observe.errors (map AiRisk.ConsoleError order) = order.
Proof.
  induction order as [|n order (IH1 & IH2 & IH3)]; [auto|].
  cbn [map]. split; [exact IH1 | split; [exact IH2 | exact (f_equal (cons n) IH3)]].
Qed.

Lemma promiseAll_trace apiKey batch w :
  let run := AiRisk.promiseAll provider apiKey batch w in
  Observe.pauses (AiRisk.trace run.2) = Observe.pauses (AiRisk.trace w)
  /\ Observe.progress (AiRisk.trace run.2) = Observe.progress (AiRisk.trace w)
  /\ exists order,
       order ≡ₚ Observe.rejected batch run.1
       /\ Observe.errors (AiRisk.trace run.2) = Observe.errors (AiRisk.trace w) ++ order.
Proof.
  cbn zeta.
  destruct (promiseAll_spec provider apiKey batch w)
    as (H1 & _ & _ & order & Horder & Htrace).
  rewrite Htrace.
  destruct (observe_app (AiRisk.trace w)
              (map (fun pr => AiRisk.GenerateObject (number pr)) batch
               ++ map AiRisk.ConsoleError order)) as (-> & -> & ->).
  destruct (observe_app (map (fun pr => AiRisk.GenerateObject (number pr)) batch)
              (map AiRisk.ConsoleError order)) as (-> & -> & ->).
  destruct (observe_requests batch) as (-> & -> & ->).
  destruct (observe_caught order) as (-> & -> & ->).
  rewrite !app_nil_r. split; [reflexivity|]. split; [reflexivity|].
  exists order. split; [rewrite H1; exact Horder | reflexivity].
Qed.

Lemma groups_cons {A} size (g rest : list A) :
  (1 <= size)%nat -> g <> [] ->
  length g = size \/ ((length g <= size)%nat /\ rest = []) ->
  Spec.groups size (g ++ rest) = g :: Spec.groups size rest.
Proof.
  intros Hs Hg Hlen.
  rewrite groups_step; [|assumption|destruct g; [congruence | discriminate]].
  destruct Hlen as [<- | [Hlen ->]].
  - rewrite take_app_length, drop_app_length. reflexivity.
  - rewrite app_nil_r, take_ge, drop_ge by lia. reflexivity.
Qed.

Lemma rejectedByGroup_concat {X} size prs (settled : list (option X)) :
  (1 <= size)%nat -> length prs = length settled ->
  concat (Observe.rejectedByGroup size prs settled) = Observe.rejected prs settled.
Proof.
  intros Hs. revert settled. pattern prs. revert prs.
  apply (groups_ind size); [assumption | | intros prs Hne IH]; intros settled Hlen.
  - destruct settled; [reflexivity | discriminate].
  - assert (settled <> []) as Hne'
      by (destruct prs, settled; cbn in Hlen; congruence).
    unfold Observe.rejectedByGroup.
    rewrite (groups_step size prs), (groups_step size settled) by assumption.
    cbn [zip_with concat].
    change (zip_with Observe.rejected ?a ?b)
      with (Observe.rejectedByGroup size (drop size prs) (drop size settled)).
    rewrite IH by (rewrite !length_drop; lia).
    rewrite <- rejected_app by (rewrite !length_take; lia).
    rewrite !take_drop. reflexivity.
Qed.

Lemma concat_Permutation {A} (ls ls' : list (list A)) :
  Forall2 Permutation ls ls' -> concat ls ≡ₚ concat ls'.
Proof.
  induction 1 as [|l l' ls ls' Hl _ IH]; [reflexivity|].
  cbn [concat]. rewrite Hl, IH. reflexivity.
Qed.

Lemma groups_length_pos {A} size (l : list A) :
  (1 <= size)%nat -> l <> [] -> (1 <= length (Spec.groups size l))%nat.
Proof. intros Hs Hl. rewrite groups_step by assumption. cbn. lia. Qed.

Lemma batchLoop_trace fuel prs apiKey (concurrent : Z) (onProgress : bool)
    (i : Z) (acc out : AiRisk.Outcome Remote) :
  1 <= concurrent -> 0 <= i ->
  AiRisk.batchLoop provider fuel prs apiKey concurrent onProgress i acc = Some out ->
  let rest := drop (Z.to_nat i) prs in
  let n := Z.of_nat (length prs) in
  let settled := (Spec.individually provider (AiRisk.remote (AiRisk.world acc)) rest).1 in
  let count := length (Spec.groups (Z.to_nat concurrent) rest) in
  Observe.pauses (AiRisk.trace (AiRisk.world out))
  = Observe.pauses (AiRisk.trace (AiRisk.world acc)) ++ repeat 500 (count - 1)
  /\ (exists logged,
        Forall2 Permutation logged
          (Observe.rejectedByGroup (Z.to_nat concurrent) rest settled)
        /\ Observe.errors (AiRisk.trace (AiRisk.world out))
           = Observe.errors (AiRisk.trace (AiRisk.world acc)) ++ concat logged)
  /\ Observe.progress (AiRisk.trace (AiRisk.world out))
     = Observe.progress (AiRisk.trace (AiRisk.world acc))
       ++ (if onProgress
           then map (fun k => (Z.min (i + (Z.of_nat k + 1) * concurrent) n, n))
                  (seq 0 count)
           else []).
Proof.
  intros Hc. cbn zeta. revert i acc.
  induction fuel as [|fuel IH]; intros i acc Hi Hrun; [discriminate|].
  cbn [AiRisk.batchLoop] in Hrun.
  destruct (Z.ltb_spec i (Z.of_nat (length prs))) as [Hlt | Hge].
  - rewrite slice_window in Hrun by lia.
    set (rest := drop (Z.to_nat i) prs) in *.
    set (batch := take (Z.to_nat concurrent) rest) in *.
    destruct (promiseAll_individually provider apiKey batch (AiRisk.world acc))
      as (H1 & H2 & _).
    destruct (promiseAll_trace apiKey batch (AiRisk.world acc))
      as (P1 & P2 & order & Horder & P3).
    destruct (AiRisk.promiseAll provider apiKey batch (AiRisk.world acc))
      as [batchResults w1].
    cbn [fst snd] in H1, H2, P1, P2, P3, Horder.
    set (tail := drop (Z.to_nat concurrent) rest).
    assert (drop (Z.to_nat (i + concurrent)) prs = tail) as Hdrop.
    { unfold tail, rest. rewrite drop_drop. f_equal. lia. }
    assert (rest <> []) as Hne.
    { intros E. apply (f_equal length) in E. unfold rest in E.
      rewrite length_drop in E. cbn in E. lia. }
    assert (length tail = Z.to_nat (Z.of_nat (length prs) - (i + concurrent))) as Htail.
    { unfold tail, rest. rewrite !length_drop. lia. }
    set (w3 := if i + concurrent <? Z.of_nat (length prs) then _ else _) in Hrun.
    assert (AiRisk.remote w3 = AiRisk.remote w1) as Hsame
      by (unfold w3; destruct (i + concurrent <? _), onProgress; reflexivity).
    assert (Observe.errors (AiRisk.trace w3) = Observe.errors (AiRisk.trace w1)) as E3.
    { unfold w3. destruct (i + concurrent <? _), onProgress;
        cbn [AiRisk.emit AiRisk.trace]; unfold Observe.errors;
        rewrite ?omap_app; cbn; rewrite ?app_nil_r; reflexivity. }
    assert (Observe.pauses (AiRisk.trace w3)
            = Observe.pauses (AiRisk.trace w1)
              ++ (if i + concurrent <? Z.of_nat (length prs) then [500] else [])) as E1.
    { unfold w3. destruct (i + concurrent <? _), onProgress;
        cbn [AiRisk.emit AiRisk.trace]; unfold Observe.pauses;
        rewrite ?omap_app; cbn; rewrite ?app_nil_r; reflexivity. }
    assert (Observe.progress (AiRisk.trace w3)
            = Observe.progress (AiRisk.trace w1)
              ++ (if onProgress
                  then [(Z.min (i + concurrent) (Z.of_nat (length prs)),
                         Z.of_nat (length prs))]
                  else [])) as E2.
    { unfold w3. destruct (i + concurrent <? _), onProgress;
        cbn [AiRisk.emit AiRisk.trace]; unfold Observe.progress;
        rewrite ?omap_app; cbn; rewrite ?app_nil_r; reflexivity. }
    clearbody w3.
    apply IH in Hrun as (Q1 & (logged & Hlogged & Q2) & Q3); [|lia].
    cbn [AiRisk.world] in Q1, Q2, Q3, Hlogged.
    rewrite Hdrop in Q1, Q3, Hlogged. rewrite Hsame, H2 in Hlogged.
    assert (batch ++ tail = rest) as Hsplit by apply take_drop.
    pose proof (individually_app provider (AiRisk.remote (AiRisk.world acc)) batch tail)
      as Happ.
    rewrite Hsplit in Happ.
    pose proof (individually_length provider (AiRisk.remote (AiRisk.world acc)) batch)
      as Hlen.
    destruct (Spec.individually provider (AiRisk.remote (AiRisk.world acc)) batch)
      as [rs s1].
    cbn [fst snd] in *. subst batchResults.
    pose proof (individually_length provider s1 tail) as Hlen'.
    destruct (Spec.individually provider s1 tail) as [rs' s2]. cbn [fst snd] in *.
    rewrite Happ. cbn [fst].
    assert (batch <> []) as Hbatch.
    { intros E. apply (f_equal length) in E. unfold batch in E.
      rewrite length_take in E. cbn in E.
      assert (length rest <> 0)%nat by (destruct rest; [congruence | cbn; lia]). lia. }
    assert (Spec.groups (Z.to_nat concurrent) rest
            = batch :: Spec.groups (Z.to_nat concurrent) tail) as Hgroups
      by (apply groups_step; assumption || lia).
    assert (Spec.groups (Z.to_nat concurrent) (rs ++ rs')
            = rs :: Spec.groups (Z.to_nat concurrent) rs') as Hsettled.
    { apply groups_cons; [lia | destruct batch, rs; cbn in Hlen; congruence |].
      rewrite Hlen. unfold batch. rewrite length_take.
      destruct (le_lt_dec (Z.to_nat concurrent) (length rest)) as [Hle | Hgt];
        [left; lia | right].
      split; [lia|]. apply length_zero_iff_nil. rewrite Hlen'.
      unfold tail. rewrite length_drop. lia. }
    rewrite Hgroups. split; [|split].
    + cbn [length]. rewrite Nat.sub_succ, Nat.sub_0_r.
      rewrite Q1, E1, P1, <- app_assoc. f_equal.
      destruct (Z.ltb_spec (i + concurrent) (Z.of_nat (length prs))).
      * assert (tail <> []) as Ht
          by (intros E; rewrite E in Htail; cbn in Htail; lia).
        pose proof (groups_length_pos (Z.to_nat concurrent) tail ltac:(lia) Ht).
        destruct (length (Spec.groups (Z.to_nat concurrent) tail)) as [|m]; [lia|].
        cbn. rewrite Nat.sub_0_r. reflexivity.
      * assert (tail = []) as -> by (apply length_zero_iff_nil; lia).
        reflexivity.
    + exists (order :: logged). split.
      * unfold Observe.rejectedByGroup. rewrite Hgroups, Hsettled.
        cbn [zip_with]. constructor; [exact Horder | exact Hlogged].
      * rewrite Q2, E3, P3. cbn [concat]. rewrite <- app_assoc. reflexivity.
    + rewrite Q3, E2, P2, <- app_assoc. f_equal. destruct onProgress; [|reflexivity].
      cbn [length seq map app]. f_equal; [do 2 f_equal; lia|].
      rewrite <- seq_shift, map_map. apply map_ext. intros k.
      do 2 f_equal. lia.
  - injection Hrun as <-. rewrite drop_ge by lia. cbn.
    split; [rewrite app_nil_r; reflexivity|]. split.
    + exists []. split; [constructor | cbn; rewrite app_nil_r; reflexivity].
    + destruct onProgress; rewrite !app_nil_r; reflexivity.
Qed.

End Pacing.

Section PacingTheorems.

Context {Remote : Type}.
Variable provider : Remote -> PullRequest -> option Schema.AIRiskAnalysis * Remote.

Implicit Types (w : AiRisk.World Remote) (prs : list PullRequest).

Lemma batchAnalyze_trace fuel prs apiKey (options : AiRisk.Options) w :
  let c := default 3 (AiRisk.concurrent options) in
  1 <= c -> (length prs < fuel)%nat ->
  exists out,
    AiRisk.batchAnalyzeRisksWithAI provider fuel prs apiKey options w = Some out
    /\ AiRisk.batches out = Spec.groups (Z.to_nat c) prs
    /\ Observe.pauses (AiRisk.trace (AiRisk.world out))
       = Observe.pauses (AiRisk.trace w) ++ repeat 500 (length (AiRisk.batches out) - 1)
    /\ (exists logged,
          Forall2 Permutation logged
            (Observe.rejectedByGroup (Z.to_nat c) prs
               (Spec.individually provider (AiRisk.remote w) prs).1)
          /\ Observe.errors (AiRisk.trace (AiRisk.world out))
             = Observe.errors (AiRisk.trace w) ++ concat logged)
    /\ Observe.progress (AiRisk.trace (AiRisk.world out))
       = Observe.progress (AiRisk.trace w)
         ++ (if AiRisk.onProgress options
             then map (Observe.report c (Z.of_nat (length prs)))
                    (seq 0 (length (AiRisk.batches out)))
             else []).
Proof.
  cbn zeta. intros Hc Hfuel.
  destruct (batchAnalyze_spec provider fuel prs apiKey options w Hc Hfuel)
    as (out & Hrun & _ & Hbat & _).
  exists out. split; [exact Hrun|]. split; [exact Hbat|].
  unfold AiRisk.batchAnalyzeRisksWithAI in Hrun.
  apply batchLoop_trace in Hrun as (Q1 & Q2 & Q3); [|assumption|lia].
  cbn [AiRisk.world Z.to_nat drop] in Q1, Q2, Q3. rewrite Hbat.
  split; [exact Q1|]. split; [exact Q2|]. rewrite Q3.
  destruct (AiRisk.onProgress options); reflexivity.
Qed.


(** X5. Every rejected call is logged once with the number of its pull
    request, and nothing else is logged as an error. The rejections of a
    group are logged before the next group starts, in the order in which
    the calls of the group settle, which is not the program's to choose:
    the errors added to the trace are, group after group, some arrangement
    of the numbers of the records of the group whose call failed. *)
Theorem rejections_are_logged fuel prs apiKey (options : AiRisk.Options) w :
  let c := default 3 (AiRisk.concurrent options) in
  let settled := (Spec.individually provider (AiRisk.remote w) prs).1 in
  1 <= c -> (length prs < fuel)%nat ->
  exists out logged,
    AiRisk.batchAnalyzeRisksWithAI provider fuel prs apiKey options w = Some out
    /\ Observe.errors (AiRisk.trace (AiRisk.world out))
       = Observe.errors (AiRisk.trace w) ++ concat logged
    /\ Forall2 Permutation logged (Observe.rejectedByGroup (Z.to_nat c) prs settled)
    /\ concat logged ≡ₚ Observe.rejected prs settled.
Proof.
  cbn zeta. intros Hc Hfuel.
  destruct (batchAnalyze_trace fuel prs apiKey options w Hc Hfuel)
    as (out & Hrun & _ & _ & (logged & Hlogged & He) & _).
  exists out, logged. split; [exact Hrun|]. split; [exact He|].
  split; [exact Hlogged|].
  rewrite (concat_Permutation _ _ Hlogged).
  rewrite rejectedByGroup_concat; [reflexivity | lia |].
  symmetry. apply individually_length.
Qed.

(** X6. Progress is reported once per group, in group order, as (records
    done so far, total): the k-th report is (min((k+1)*concurrent, n), n),
    so the counts never decrease and the last report of a non-empty run
    is (n, n). Without a callback nothing is reported. *)
Theorem progress_reports fuel prs apiKey (options : AiRisk.Options) w :
  let c := default 3 (AiRisk.concurrent options) in
  let n := Z.of_nat (length prs) in
  1 <= c -> (length prs < fuel)%nat ->
  exists out,
    AiRisk.batchAnalyzeRisksWithAI provider fuel prs apiKey options w = Some out
    /\ Observe.progress (AiRisk.trace (AiRisk.world out))
       = Observe.progress (AiRisk.trace w)
         ++ (if AiRisk.onProgress options
             then map (Observe.report c n) (seq 0 (length (AiRisk.batches out)))
             else [])
    /\ (forall j k, (j <= k)%nat ->
          (Observe.report c n j).1 <= (Observe.report c n k).1)
    /\ (prs <> [] ->
          Observe.report c n (length (AiRisk.batches out) - 1) = (n, n)).
Proof.
  cbn zeta. intros Hc Hfuel.
  destruct (batchAnalyze_trace fuel prs apiKey options w Hc Hfuel)
    as (out & Hrun & Hbat & _ & _ & Hp).
  exists out. split; [exact Hrun|]. split; [exact Hp|]. split.
  - intros j k Hjk. unfold Observe.report. cbn [fst]. nia.
  - intros Hne. unfold Observe.report. f_equal.
    assert (Z.of_nat (length (AiRisk.batches out))
            = (Z.of_nat (length prs) + default 3 (AiRisk.concurrent options) - 1)
              / default 3 (AiRisk.concurrent options)) as Hcount.
    { rewrite Hbat, groups_length by lia. rewrite Z2Nat.id by lia. reflexivity. }
    assert (1 <= length (AiRisk.batches out))%nat as Hpos.
    { rewrite Hbat. apply groups_length_pos; [lia | assumption]. }
    rewrite Nat2Z.inj_sub by lia.
    replace (Z.of_nat (length (AiRisk.batches out)) - Z.of_nat 1 + 1)
      with (Z.of_nat (length (AiRisk.batches out))) by lia.
    rewrite Hcount. apply Z.min_r.
    set (c := default 3 (AiRisk.concurrent options)) in *.
    set (n := Z.of_nat (length prs)) in *.
    pose proof (Z.div_mod (n + c - 1) c ltac:(lia)) as Hdm.
    pose proof (Z.mod_pos_bound (n + c - 1) c ltac:(lia)) as Hmod.
    nia.
Qed.

End PacingTheorems.


Lemma rejections_are_logged_witness :
  exists out logged,
    AiRisk.batchAnalyzeRisksWithAI (flaky [4; 6]) 8 seven "k" AiRisk.noOptions lastFirst
    = Some out
    /\ Observe.errors (AiRisk.trace (AiRisk.world out))
       = Observe.errors (AiRisk.trace lastFirst) ++ concat logged
    /\ Forall2 Permutation logged
         (Observe.rejectedByGroup 3 seven (Spec.individually (flaky [4; 6]) tt seven).1)
    /\ concat logged
       ≡ₚ Observe.rejected seven (Spec.individually (flaky [4; 6]) tt seven).1.
Proof.
  apply (rejections_are_logged (flaky [4; 6]) 8 seven "k" AiRisk.noOptions lastFirst);
    cbn; lia.
Defined.

(** Two rejections in one group, the later request rejected first: the
    errors are logged after the three requests of the group, 6 before 4. *)
Example rejections_in_settle_order :
  option_map (fun out => AiRisk.trace (AiRisk.world out))
    (AiRisk.batchAnalyzeRisksWithAI (flaky [4; 6]) 8 seven "k" AiRisk.noOptions lastFirst)
  = Some [AiRisk.GenerateObject 1; AiRisk.GenerateObject 2; AiRisk.GenerateObject 3;
          AiRisk.SetTimeout 500;
          AiRisk.GenerateObject 4; AiRisk.GenerateObject 5; AiRisk.GenerateObject 6;
          AiRisk.ConsoleError 6; AiRisk.ConsoleError 4;
          AiRisk.SetTimeout 500;
          AiRisk.GenerateObject 7]
  /\ Observe.rejected seven (Spec.individually (flaky [4; 6]) tt seven).1 = [4; 6].
Proof. split; vm_compute; reflexivity. Qed.

Lemma progress_reports_witness :
  exists out,
    AiRisk.batchAnalyzeRisksWithAI (flaky [4]) 8 seven "k"
      {| AiRisk.concurrent := Some 2; AiRisk.onProgress := true |} world0 = Some out
    /\ Observe.progress (AiRisk.trace (AiRisk.world out))
       = Observe.progress (AiRisk.trace world0)
         ++ map (Observe.report 2 7) (seq 0 (length (AiRisk.batches out)))
    /\ (forall j k, (j <= k)%nat ->
          (Observe.report 2 7 j).1 <= (Observe.report 2 7 k).1)
    /\ (seven <> [] ->
          Observe.report 2 7 (length (AiRisk.batches out) - 1) = (7, 7)).
Proof.
  apply (progress_reports (flaky [4]) 8 seven "k"
           {| AiRisk.concurrent := Some 2; AiRisk.onProgress := true |} world0);
    cbn; lia.
Defined.

(** ** More on the pipeline *)

Lemma NoDup_map_filter {A B} (f : A -> B) (p : A -> bool) (l : list A) :
  NoDup (map f l) -> NoDup (map f (List.filter p l)).
Proof.
  induction l as [|x l IH]; cbn [map List.filter]; [auto|].
  intros Hnd. apply NoDup_cons in Hnd as [Hx Hnd].
  destruct (p x); [|auto]. cbn [map]. apply NoDup_cons. split; [|auto].
  intros Hin. apply Hx. apply list_elem_of_In in Hin. apply list_elem_of_In.
  apply in_map_iff in Hin as (y & <- & Hy). apply filter_In in Hy as [Hy _].
  apply in_map. exact Hy.
Qed.

Lemma calculateFormulaRisk_with_riskScore (pr : PullRequest) (r : option float) :
  AiRisk.calculateFormulaRisk (Risk.with_riskScore pr r) = AiRisk.calculateFormulaRisk pr.
Proof. reflexivity. Qed.

Lemma calculateRisk_with_riskScore (pr : PullRequest) (r : option float) :
  Risk.calculateRisk (Risk.with_riskScore pr r) = Risk.calculateRisk pr.
Proof. reflexivity. Qed.

Section PipelineMore.

Context {Remote : Type}.
Variable provider : Remote -> PullRequest -> option Schema.AIRiskAnalysis * Remote.

Implicit Types (w : AiRisk.World Remote) (prs : list PullRequest).

(** X7. A pull request under the threshold is out of the provider's reach:
    for pull requests with distinct numbers, one whose filter score is
    strictly below the threshold in force (the given one, or 0.5) is never
    sent to the provider and comes out of the AI-enabled pipeline with its
    formula score and nothing else changed, whatever the provider answers
    for the others. *)
Theorem below_threshold_untouched fuel prs apiKey (aiRiskThreshold : option float)
    w i pr :
  (length prs < fuel)%nat ->
  NoDup (map number prs) ->
  prs !! i = Some pr ->
  (AiRisk.calculateFormulaRisk pr <? JS.or_default aiRiskThreshold 0.5)%float = true ->
  exists out w' asked,
    Digest.analyzeRisks provider fuel prs apiKey true aiRiskThreshold w = Some (out, w')
    /\ out !! i = Some (Risk.with_riskScore pr (Some (Risk.calculateRisk pr)))
    /\ AiRisk.calls (AiRisk.trace w') = AiRisk.calls (AiRisk.trace w) ++ asked
    /\ ~ In (number pr) asked.
Proof.
  intros Hfuel Hnd Hi Hlow. unfold Digest.analyzeRisks.
  set (t := JS.or_default aiRiskThreshold 0.5) in *.
  set (scored := Risk.calculateRiskForPRs prs).
  assert (map number scored = map number prs) as Hnum.
  { unfold scored, Risk.calculateRiskForPRs. rewrite map_map. reflexivity. }
  destruct (hybrid_spec provider fuel scored apiKey (Some t) w)
    as (esc & Hrun & Hres & _ & Hcalls).
  { unfold scored, Risk.calculateRiskForPRs. rewrite length_map. exact Hfuel. }
  change (default 0.5%float (Some t)) with t in Hres, Hcalls.
  set (selected := AiRisk.highRiskPRs scored t) in *.
  assert (NoDup (map number selected)) as Hsel.
  { unfold selected, AiRisk.highRiskPRs. apply NoDup_map_filter. rewrite Hnum. exact Hnd. }
  assert (~ In (number pr) (map number selected)) as Hout.
  { intros Hin. apply in_map_iff in Hin as (q & Hq & Hqin).
    unfold selected, AiRisk.highRiskPRs in Hqin. apply filter_In in Hqin as [Hqin Hpass].
    unfold scored, Risk.calculateRiskForPRs in Hqin.
    apply in_map_iff in Hqin as (q0 & <- & Hq0).
    cbn [number Risk.with_riskScore] in Hq.
    assert (q0 = pr) as ->.
    { apply list_elem_of_In, list_elem_of_lookup in Hq0 as [j Hj].
      assert (map number prs !! j = Some (number q0)) as Hj'
        by (rewrite lookup_map, Hj; reflexivity).
      assert (map number prs !! i = Some (number pr)) as Hi'
        by (rewrite lookup_map, Hi; reflexivity).
      rewrite Hq in Hj'.
      pose proof (NoDup_lookup _ _ _ _ Hnd Hj' Hi') as ->. congruence. }
    rewrite calculateFormulaRisk_with_riskScore, (ltb_not_geb _ _ Hlow) in Hpass.
    discriminate. }
  rewrite Hrun. eexists _, _, (map number selected).
  split; [reflexivity|]. split; [|split; [exact Hcalls | exact Hout]].
  unfold Digest.merge. fold scored.
  unfold scored at 1. unfold Risk.calculateRiskForPRs.
  rewrite !lookup_map, Hi. cbn [fmap option_fmap option_map]. f_equal.
  unfold Digest.mergeOne. cbn [number Risk.with_riskScore].
  destruct (storeAll_individually provider (AiRisk.remote w) selected ∅ Hsel)
    as (Hkeep & _).
  rewrite Hres, (Hkeep _ Hout), lookup_empty. reflexivity.
Qed.

(** X8. A threshold of 0 cannot be chosen: the command reads the option
    with [props.aiRiskThreshold || 0.5], so a threshold of 0 (or -0, or
    NaN) gives the very run that no threshold gives, with 0.5 in force. *)
Theorem zero_threshold_is_default fuel prs apiKey (aiRisk : bool) (t : float) w :
  (t =? 0)%float = true \/ (t =? t)%float = false ->
  Digest.analyzeRisks provider fuel prs apiKey aiRisk (Some t) w
  = Digest.analyzeRisks provider fuel prs apiKey aiRisk None w.
Proof.
  intros Ht. unfold Digest.analyzeRisks.
  replace (JS.or_default (Some t) 0.5) with (JS.or_default None 0.5); [reflexivity|].
  unfold JS.or_default. destruct Ht as [-> | ->]; [reflexivity|].
  rewrite orb_true_r. reflexivity.
Qed.

End PipelineMore.

Lemma below_threshold_untouched_witness :
  let prs := [mkPR 1 1500 500 20 ["src/feature.ts"%string] 73;
              mkPR 2 10 0 1 ["src/a.test.ts"%string] 1] in
  exists out w' asked,
    Digest.analyzeRisks (flaky []) 8 prs "k" true None world0 = Some (out, w')
    /\ out !! 1%nat
       = Some (Risk.with_riskScore (mkPR 2 10 0 1 ["src/a.test.ts"%string] 1)
                 (Some (Risk.calculateRisk (mkPR 2 10 0 1 ["src/a.test.ts"%string] 1))))
    /\ AiRisk.calls (AiRisk.trace w') = AiRisk.calls (AiRisk.trace world0) ++ asked
    /\ ~ In (number (mkPR 2 10 0 1 ["src/a.test.ts"%string] 1)) asked.
Proof.
  cbn zeta.
  apply (below_threshold_untouched (flaky []) 8 _ "k" None world0 1).
  - cbn. lia.
  - apply (bool_decide_unpack _). vm_compute. exact I.
  - reflexivity.
  - reflexivity.
Defined.

Lemma zero_threshold_is_default_witness :
  Digest.analyzeRisks (flaky []) 8 seven "k" true (Some 0%float) world0
  = Digest.analyzeRisks (flaky []) 8 seven "k" true None world0.
Proof. apply zero_threshold_is_default. left. reflexivity. Defined.

(** ** Flagging risky pull requests *)

Lemma or_default_keeps_scores :
  Check.over_inputs (fun l f nt sm =>
    PrimFloat.Leibniz.eqb
      (JS.or_default (Some (Check.capped_score l f nt sm)) 0)
      (Check.capped_score l f nt sm)) = true.
Proof. vm_compute. reflexivity. Qed.

Lemma or_default_calculateRisk (pr : PullRequest) :
  0 <= additions pr + deletions pr -> 0 <= changedFiles pr ->
  JS.or_default (Some (Risk.calculateRisk pr)) 0 = Risk.calculateRisk pr.
Proof.
  intros Hl Hf. rewrite calculateRisk_capped.
  apply FloatAxioms.Leibniz.eqb_spec.
  apply (over_inputs_spec _ or_default_keeps_scores); lia.
Qed.

(** X9. Scoring then flagging selects by the formula score itself: for
    pull requests with non-negative counters, [getRiskyPRs] applied to the
    output of [calculateRiskForPRs] keeps, in order, exactly the pull
    requests whose [calculateRisk] score is at least the threshold (0.5
    when none is given); the [|| 0] fallback never alters a computed
    score. *)
Theorem risky_after_scoring (prs : list PullRequest) (threshold : option float) :
  Forall (fun pr => 0 <= additions pr + deletions pr /\ 0 <= changedFiles pr) prs ->
  Risk.getRiskyPRs (Risk.calculateRiskForPRs prs) threshold
  = Risk.calculateRiskForPRs
      (List.filter
         (fun pr => (default 0.5 threshold <=? Risk.calculateRisk pr)%float) prs).
Proof.
  intros Hprs. unfold Risk.getRiskyPRs, Risk.calculateRiskForPRs.
  induction Hprs as [|pr prs [Hl Hf] _ IH]; [reflexivity|].
  cbn [map List.filter]. cbn [riskScore Risk.with_riskScore].
  rewrite (or_default_calculateRisk pr Hl Hf), IH.
  destruct (default 0.5 threshold <=? Risk.calculateRisk pr)%float; reflexivity.
Qed.

Lemma risky_after_scoring_witness :
  Risk.getRiskyPRs (Risk.calculateRiskForPRs seven) None
  = Risk.calculateRiskForPRs
      (List.filter (fun pr => (default 0.5 None <=? Risk.calculateRisk pr)%float) seven).
Proof.
  apply risky_after_scoring. repeat constructor; cbn; lia.
Defined.

(** X10. A pull request without a score is never flagged under the
    default threshold: [(pr.riskScore || 0) >= 0.5] reads the missing
    score as 0. *)
Theorem unscored_not_flagged (prs : list PullRequest) (pr : PullRequest) :
  In pr (Risk.getRiskyPRs prs None) -> riskScore pr <> None.
Proof.
  intros Hin Hnone. unfold Risk.getRiskyPRs in Hin.
  apply filter_In in Hin as [_ Hpass]. rewrite Hnone in Hpass.
  vm_compute in Hpass. discriminate.
Qed.

Lemma unscored_not_flagged_witness :
  riskScore (Risk.with_riskScore (mkPR 1 1500 500 20 [] 73) (Some 0.9%float)) <> None.
Proof.
  apply (unscored_not_flagged
           [Risk.with_riskScore (mkPR 1 1500 500 20 [] 73) (Some 0.9%float)]).
  left. reflexivity.
Defined.

(** Scoring twice is scoring once: [calculateRisk] does not read the score
    a record already carries. *)
Lemma rescoring_idempotent (prs : list PullRequest) :
  Risk.calculateRiskForPRs (Risk.calculateRiskForPRs prs)
  = Risk.calculateRiskForPRs prs.
Proof.
  unfold Risk.calculateRiskForPRs. rewrite map_map. apply map_ext.
  intros pr. reflexivity.
Qed.

(** ** Grouping by label *)

Section MapFacts.

Context {V : Type}.
Implicit Types (m : list (string * V)) (k : string) (v : V).

Lemma get_set_eq m k v : JSMap.get (JSMap.set m k v) k = Some v.
Proof.
  induction m as [|[k' v'] m IH]; cbn.
  - rewrite String.eqb_refl. reflexivity.
  - destruct (String.eqb k' k) eqn:E; cbn; rewrite E; auto.
Qed.

Lemma get_set_ne m k k' v : k <> k' -> JSMap.get (JSMap.set m k v) k' = JSMap.get m k'.
Proof.
  intros Hne. induction m as [|[k0 v0] m IH]; cbn.
  - destruct (String.eqb_spec k k'); [congruence | reflexivity].
  - destruct (String.eqb_spec k0 k) as [-> | Hk]; cbn.
    + destruct (String.eqb_spec k k'); [congruence | reflexivity].
    + rewrite IH. reflexivity.
Qed.

Lemma get_Some_In m k v : JSMap.get m k = Some v -> In (k, v) m.
Proof.
  induction m as [|[k' v'] m IH]; cbn; [discriminate|].
  destruct (String.eqb_spec k' k) as [-> | Hk].
  - intros [= ->]. auto.
  - auto.
Qed.

Lemma get_None_keys m k : JSMap.get m k = None <-> ~ In k (JSMap.keys m).
Proof.
  induction m as [|[k' v'] m IH]; cbn; [tauto|].
  destruct (String.eqb_spec k' k) as [-> | Hk].
  - split; [discriminate | tauto].
  - rewrite IH. tauto.
Qed.

Lemma In_get m k v : NoDup (JSMap.keys m) -> In (k, v) m -> JSMap.get m k = Some v.
Proof.
  induction m as [|[k' v'] m IH]; cbn; [tauto|].
  intros Hnd. apply NoDup_cons in Hnd as [Hk' Hnd].
  rewrite list_elem_of_In in Hk'.
  intros [[= -> ->] | Hin]; [rewrite String.eqb_refl; reflexivity|].
  destruct (String.eqb_spec k' k) as [-> | Hk]; [|auto].
  exfalso. apply Hk'. apply (in_map fst) in Hin. exact Hin.
Qed.

Lemma keys_set m k v :
  JSMap.keys (JSMap.set m k v)
  = match JSMap.get m k with Some _ => JSMap.keys m | None => JSMap.keys m ++ [k] end.
Proof.
  induction m as [|[k' v'] m IH]; cbn; [reflexivity|].
  destruct (String.eqb_spec k' k) as [-> | Hk]; cbn; [reflexivity|].
  unfold JSMap.keys in IH. rewrite IH. destruct (JSMap.get m k); reflexivity.
Qed.

Lemma NoDup_keys_set m k v :
  NoDup (JSMap.keys m) -> NoDup (JSMap.keys (JSMap.set m k v)).
Proof.
  intros Hnd. rewrite keys_set. destruct (JSMap.get m k) eqn:E; [assumption|].
  apply NoDup_app. split; [assumption|]. split.
  - intros x Hx Hx'. apply list_elem_of_In in Hx. apply list_elem_of_In in Hx'.
    destruct Hx' as [<- | []]. apply get_None_keys in E. tauto.
  - apply NoDup_singleton.
Qed.

End MapFacts.

Section GroupingFacts.

Implicit Types (g : list (string * list PullRequest)) (pr : PullRequest)
  (prs : list PullRequest) (label : string).

(** The group of a label, empty when the label is no key, and the two
    invariants of the loop. *)
#[local] Abbreviation group g label := (default [] (JSMap.get g label)).
#[local] Abbreviation no_empty_group := Grouping.no_empty_group.

Lemma push_group g label pr label' :
  group (Grouping.push g label pr) label'
  = group g label' ++ (if String.eqb label label' then [pr] else []).
Proof.
  unfold Grouping.push. destruct (String.eqb_spec label label') as [<- | Hne].
  - rewrite get_set_eq. reflexivity.
  - rewrite get_set_ne by assumption. rewrite app_nil_r. reflexivity.
Qed.

Lemma push_invariants g label pr :
  NoDup (JSMap.keys g) -> no_empty_group g ->
  NoDup (JSMap.keys (Grouping.push g label pr))
  /\ no_empty_group (Grouping.push g label pr).
Proof.
  intros Hnd Hne. split; [apply NoDup_keys_set, Hnd|].
  intros label'. unfold Grouping.push.
  destruct (String.eqb_spec label label') as [<- | Hd].
  - rewrite get_set_eq. intros [= H]. destruct (default [] _); discriminate.
  - rewrite get_set_ne by assumption. apply Hne.
Qed.

Lemma groupOne_group g pr label :
  group (Grouping.groupOne g pr) label = group g label ++ Grouping.entries label pr.
Proof.
  unfold Grouping.groupOne, Grouping.entries.
  destruct (labels pr) as [|l ls] eqn:E; cbn [length Nat.eqb]; [apply push_group|].
  clear E. generalize (l :: ls) as all. clear l ls. intros all. revert g.
  induction all as [|l ls IH]; intros g; cbn [foldl List.filter map].
  - rewrite app_nil_r. reflexivity.
  - rewrite IH, push_group, <- app_assoc. f_equal.
    destruct (String.eqb l label); reflexivity.
Qed.

Lemma groupOne_invariants g pr :
  NoDup (JSMap.keys g) -> no_empty_group g ->
  NoDup (JSMap.keys (Grouping.groupOne g pr)) /\ no_empty_group (Grouping.groupOne g pr).
Proof.
  unfold Grouping.groupOne. intros Hnd Hne.
  destruct (length (labels pr) =? 0)%nat; [apply push_invariants; assumption|].
  revert g Hnd Hne. induction (labels pr) as [|l ls IH]; intros g Hnd Hne; cbn [foldl].
  - auto.
  - destruct (push_invariants g l pr Hnd Hne). apply IH; assumption.
Qed.

Lemma foldl_groupOne g prs label :
  NoDup (JSMap.keys g) -> no_empty_group g ->
  group (foldl Grouping.groupOne g prs) label = group g label ++ Grouping.members label prs
  /\ NoDup (JSMap.keys (foldl Grouping.groupOne g prs))
  /\ no_empty_group (foldl Grouping.groupOne g prs).
Proof.
  revert g. induction prs as [|pr prs IH]; intros g Hnd Hne; cbn [foldl].
  - unfold Grouping.members. cbn. rewrite app_nil_r. auto.
  - destruct (groupOne_invariants g pr Hnd Hne) as [Hnd' Hne'].
    destruct (IH _ Hnd' Hne') as (Hg & Hk & He).
    rewrite Hg, groupOne_group. unfold Grouping.members. cbn [map concat].
    rewrite <- app_assoc. auto.
Qed.

Lemma groupPRsByLabel_invariants (prs : list PullRequest) :
  NoDup (JSMap.keys (Grouping.groupPRsByLabel prs))
  /\ no_empty_group (Grouping.groupPRsByLabel prs).
Proof.
  unfold Grouping.groupPRsByLabel.
  destruct (foldl_groupOne [] prs "") as (_ & Hnd & He);
    [constructor | intros l; discriminate |].
  auto.
Qed.

Lemma group_lookup (prs : list PullRequest) (label : string) :
  JSMap.get (Grouping.groupPRsByLabel prs) label
  = match Grouping.members label prs with
    | [] => None
    | ms => Some ms
    end.
Proof.
  unfold Grouping.groupPRsByLabel.
  destruct (foldl_groupOne [] prs label) as (Hg & _ & He);
    [constructor | intros l; discriminate |].
  cbn [JSMap.get default app] in Hg. specialize (He label).
  destruct (JSMap.get (foldl Grouping.groupOne [] prs) label) as [ms|]; cbn in Hg.
  - rewrite <- Hg. destruct ms; [congruence | reflexivity].
  - rewrite <- Hg. reflexivity.
Qed.

(** X11. What each group holds: in the map built by [groupPRsByLabel] the
    group of a label lists, in input order, the pull requests that carry
    the label (once per occurrence of the label), the group "unlabeled"
    those without any label (together with those labelled "unlabeled"),
    and a label that no pull request contributes to is no key at all. *)
Theorem groupPRsByLabel_get (prs : list PullRequest) (label : string) :
  JSMap.get (Grouping.groupPRsByLabel prs) label
  = match Grouping.members label prs with
    | [] => None
    | ms => Some ms
    end.
Proof.
  destruct (Grouping.members label prs) as [|m ms] eqn:E.
  - apply get_None_keys. intros Hin. unfold JSMap.keys in Hin.
    apply in_map_iff in Hin as ([k v] & <- & Hin). cbn [fst] in E.
    apply In_get in Hin; [|apply groupPRsByLabel_invariants].
    rewrite group_lookup, E in Hin. discriminate.
  - pose proof (group_lookup prs label) as H. rewrite E in H. exact H.
Qed.

(** X12. The map has one entry per label: the keys are pairwise distinct
    and no group is empty, whatever the input (repeated labels, repeated
    pull requests, an empty list). *)
Theorem groupPRsByLabel_keys (prs : list PullRequest) :
  NoDup (JSMap.keys (Grouping.groupPRsByLabel prs))
  /\ Forall (fun entry => entry.2 <> []) (Grouping.groupPRsByLabel prs).
Proof.
  destruct (groupPRsByLabel_invariants prs) as [Hnd He].
  split; [exact Hnd|]. apply Forall_forall. intros [k v] Hin. cbn.
  apply list_elem_of_In in Hin. apply (In_get _ _ _ Hnd) in Hin.
  intros ->. exact (He k Hin).
Qed.

Lemma entries_In label pr q : In q (Grouping.entries label pr) -> q = pr.
Proof.
  unfold Grouping.entries. destruct (labels pr).
  - destruct (String.eqb "unlabeled" label); [intros [<- | []]; reflexivity | intros []].
  - intros Hin. apply in_map_iff in Hin as (? & <- & _). reflexivity.
Qed.

(** X13. Grouping loses and invents nothing: every pull request of the
    input is in at least one group (under its first label, or under
    "unlabeled" when it has none), and every member of every group is a
    pull request of the input. *)
Theorem groupPRsByLabel_covers (prs : list PullRequest) :
  (forall pr, In pr prs ->
     exists ms,
       JSMap.get (Grouping.groupPRsByLabel prs) (hd "unlabeled"%string (labels pr))
       = Some ms /\ In pr ms)
  /\ (forall label ms q,
        JSMap.get (Grouping.groupPRsByLabel prs) label = Some ms -> In q ms -> In q prs).
Proof.
  split.
  - intros pr Hin. rewrite group_lookup.
    assert (In pr (Grouping.members (hd "unlabeled"%string (labels pr)) prs)) as Hm.
    { unfold Grouping.members. apply in_concat.
      exists (Grouping.entries (hd "unlabeled"%string (labels pr)) pr).
      split; [apply in_map, Hin|].
      unfold Grouping.entries. destruct (labels pr) as [|l ls]; cbn [hd].
      - left. reflexivity.
      - cbn [List.filter]. rewrite String.eqb_refl. left. reflexivity. }
    destruct (Grouping.members _ prs) as [|m ms]; [destruct Hm|].
    eexists. split; [reflexivity | exact Hm].
  - intros label ms q Hget Hq. rewrite group_lookup in Hget.
    assert (In q (Grouping.members label prs)) as Hm
      by (destruct (Grouping.members label prs); [discriminate | congruence]).
    unfold Grouping.members in Hm. apply in_concat in Hm as (es & Hes & Hqe).
    apply in_map_iff in Hes as (pr & <- & Hpr).
    apply entries_In in Hqe as ->. exact Hpr.
Qed.

End GroupingFacts.

(** ** The top labels *)

Section Sorting.

Implicit Types (g l : list (string * list PullRequest)) (x a b : string * list PullRequest).

Lemma insert_perm {A} (cmp : A -> A -> Z) (x : A) (l : list A) :
  JSArray.insert cmp x l ≡ₚ x :: l.
Proof.
  induction l as [|y l IH]; cbn; [reflexivity|].
  destruct (cmp x y <=? 0); [reflexivity|].
  rewrite IH. apply perm_swap.
Qed.

Lemma sort_perm {A} (cmp : A -> A -> Z) (l : list A) : JSArray.sort cmp l ≡ₚ l.
Proof.
  induction l as [|x l IH]; cbn; [reflexivity|].
  rewrite insert_perm, IH. reflexivity.
Qed.

Lemma insert_ranked x l :
  Grouping.ranked l -> Grouping.ranked (JSArray.insert Grouping.bySize x l).
Proof.
  induction l as [|y l IH]; cbn [JSArray.insert Grouping.ranked].
  - intros _. split; [constructor | exact I].
  - intros [Hy Hl]. unfold Grouping.bySize at 1.
    destruct (Z.leb_spec (Z.of_nat (length y.2) - Z.of_nat (length x.2)) 0) as [Hle | Hgt].
    + cbn [Grouping.ranked]. split; [|split; assumption].
      constructor; [lia|]. eapply Forall_impl; [exact Hy|]. cbn. intros b Hb. lia.
    + cbn [Grouping.ranked]. split; [|apply IH, Hl].
      rewrite insert_perm. constructor; [lia | exact Hy].
Qed.

Lemma sort_ranked l : Grouping.ranked (JSArray.sort Grouping.bySize l).
Proof.
  induction l as [|x l IH]; cbn; [exact I|]. apply insert_ranked, IH.
Qed.

Lemma ranked_app l l' a b :
  Grouping.ranked (l ++ l') -> In a l -> In b l' -> (length b.2 <= length a.2)%nat.
Proof.
  induction l as [|x l IH]; cbn [app Grouping.ranked]; [intros _ []|].
  intros [Hx Hl] [-> | Ha] Hb.
  - rewrite Forall_forall in Hx. apply Hx, list_elem_of_In, in_or_app. right. exact Hb.
  - apply IH; assumption.
Qed.

Lemma ranked_lookup l i j a b :
  Grouping.ranked l -> (i < j)%nat -> l !! i = Some a -> l !! j = Some b ->
  (length b.2 <= length a.2)%nat.
Proof.
  intros Hr Hij Hi Hj.
  rewrite <- (take_drop (S i) l) in Hr.
  apply (ranked_app _ _ a b Hr).
  - apply list_elem_of_In, (list_elem_of_lookup_2 _ i).
    rewrite lookup_take_lt by lia. exact Hi.
  - apply list_elem_of_In, (list_elem_of_lookup_2 _ (j - S i)).
    rewrite lookup_drop. replace (S i + (j - S i))%nat with j by lia. exact Hj.
Qed.

Lemma slice_prefix {A} (l : list A) (limit : Z) :
  0 <= limit -> JS.slice l 0 limit = take (Z.to_nat limit) l.
Proof.
  intros Hl. unfold JS.slice. cbn [Z.ltb Z.compare].
  destruct (Z.ltb_spec limit 0); [lia|].
  rewrite (Z.min_l 0) by lia. cbn [Z.to_nat drop]. rewrite Z.sub_0_r.
  destruct (Z.le_gt_cases limit (Z.of_nat (length l))).
  - rewrite Z.min_l by lia. reflexivity.
  - rewrite Z.min_r by lia. rewrite (take_ge l (Z.to_nat limit)) by lia.
    apply take_ge. lia.
Qed.

Lemma size_of_entry g a :
  NoDup (JSMap.keys g) -> In a g -> Grouping.size_of g a.1 = length a.2.
Proof.
  intros Hnd Hin. destruct a as [k v]. cbn [fst snd]. unfold Grouping.size_of.
  rewrite (In_get g k v Hnd Hin). reflexivity.
Qed.

(** X14. [getTopLabels] returns labels of the map, each once, and as many
    as the limit allows: for a limit that is not negative (5 when none is
    given), min(limit, number of groups) labels. *)
Theorem getTopLabels_count g (limit : option Z) :
  0 <= default 5 limit ->
  NoDup (JSMap.keys g) ->
  length (Grouping.getTopLabels g limit)
  = Nat.min (Z.to_nat (default 5 limit)) (length g)
  /\ NoDup (Grouping.getTopLabels g limit)
  /\ (forall label, In label (Grouping.getTopLabels g limit) -> In label (JSMap.keys g)).
Proof.
  intros Hl Hnd. unfold Grouping.getTopLabels. rewrite slice_prefix by assumption.
  set (E := JSArray.sort Grouping.bySize g).
  assert (E ≡ₚ g) as Hperm by apply sort_perm.
  rewrite <- firstn_map. split; [|split].
  - rewrite length_take, length_map, (Permutation_length Hperm). reflexivity.
  - assert (NoDup (map fst E)) as HndE
      by (unfold JSMap.keys in Hnd; rewrite Hperm; exact Hnd).
    eapply sublist_NoDup; [exact HndE | apply sublist_take].
  - intros label Hin. apply list_elem_of_In in Hin.
    apply (fun H => elem_of_sublist _ _ _ H (sublist_take _ _)) in Hin.
    apply list_elem_of_In. unfold JSMap.keys. rewrite <- Hperm. exact Hin.
Qed.

(** X15. The labels come back largest group first: a returned label's
    group is at least as large as the group of every label returned after
    it, and at least as large as the group of every label of the map that
    was left out. *)
Theorem getTopLabels_ranking g (limit : option Z) :
  0 <= default 5 limit ->
  NoDup (JSMap.keys g) ->
  let top := Grouping.getTopLabels g limit in
  (forall i j (a b : string), (i < j)%nat -> top !! i = Some a -> top !! j = Some b ->
     (Grouping.size_of g b <= Grouping.size_of g a)%nat)
  /\ (forall a c : string, In a top -> In c (JSMap.keys g) -> ~ In c top ->
        (Grouping.size_of g c <= Grouping.size_of g a)%nat).
Proof.
  intros Hl Hnd. cbn zeta. unfold Grouping.getTopLabels.
  rewrite slice_prefix by assumption.
  set (n := Z.to_nat (default 5 limit)).
  set (E := JSArray.sort Grouping.bySize g).
  assert (E ≡ₚ g) as Hperm by apply sort_perm.
  assert (Grouping.ranked E) as Hr by apply sort_ranked.
  assert (forall e, In e E -> Grouping.size_of g e.1 = length e.2) as Hsize.
  { intros e He. apply size_of_entry; [assumption|].
    apply list_elem_of_In. rewrite <- Hperm. apply list_elem_of_In, He. }
  split.
  - intros i j a b Hij Hi Hj.
    rewrite lookup_map in Hi, Hj.
    destruct (take n E !! i) as [ea|] eqn:Ei; [|discriminate].
    destruct (take n E !! j) as [eb|] eqn:Ej; [|discriminate].
    injection Hi as <-. injection Hj as <-.
    apply lookup_take_Some in Ei as [Ei _]. apply lookup_take_Some in Ej as [Ej _].
    rewrite (Hsize ea), (Hsize eb)
      by (apply list_elem_of_In; eapply list_elem_of_lookup_2; eassumption).
    apply (ranked_lookup E i j); assumption.
  - intros a c Ha Hc Hout.
    apply in_map_iff in Ha as (ea & <- & Hea).
    unfold JSMap.keys in Hc. apply in_map_iff in Hc as (ec & <- & Hec).
    assert (In ec E) as HecE
      by (apply list_elem_of_In; rewrite Hperm; apply list_elem_of_In, Hec).
    assert (In ea E) as HeaE
      by (apply list_elem_of_In;
          apply (elem_of_sublist (take n E) E ea); [apply list_elem_of_In, Hea|];
          apply sublist_take).
    rewrite (Hsize ea HeaE), (Hsize ec HecE).
    rewrite <- (take_drop n E) in Hr, HecE.
    apply in_app_or in HecE as [Hin | Hin].
    + exfalso. apply Hout. apply in_map, Hin.
    + apply (ranked_app _ _ ea ec Hr); assumption.
Qed.

End Sorting.

Section Stability.

Implicit Types (g l : list (string * list PullRequest)) (x : string * list PullRequest).

Lemma insert_class (n : nat) x l :
  List.filter (fun e => (length e.2 =? n)%nat) (JSArray.insert Grouping.bySize x l)
  = List.filter (fun e => (length e.2 =? n)%nat) (x :: l).
Proof.
  induction l as [|y l IH]; [reflexivity|].
  cbn [JSArray.insert]. unfold Grouping.bySize at 1.
  destruct (Z.leb_spec (Z.of_nat (length y.2) - Z.of_nat (length x.2)) 0) as [Hle | Hgt];
    [reflexivity|].
  cbn [List.filter] in *. rewrite IH.
  destruct (Nat.eqb_spec (length x.2) n), (Nat.eqb_spec (length y.2) n);
    try reflexivity. lia.
Qed.

Lemma sort_class (n : nat) l :
  List.filter (fun e => (length e.2 =? n)%nat) (JSArray.sort Grouping.bySize l)
  = List.filter (fun e => (length e.2 =? n)%nat) l.
Proof.
  induction l as [|x l IH]; [reflexivity|].
  cbn [JSArray.sort]. rewrite insert_class. cbn [List.filter]. rewrite IH. reflexivity.
Qed.

Lemma filter_map_fst (p : string -> bool) l :
  List.filter p (map fst l) = map fst (List.filter (fun e => p e.1) l).
Proof.
  induction l as [|x l IH]; [reflexivity|]. cbn. destruct (p x.1); cbn; congruence.
Qed.

(** X16. Ties are broken by the order of the map: among the labels whose
    groups have the same size, [getTopLabels] (asked for all labels)
    returns them in the order in which the map lists them, which for
    [groupPRsByLabel] is the order of first appearance. *)
Theorem getTopLabels_ties g (limit : option Z) (n : nat) :
  Z.of_nat (length g) <= default 5 limit ->
  NoDup (JSMap.keys g) ->
  List.filter (fun label => (Grouping.size_of g label =? n)%nat)
    (Grouping.getTopLabels g limit)
  = List.filter (fun label => (Grouping.size_of g label =? n)%nat) (JSMap.keys g).
Proof.
  intros Hl Hnd. unfold Grouping.getTopLabels, JSMap.keys.
  rewrite slice_prefix by lia.
  assert (JSArray.sort Grouping.bySize g ≡ₚ g) as Hperm by apply sort_perm.
  rewrite take_ge by (rewrite (Permutation_length Hperm); lia).
  rewrite !filter_map_fst. f_equal.
  rewrite (filter_ext_in _ (fun e => (length e.2 =? n)%nat)
             (JSArray.sort Grouping.bySize g)).
  2: { intros e He. rewrite (size_of_entry g e Hnd); [reflexivity|].
       apply list_elem_of_In. rewrite <- Hperm. apply list_elem_of_In, He. }
  rewrite (filter_ext_in _ (fun e => (length e.2 =? n)%nat) g).
  2: { intros e He. rewrite (size_of_entry g e Hnd He). reflexivity. }
  apply sort_class.
Qed.

End Stability.

Lemma labelled_sample_keys :
  NoDup (JSMap.keys (Grouping.groupPRsByLabel labelled)).
Proof. apply groupPRsByLabel_invariants. Qed.

Lemma getTopLabels_count_witness :
  length (Grouping.getTopLabels (Grouping.groupPRsByLabel labelled) (Some 2))
  = Nat.min (Z.to_nat 2) (length (Grouping.groupPRsByLabel labelled))
  /\ NoDup (Grouping.getTopLabels (Grouping.groupPRsByLabel labelled) (Some 2))
  /\ (forall label,
        In label (Grouping.getTopLabels (Grouping.groupPRsByLabel labelled) (Some 2)) ->
        In label (JSMap.keys (Grouping.groupPRsByLabel labelled))).
Proof.
  apply (getTopLabels_count (Grouping.groupPRsByLabel labelled) (Some 2));
    [cbn; lia | apply labelled_sample_keys].
Defined.

Lemma getTopLabels_ranking_witness :
  let g := Grouping.groupPRsByLabel labelled in
  let top := Grouping.getTopLabels g (Some 2) in
  (forall i j (a b : string), (i < j)%nat -> top !! i = Some a -> top !! j = Some b ->
     (Grouping.size_of g b <= Grouping.size_of g a)%nat)
  /\ (forall a c : string, In a top -> In c (JSMap.keys g) -> ~ In c top ->
        (Grouping.size_of g c <= Grouping.size_of g a)%nat).
Proof.
  apply (getTopLabels_ranking (Grouping.groupPRsByLabel labelled) (Some 2));
    [cbn; lia | apply labelled_sample_keys].
Defined.

Lemma getTopLabels_ties_witness :
  let g := Grouping.groupPRsByLabel labelled in
  List.filter (fun label => (Grouping.size_of g label =? 1)%nat)
    (Grouping.getTopLabels g None)
  = List.filter (fun label => (Grouping.size_of g label =? 1)%nat) (JSMap.keys g).
Proof.
  apply (getTopLabels_ties (Grouping.groupPRsByLabel labelled) None 1);
    [vm_compute; discriminate | apply labelled_sample_keys].
Defined.

Example top_labels_of_sample :
  Grouping.getTopLabels (Grouping.groupPRsByLabel labelled) None
  = ["bug"; "unlabeled"; "api"; "docs"]%string
  /\ map (fun e => (e.1, map number e.2)) (Grouping.groupPRsByLabel labelled)
     = [("bug", [1; 2; 5]); ("api", [1]); ("unlabeled", [3; 6]); ("docs", [4])]%string.
Proof. split; reflexivity. Qed.

(** ** The GitHub client *)

(** X17. The client is a module-level singleton: before any
    [initGitHubClient], [getGitHubClient] throws "not initialized"; after
    one or more, it returns the instance built from the last token. *)
Theorem getGitHubClient_last (tokens : list string) :
  Client.getGitHubClient
    (foldl (fun st token => (Client.initGitHubClient token st).2) None tokens)
  = match last tokens with
    | Some token => inr {| Client.auth := token |}
    | None => inl "GitHub client not initialized. Call initGitHubClient first."%string
    end.
Proof.
  assert (forall st,
            foldl (fun st token => (Client.initGitHubClient token st).2) st tokens
            = match last tokens with
              | Some token => Some {| Client.auth := token |}
              | None => st
              end) as H.
  { induction tokens as [|t ts IH]; intros st; [reflexivity|].
    cbn [foldl]. rewrite IH. destruct ts as [|t' ts']; [reflexivity|].
    rewrite last_cons_cons. destruct (last (t' :: ts')) eqn:E; [reflexivity|].
    apply last_None in E. discriminate. }
  rewrite H. destruct (last tokens); reflexivity.
Qed.

(** ** [parseInt] *)

Example parseInt_samples :
  JSNumber.parseInt "24" = Some 24
  /\ JSNumber.parseInt "  12abc" = Some 12
  /\ JSNumber.parseInt "-5" = Some (-5)
  /\ JSNumber.parseInt "+7" = Some 7
  /\ JSNumber.parseInt "0x10" = Some 0
  /\ JSNumber.parseInt "1e3" = Some 1
  /\ JSNumber.parseInt "abc" = None
  /\ JSNumber.parseInt "-" = None
  /\ JSNumber.parseInt " " = None.
Proof. repeat split; reflexivity. Qed.

Lemma is_digit_cases (c : ascii) :
  JSNumber.is_digit c = true ->
  In c ["0"; "1"; "2"; "3"; "4"; "5"; "6"; "7"; "8"; "9"]%char.
Proof.
  destruct c as [[] [] [] [] [] [] [] []]; cbn; intros H; try discriminate; tauto.
Qed.

Lemma strip_white_digit (c : ascii) (r : string) :
  JSNumber.is_digit c = true -> JSNumber.strip_white (String c r) = None.
Proof.
  intros H. apply is_digit_cases in H. cbn in H.
  repeat (destruct H as [<- | H]; [destruct r as [|d [|e r2]]; reflexivity|]).
  destruct H.
Qed.

Lemma read_digits_uint (d : Decimal.uint) (acc : Z) :
  0 <= acc ->
  JSNumber.read_digits (NilEmpty.string_of_uint d) acc
  = Z.of_nat (Nat.of_uint_acc d (Z.to_nat acc)).
Proof.
  revert acc. induction d as [|d IH|d IH|d IH|d IH|d IH|d IH|d IH|d IH|d IH|d IH];
    intros acc Hacc;
    cbn [NilEmpty.string_of_uint JSNumber.read_digits Nat.of_uint_acc];
    [lia | ..];
    change (JSNumber.is_digit _) with true; cbn iota;
    match goal with |- context [JSNumber.digit_value ?c] =>
      let v := eval vm_compute in (JSNumber.digit_value c) in
      change (JSNumber.digit_value c) with v
    end;
    rewrite IH by lia; do 2 f_equal; rewrite Nat.tail_mul_spec; lia.
Qed.

(** [parseInt] reads back what [toString] writes. *)
Lemma parseInt_toString (n : nat) :
  JSNumber.parseInt (JSNumber.toString n) = Some (Z.of_nat n).
Proof.
  unfold JSNumber.toString.
  pose proof (read_digits_uint (Nat.to_uint n) 0 ltac:(lia)) as Hread.
  change (Nat.of_uint_acc (Nat.to_uint n) (Z.to_nat 0)) with (Nat.of_uint (Nat.to_uint n))
    in Hread.
  rewrite DecimalNat.Unsigned.of_to in Hread.
  unfold JSNumber.parseInt.
  destruct (NilEmpty.string_of_uint (Nat.to_uint n)) as [|c r] eqn:E.
  - exfalso. destruct (Nat.to_uint n) eqn:En; try discriminate.
    pose proof (DecimalNat.Unsigned.of_to n) as Hn. rewrite En in Hn. cbn in Hn.
    subst n. cbn in En. discriminate.
  - assert (JSNumber.is_digit c = true) as Hc.
    { destruct (Nat.to_uint n); cbn in E; try discriminate; injection E as <- _; reflexivity. }
    cbn [String.length JSNumber.trim_start]. rewrite (strip_white_digit c r Hc).
    assert (match String c r with
            | String "-" r0 => (-1, r0)
            | String "+" r0 => (1, r0)
            | _ => (1, String c r)
            end = (1, String c r)) as ->.
    { apply is_digit_cases in Hc. cbn in Hc.
      repeat (destruct Hc as [<- | Hc]; [reflexivity|]). destruct Hc. }
    rewrite Hc, Hread. f_equal. lia.
Qed.

(** ** Loading the configuration *)

(** X18. [loadConfig] checks, in this order, GITHUB_TOKEN, OPENAI_API_KEY,
    --owner and --repo, and throws for the first that is missing or empty;
    when all four are there it returns them unchanged. *)
Theorem loadConfig_validation (env : string -> option string)
    (options : Config.Options.t) (now : Z) :
  match Config.loadConfig env options now with
  | inr c =>
      Config.truthy (env "GITHUB_TOKEN"%string) = Some (Config.token (Config.github c))
      /\ Config.truthy (env "OPENAI_API_KEY"%string) = Some (Config.apiKey (Config.openai c))
      /\ Config.truthy (Config.Options.owner options) = Some (Config.owner (Config.github c))
      /\ Config.truthy (Config.Options.repo options) = Some (Config.repo (Config.github c))
  | inl message =>
      (Config.truthy (env "GITHUB_TOKEN"%string) = None
       /\ message = "GITHUB_TOKEN environment variable is required"%string)
      \/ (Config.truthy (env "GITHUB_TOKEN"%string) <> None
          /\ Config.truthy (env "OPENAI_API_KEY"%string) = None
          /\ message = "OPENAI_API_KEY environment variable is required"%string)
      \/ (Config.truthy (env "GITHUB_TOKEN"%string) <> None
          /\ Config.truthy (env "OPENAI_API_KEY"%string) <> None
          /\ Config.truthy (Config.Options.owner options) = None
          /\ message = "--owner argument is required"%string)
      \/ (Config.truthy (env "GITHUB_TOKEN"%string) <> None
          /\ Config.truthy (env "OPENAI_API_KEY"%string) <> None
          /\ Config.truthy (Config.Options.owner options) <> None
          /\ Config.truthy (Config.Options.repo options) = None
          /\ message = "--repo argument is required"%string)
  end.
Proof.
  unfold Config.loadConfig.
  destruct (Config.truthy (env "GITHUB_TOKEN"%string)) as [t|]; [|left; auto].
  destruct (Config.truthy (env "OPENAI_API_KEY"%string)) as [k|];
    [|right; left; repeat split; congruence].
  destruct (Config.truthy (Config.Options.owner options)) as [o|];
    [|right; right; left; repeat split; congruence].
  destruct (Config.truthy (Config.Options.repo options)) as [r|];
    [|right; right; right; repeat split; congruence].
  cbn. auto.
Qed.

(** X19. The look-back window: when [loadConfig] succeeds, a missing or
    empty [since] means 24 hours before now, and a decimal numeral n means
    n hours before now (an Invalid Date if that instant is out of the
    range of [Date]). *)
Theorem loadConfig_since (env : string -> option string)
    (options : Config.Options.t) (now : Z) (c : Config.Config) :
  Config.loadConfig env options now = inr c ->
  (Config.truthy (Config.Options.since options) = None ->
     Config.since c = JSNumber.newDate (Some (now - 86400000)))
  /\ (forall n : nat,
        Config.Options.since options = Some (JSNumber.toString n) ->
        Config.since c = JSNumber.newDate (Some (now - Z.of_nat n * 3600000))).
Proof.
  unfold Config.loadConfig.
  destruct (Config.truthy (env "GITHUB_TOKEN"%string)); [|discriminate].
  destruct (Config.truthy (env "OPENAI_API_KEY"%string)); [|discriminate].
  destruct (Config.truthy (Config.Options.owner options)); [|discriminate].
  destruct (Config.truthy (Config.Options.repo options)); [|discriminate].
  intros [= <-]. cbn [Config.since]. split.
  - intros ->. cbn [option_map]. do 2 f_equal.
  - intros n Hn. rewrite Hn.
    assert (Config.truthy (Some (JSNumber.toString n)) = Some (JSNumber.toString n)) as ->.
    { pose proof (parseInt_toString n) as Hp.
      destruct (JSNumber.toString n); [discriminate | reflexivity]. }
    rewrite parseInt_toString. cbn [option_map]. do 2 f_equal. lia.
Qed.

Lemma loadConfig_since_witness :
  let env := fun name : string => Some "secret"%string in
  let options := {| Config.Options.owner := Some "o"%string;
                    Config.Options.repo := Some "r"%string;
                    Config.Options.since := Some (JSNumber.toString 48) |} in
  exists c,
    Config.loadConfig env options 1700000000000 = inr c
    /\ Config.since c = JSNumber.newDate (Some (1700000000000 - Z.of_nat 48 * 3600000)).
Proof.
  cbn zeta. eexists. split; [reflexivity|].
  refine (proj2 (loadConfig_since (fun _ => Some "secret"%string)
                   {| Config.Options.owner := Some "o"%string;
                      Config.Options.repo := Some "r"%string;
                      Config.Options.since := Some (JSNumber.toString 48) |}
                   1700000000000 _ _) 48%nat _); reflexivity.
Defined.

(** ** Fetching the merged pull requests *)

Section Fetching.

Variable server : Api.Server.
Variable since : option Z.

Implicit Types (data : list Api.Pull) (prs : list PullRequest)
  (tr : list Fetchers.Event).

Lemma inWindow_fetched (pr : Api.Pull) :
  Fetchers.inWindow since pr = true ->
  exists mergedAt,
    Api.merged_at pr = Some mergedAt /\ Fetchers.notBefore mergedAt since = true.
Proof.
  unfold Fetchers.inWindow. destruct (Api.merged_at pr) as [m|]; [|discriminate]. eauto.
Qed.

Lemma collect_skip (pr : Api.Pull) data prs tr :
  Fetchers.inWindow since pr = false ->
  Fetchers.collect server since (pr :: data) prs tr
  = Fetchers.collect server since data prs tr.
Proof.
  unfold Fetchers.inWindow. cbn [Fetchers.collect].
  destruct (Api.merged_at pr) as [m|]; [|reflexivity]. intros ->. reflexivity.
Qed.

Lemma collect_step (pr : Api.Pull) data prs tr :
  Fetchers.inWindow since pr = true ->
  Fetchers.collect server since (pr :: data) prs tr
  = match Fetchers.fetched server pr with
    | Some record =>
        Fetchers.collect server since data (prs ++ [record])
          (tr ++ Fetchers.requests pr)
    | None =>
        (None,
         tr ++ Fetchers.PullsGet (Api.number pr)
            :: match Api.pulls_get server (Api.number pr) with
               | Some _ => [Fetchers.PullsListFiles (Api.number pr)]
               | None => []
               end)
    end.
Proof.
  intros Hw. apply inWindow_fetched in Hw as (m & Em & Hw).
  cbn [Fetchers.collect]. unfold Fetchers.fetched, Fetchers.requests.
  rewrite Em, Hw.
  destruct (Api.pulls_get server (Api.number pr)) as [d|]; [|reflexivity].
  destruct (Api.pulls_listFiles server (Api.number pr)) as [f|];
    rewrite <- app_assoc; reflexivity.
Qed.

Lemma collect_result data prs tr :
  let selected := List.filter (Fetchers.inWindow since) data in
  match (Fetchers.collect server since data prs tr).1 with
  | Some out =>
      exists built, out = prs ++ built
        /\ map Some built = map (Fetchers.fetched server) selected
  | None => exists pr, In pr selected /\ Fetchers.fetched server pr = None
  end.
Proof.
  cbn zeta. revert prs tr. induction data as [|pr data IH]; intros prs tr.
  - cbn. exists []. rewrite app_nil_r. auto.
  - cbn [List.filter]. destruct (Fetchers.inWindow since pr) eqn:Ew.
    + rewrite collect_step by assumption.
      destruct (Fetchers.fetched server pr) as [record|] eqn:Ef.
      * specialize (IH (prs ++ [record]) (tr ++ Fetchers.requests pr)).
        destruct (Fetchers.collect server since data _ _).1 as [out|].
        -- destruct IH as (built & -> & Hb). exists (record :: built).
           rewrite <- app_assoc. split; [reflexivity|]. cbn [map].
           rewrite Hb, Ef. reflexivity.
        -- destruct IH as (q & Hq & Hnone). exists q.
           split; [right; exact Hq | exact Hnone].
      * cbn [fst]. exists pr. split; [left; reflexivity | exact Ef].
    + rewrite collect_skip by assumption. apply IH.
Qed.

Lemma collect_trace data prs tr :
  let selected := List.filter (Fetchers.inWindow since) data in
  let run := Fetchers.collect server since data prs tr in
  (exists k, Fetchers.detailCalls run.2
             = Fetchers.detailCalls tr ++ take k (map Api.number selected))
  /\ (is_Some run.1 -> run.2 = tr ++ concat (map Fetchers.requests selected)).
Proof.
  cbn zeta. revert prs tr. induction data as [|pr data IH]; intros prs tr.
  - cbn. split; [exists 0%nat|]; rewrite app_nil_r; reflexivity.
  - cbn [List.filter]. destruct (Fetchers.inWindow since pr) eqn:Ew.
    + rewrite collect_step by assumption.
      destruct (Fetchers.fetched server pr) as [record|] eqn:Ef.
      * specialize (IH (prs ++ [record]) (tr ++ Fetchers.requests pr)).
        destruct IH as [[k Hk] Hall]. split.
        -- exists (S k). rewrite Hk. unfold Fetchers.detailCalls, Fetchers.requests.
           rewrite !omap_app. cbn. rewrite <- app_assoc. reflexivity.
        -- intros Hs. rewrite (Hall Hs). cbn [map concat].
           rewrite <- !app_assoc. reflexivity.
      * cbn [fst snd]. split; [|intros [? [=]]].
        exists 1%nat. unfold Fetchers.detailCalls. rewrite !omap_app.
        destruct (Api.pulls_get server (Api.number pr)); cbn;
          rewrite take_0; reflexivity.
    + rewrite collect_skip by assumption. apply IH.
Qed.


(** X21. All or nothing: with the client initialised and the listing
    answered, [fetchMergedPRs] returns exactly when the details and the
    file list of every merged pull request of the window are answered;
    if one of these requests is rejected it throws, after logging, and no
    partial list comes back. *)
Theorem fetchMergedPRs_all_or_nothing (client : Client.Octokit) data tr :
  Api.pulls_list server = Some data ->
  let run := Fetchers.fetchMergedPRs (Some client) server since tr in
  ((exists prs, run.1 = Fetchers.Returned prs)
   <-> (forall pr, In pr (List.filter (Fetchers.inWindow since) data) ->
          Fetchers.fetched server pr <> None))
  /\ (run.1 = Fetchers.Thrown -> last run.2 = Some Fetchers.ConsoleError).
Proof.
  intros Hlist. cbn zeta. unfold Fetchers.fetchMergedPRs.
  cbn [Client.getGitHubClient]. rewrite Hlist.
  pose proof (collect_result data [] (tr ++ [Fetchers.PullsList])) as Hres.
  cbn zeta in Hres.
  destruct (Fetchers.collect server since data [] (tr ++ [Fetchers.PullsList]))
    as [[out|] tr1]; cbn [fst snd] in *.
  - destruct Hres as (built & -> & Hb). split; [|discriminate]. split; [|eauto].
    intros _ pr Hpr Hnone.
    apply (in_map (Fetchers.fetched server)) in Hpr. rewrite <- Hb, Hnone in Hpr.
    apply in_map_iff in Hpr as (? & [=] & _).
  - destruct Hres as (pr & Hpr & Hnone). split.
    + split; [intros [? [=]] | intros H; destruct (H pr Hpr Hnone)].
    + intros _. apply last_snoc.
Qed.

(** X22. No request is wasted on a pull request outside the window: the
    details requested are those of merged pull requests of the window, in
    listing order and without repetition of a listing entry (a prefix of
    them when a request is rejected), and on success each is followed by
    the request for its files. *)
Theorem fetchMergedPRs_requests (client : Client.Octokit) data tr :
  Api.pulls_list server = Some data ->
  let selected := List.filter (Fetchers.inWindow since) data in
  let run := Fetchers.fetchMergedPRs (Some client) server since tr in
  (exists k, Fetchers.detailCalls run.2
             = Fetchers.detailCalls tr ++ take k (map Api.number selected))
  /\ (forall prs, run.1 = Fetchers.Returned prs ->
        run.2 = tr ++ Fetchers.PullsList :: concat (map Fetchers.requests selected)).
Proof.
  intros Hlist. cbn zeta. unfold Fetchers.fetchMergedPRs.
  cbn [Client.getGitHubClient]. rewrite Hlist.
  pose proof (collect_trace data [] (tr ++ [Fetchers.PullsList])) as [[k Hk] Hall].
  assert (Fetchers.detailCalls (tr ++ [Fetchers.PullsList]) = Fetchers.detailCalls tr)
    as Hq by (unfold Fetchers.detailCalls; rewrite omap_app; cbn; apply app_nil_r).
  destruct (Fetchers.collect server since data [] (tr ++ [Fetchers.PullsList]))
    as [[out|] tr1]; cbn [fst snd] in *.
  - split; [exists k; rewrite Hk, Hq; reflexivity|].
    intros prs _. rewrite Hall by eauto. rewrite <- app_assoc. reflexivity.
  - split; [|discriminate]. exists k.
    unfold Fetchers.detailCalls in *. rewrite omap_app, Hk, Hq. cbn.
    rewrite app_nil_r. reflexivity.
Qed.

End Fetching.


Lemma fetchMergedPRs_all_or_nothing_witness :
  let run := Fetchers.fetchMergedPRs (Some {| Client.auth := "t" |}) (github [11])
               (Some 2000) [] in
  ((exists prs, run.1 = Fetchers.Returned prs)
   <-> (forall pr, In pr (List.filter (Fetchers.inWindow (Some 2000)) listing) ->
          Fetchers.fetched (github [11]) pr <> None))
  /\ (run.1 = Fetchers.Thrown -> last run.2 = Some Fetchers.ConsoleError).
Proof.
  apply (fetchMergedPRs_all_or_nothing (github [11]) (Some 2000)
           {| Client.auth := "t" |} listing []).
  reflexivity.
Defined.

Lemma fetchMergedPRs_requests_witness :
  let selected := List.filter (Fetchers.inWindow (Some 2000)) listing in
  let run := Fetchers.fetchMergedPRs (Some {| Client.auth := "t" |}) (github [])
               (Some 2000) [] in
  (exists k, Fetchers.detailCalls run.2
             = Fetchers.detailCalls [] ++ take k (map Api.number selected))
  /\ (forall prs, run.1 = Fetchers.Returned prs ->
        run.2 = [] ++ Fetchers.PullsList :: concat (map Fetchers.requests selected)).
Proof.
  apply (fetchMergedPRs_requests (github []) (Some 2000)
           {| Client.auth := "t" |} listing []).
  reflexivity.
Defined.

Example fetch_sample :
  (Fetchers.fetchMergedPRs (Some {| Client.auth := "t" |}) (github []) (Some 2000) []).2
  = [Fetchers.PullsList; Fetchers.PullsGet 11; Fetchers.PullsListFiles 11]
  /\ Fetchers.fetchMergedPRs (Some {| Client.auth := "t" |}) (github [11]) (Some 2000) []
     = (Fetchers.Thrown,
        [Fetchers.PullsList; Fetchers.PullsGet 11; Fetchers.ConsoleError])
  /\ Fetchers.fetchMergedPRs None (github []) (Some 2000) [] = (Fetchers.Thrown, []).
Proof. repeat split; reflexivity. Qed.

(** X23. A look-back that is not a number empties the digest without a
    word: when a non-empty [--since] does not parse ("abc"), [loadConfig] still
    succeeds, with an Invalid Date, and with that date [fetchMergedPRs]
    returns no pull request at all, after the listing request alone. *)
Theorem unparsable_since_fetches_nothing (env : string -> option string)
    (options : Config.Options.t) (now : Z) (c : Config.Config) (s : string)
    (client : Client.Octokit) (server : Api.Server) (data : list Api.Pull)
    (tr : list Fetchers.Event) :
  Config.loadConfig env options now = inr c ->
  Config.Options.since options = Some s ->
  s <> EmptyString ->
  JSNumber.parseInt s = None ->
  Api.pulls_list server = Some data ->
  Config.since c = None
  /\ Fetchers.fetchMergedPRs (Some client) server (Config.since c) tr
     = (Fetchers.Returned [], tr ++ [Fetchers.PullsList]).
Proof.
  unfold Config.loadConfig.
  destruct (Config.truthy (env "GITHUB_TOKEN"%string)); [|discriminate].
  destruct (Config.truthy (env "OPENAI_API_KEY"%string)); [|discriminate].
  destruct (Config.truthy (Config.Options.owner options)); [|discriminate].
  destruct (Config.truthy (Config.Options.repo options)); [|discriminate].
  intros [= <-] Hs Hne Hp Hlist. cbn [Config.since]. rewrite Hs.
  assert (Config.truthy (Some s) = Some s) as ->
    by (destruct s; [congruence | reflexivity]).
  rewrite Hp. cbn [option_map JSNumber.newDate]. split; [reflexivity|].
  unfold Fetchers.fetchMergedPRs. cbn [Client.getGitHubClient]. rewrite Hlist.
  assert (forall prs tr0,
            Fetchers.collect server None data prs tr0 = (Some prs, tr0)) as ->.
  { clear. induction data as [|pr data IH]; intros prs tr0; [reflexivity|].
    rewrite collect_skip; [apply IH|].
    unfold Fetchers.inWindow. destruct (Api.merged_at pr); reflexivity. }
  reflexivity.
Qed.

Lemma unparsable_since_fetches_nothing_witness :
  let env := fun name : string => Some "secret"%string in
  let options := {| Config.Options.owner := Some "o"%string;
                    Config.Options.repo := Some "r"%string;
                    Config.Options.since := Some "abc"%string |} in
  exists c,
    Config.loadConfig env options 1700000000000 = inr c
    /\ Config.since c = None
    /\ Fetchers.fetchMergedPRs (Some {| Client.auth := "t" |}) (github [])
         (Config.since c) []
       = (Fetchers.Returned [], [] ++ [Fetchers.PullsList]).
Proof.
  cbn zeta. eexists. split; [reflexivity|].
  refine (unparsable_since_fetches_nothing (fun _ => Some "secret"%string)
            {| Config.Options.owner := Some "o"%string;
               Config.Options.repo := Some "r"%string;
               Config.Options.since := Some "abc"%string |}
            1700000000000 _ "abc" {| Client.auth := "t" |} (github []) listing []
            _ _ _ _ _); try reflexivity. discriminate.
Defined.

(** ** From the API to the score *)

(** X24. Whatever the API leaves out, a fetched pull request can be
    scored: if no counter the API reports is negative (a missing counter
    counts as 0), every pull request [fetchMergedPRs] returns has a
    [calculateRisk] score in [0, 1]. *)
Theorem fetched_scores_bounded (client : Client.Octokit) (server : Api.Server)
    (since : option Z) (data : list Api.Pull) (prs : list PullRequest)
    (tr tr' : list Fetchers.Event) :
  Api.pulls_list server = Some data ->
  (forall n d, Api.pulls_get server n = Some d ->
     0 <= Fetchers.orZero (Api.additions d)
     /\ 0 <= Fetchers.orZero (Api.deletions d)
     /\ 0 <= Fetchers.orZero (Api.changed_files d)) ->
  Fetchers.fetchMergedPRs (Some client) server since tr = (Fetchers.Returned prs, tr') ->
  Forall (fun pr => (0 <=? Risk.calculateRisk pr)%float = true
                    /\ (Risk.calculateRisk pr <=? 1)%float = true) prs.
Proof.
  intros Hlist Hpos. unfold Fetchers.fetchMergedPRs. cbn [Client.getGitHubClient].
  rewrite Hlist.
  pose proof (collect_result server since data [] (tr ++ [Fetchers.PullsList])) as Hres.
  cbn zeta in Hres.
  destruct (Fetchers.collect server since data [] (tr ++ [Fetchers.PullsList]))
    as [[out|] tr1]; [|discriminate].
  intros [= <- <-]. cbn [fst] in Hres. destruct Hres as (built & -> & Hb).
  cbn [app]. revert built Hb.
  induction (List.filter (Fetchers.inWindow since) data) as [|p sel IH];
    intros [|b built] Hb; cbn in Hb; try discriminate; constructor.
  - injection Hb as Hb _. unfold Fetchers.fetched in Hb.
    destruct (Api.merged_at p); [|discriminate].
    destruct (Api.pulls_get server (Api.number p)) as [d|] eqn:Ed; [|discriminate].
    destruct (Api.pulls_listFiles server (Api.number p)); [|discriminate].
    injection Hb as ->. destruct (Hpos _ _ Ed) as (Ha & Hd & Hc).
    rewrite calculateRisk_capped. cbn [additions deletions changedFiles Fetchers.build].
    apply andb_prop.
    apply (over_inputs_spec _ all_scores_in_unit_interval); lia.
  - apply IH. injection Hb as _ Hb. exact Hb.
Qed.

Lemma fetched_scores_bounded_witness :
  exists prs tr',
    Fetchers.fetchMergedPRs (Some {| Client.auth := "t" |}) (github []) (Some 2000) []
    = (Fetchers.Returned prs, tr')
    /\ Forall (fun pr => (0 <=? Risk.calculateRisk pr)%float = true
                         /\ (Risk.calculateRisk pr <=? 1)%float = true) prs.
Proof.
  eexists _, _. split; [reflexivity|].
  refine (fetched_scores_bounded {| Client.auth := "t" |} (github []) (Some 2000)
            listing _ [] _ _ _ _); [reflexivity | | reflexivity].
  intros n d. cbn. destruct (bool_decide (n ∈ [])); [discriminate|].
  intros [= <-]. cbn. lia.
Defined.

(** ** The colour of a pull request *)

(** X25. The colour agrees with the flag: a pull request is among the
    risky ones under the default threshold exactly when [PRItem] does not
    paint it green, the red ones (score at least 0.7) included. *)
Theorem flagged_iff_not_green (prs : list PullRequest) (pr : PullRequest) :
  In pr (Risk.getRiskyPRs prs None) <-> In pr prs /\ View.riskColor pr <> View.green.
Proof.
  unfold Risk.getRiskyPRs, View.riskColor. rewrite filter_In. cbn [default].
  change (from_option id 0.5%float None) with 0.5%float.
  set (x := JS.or_default (riskScore pr) 0).
  split; intros [Hin H]; (split; [exact Hin|]).
  - rewrite H. destruct (0.7 <=? x)%float; discriminate.
  - destruct (0.7 <=? x)%float eqn:E7.
    + apply (leb_trans _ 0.7%float); [reflexivity | exact E7].
    + destruct (0.5 <=? x)%float; [reflexivity | congruence].
Qed.

(** ** Fetching the deployments *)

Lemma deployments_collect (server : DeployApi.Server) (since : option Z)
    (data : list DeployApi.Listed) (deployments : list Deployments.Deployment)
    (tr : list Deployments.Event) :
  let selected :=
    List.filter (fun d => Fetchers.notBefore (DeployApi.created_at d) since) data in
  Deployments.collect server since data deployments tr
  = (deployments ++ map (Deployments.build server) selected,
     tr ++ map (fun d => Deployments.GetCommit (DeployApi.sha d)) selected).
Proof.
  cbn zeta. revert deployments tr.
  induction data as [|d data IH]; intros deployments tr;
    cbn [Deployments.collect List.filter map].
  - rewrite !app_nil_r. reflexivity.
  - destruct (Fetchers.notBefore (DeployApi.created_at d) since); rewrite IH.
    + cbn [map]. rewrite <- !app_assoc. reflexivity.
    + reflexivity.
Qed.

(** X26. Once the client is initialised [fetchDeployments] never throws:
    a rejected listing is logged and gives the empty list; otherwise it
    returns one deployment for every listed deployment created at or after
    [since], in listing order, and a rejected commit lookup only leaves
    that deployment without pull-request numbers. *)
Theorem fetchDeployments_never_throws (client : Client.Octokit)
    (server : DeployApi.Server) (since : option Z) (tr : list Deployments.Event) :
  exists deployments tr',
    Deployments.fetchDeployments (Some client) server since tr
    = (Fetchers.Returned deployments, tr')
    /\ match DeployApi.repos_listDeployments server with
       | Some data =>
           let selected :=
             List.filter (fun d => Fetchers.notBefore (DeployApi.created_at d) since)
               data in
           map Deployments.id deployments = map DeployApi.id selected
           /\ Forall2 (fun d listed =>
                         Deployments.sha d = DeployApi.sha listed
                         /\ (DeployApi.repos_getCommit server (DeployApi.sha listed) = None ->
                             Deployments.prNumbers d = []))
                deployments selected
           /\ tr' = tr ++ Deployments.ListDeployments
                       :: map (fun d => Deployments.GetCommit (DeployApi.sha d)) selected
       | None =>
           deployments = []
           /\ tr' = tr ++ [Deployments.ListDeployments; Deployments.ConsoleError]
       end.
Proof.
  unfold Deployments.fetchDeployments. cbn [Client.getGitHubClient].
  destruct (DeployApi.repos_listDeployments server) as [data|].
  - rewrite deployments_collect. eexists _, _. split; [reflexivity|].
    cbn zeta. cbn [app].
    set (selected := List.filter _ data). split; [|split].
    + rewrite map_map. reflexivity.
    + induction selected as [|d sel IH]; cbn [map]; constructor; [|exact IH].
      split; [reflexivity|]. intros Hnone. cbn. rewrite Hnone. reflexivity.
    + rewrite <- app_assoc. reflexivity.
  - eexists _, _. split; [reflexivity|]. split; [reflexivity|].
    rewrite <- app_assoc. reflexivity.
Qed.

Lemma scan_space (a b : string) (state : Deployments.Scan) :
  Deployments.scan (a ++ String " " b) state
  = Deployments.scan a state ++ Deployments.scan b Deployments.Idle.
Proof.
  revert state. induction a as [|c a IH]; intros state.
  - rewrite append_nil. destruct state; reflexivity.
  - rewrite append_cons. cbn [Deployments.scan].
    destruct (JSNumber.is_digit c); destruct state; rewrite ?IH; reflexivity.
Qed.

Lemma scan_uint (d : Decimal.uint) (acc : Z) :
  0 <= acc ->
  Deployments.scan (NilEmpty.string_of_uint d) (Deployments.Run acc)
  = [JSNumber.number_of_integer (Z.of_nat (Nat.of_uint_acc d (Z.to_nat acc)))].
Proof.
  revert acc. induction d as [|d IH|d IH|d IH|d IH|d IH|d IH|d IH|d IH|d IH|d IH];
    intros acc Hacc;
    cbn [NilEmpty.string_of_uint Deployments.scan Nat.of_uint_acc];
    [do 2 f_equal; lia | ..];
    change (JSNumber.is_digit _) with true; cbn iota;
    match goal with |- context [JSNumber.digit_value ?c] =>
      let v := eval vm_compute in (JSNumber.digit_value c) in
      change (JSNumber.digit_value c) with v
    end;
    rewrite IH by lia; do 4 f_equal; rewrite Nat.tail_mul_spec; lia.
Qed.

Lemma no_hash_cons (c : ascii) (r : string) :
  JS.regex_test ["#"%string] (String c r) = false ->
  Ascii.eqb c "#" = false /\ JS.regex_test ["#"%string] r = false.
Proof.
  cbn [JS.regex_test existsb String.prefix].
  destruct (Ascii.eqb_spec c "#") as [-> | Hne].
  - destruct (ascii_dec "#" "#") as [_ | Hd]; [|congruence].
    destruct r; cbn; discriminate.
  - destruct (ascii_dec "#" c) as [<- | _]; [congruence|].
    cbn. auto.
Qed.

(** *** Integers up to 2^53 are numbers *)

Lemma digits2_pos_iter (p k : positive) :
  digits2_pos (Pos.iter xO p k) = (digits2_pos p + k)%positive.
Proof.
  induction k as [|k IH] using Pos.peano_ind.
  - cbn. lia.
  - rewrite Pos.iter_succ. cbn [digits2_pos]. rewrite IH. lia.
Qed.

Lemma digits2_pos_lower (p : positive) :
  2 ^ (Z.pos (digits2_pos p) - 1) <= Z.pos p.
Proof.
  induction p as [p IH | p IH |]; cbn [digits2_pos]; [| |cbn; lia];
    rewrite Pos2Z.inj_succ;
    replace (Z.succ (Z.pos (digits2_pos p)) - 1)
      with (Z.succ (Z.pos (digits2_pos p) - 1)) by lia;
    rewrite Z.pow_succ_r by lia; lia.
Qed.

Lemma digits2_pos_bound (p : positive) (k : Z) :
  0 <= k -> Z.pos p < 2 ^ k -> Z.pos (digits2_pos p) <= k.
Proof.
  intros Hk Hp.
  destruct (Z.le_gt_cases (Z.pos (digits2_pos p)) k) as [|Hgt]; [assumption|].
  pose proof (digits2_pos_lower p) as Hlow.
  assert (2 ^ k <= 2 ^ (Z.pos (digits2_pos p) - 1)) by (apply Z.pow_le_mono_r; lia).
  lia.
Qed.

(** Rounding a positive integer below 2^53 to binary64 changes nothing:
    the result is a finite number whose mantissa, scaled by its exponent,
    is the integer. *)
Lemma binary_normalize_exact (p : positive) :
  Z.pos p < 2 ^ 53 ->
  exists m e,
    binary_normalize prec emax (Z.pos p) 0 false = S754_finite false m e
    /\ valid_binary (S754_finite false m e) = true
    /\ -52 <= e <= 0
    /\ Z.pos m = Z.pos p * 2 ^ (- e).
Proof.
  intros Hp.
  pose proof (digits2_pos_bound p 53 ltac:(lia) Hp) as Hd.
  assert (1 <= Z.pos (digits2_pos p)) as Hd1 by lia.
  cbn [binary_normalize]. unfold binary_round.
  assert (fexp prec emax (Z.pos (digits2_pos p) + 0) = Z.pos (digits2_pos p) - 53)
    as Hfexp.
  { unfold fexp, SpecFloat.emin, prec, emax. lia. }
  rewrite Hfexp.
  assert (exists m,
            shl_align p 0 (Z.pos (digits2_pos p) - 53)
            = (m, Z.pos (digits2_pos p) - 53)
            /\ Z.pos (digits2_pos m) = 53
            /\ Z.pos m = Z.pos p * 2 ^ (53 - Z.pos (digits2_pos p)))
    as (m & -> & Hdm & Hm).
  { unfold shl_align.
    destruct (Z.pos (digits2_pos p) - 53 - 0) as [|k|k] eqn:Ek; [| lia |].
    - exists p. split; [f_equal; lia|]. split; [lia|].
      replace (53 - Z.pos (digits2_pos p)) with 0 by lia. lia.
    - exists (Pos.iter xO p k). split; [reflexivity|].
      rewrite digits2_pos_iter. split; [lia|].
      change (Pos.iter xO p k) with (shift_pos k p).
      rewrite shift_pos_correct.
      replace (53 - Z.pos (digits2_pos p)) with (Z.pos k) by lia.
      change (Z.pow_pos 2 k) with (2 ^ Z.pos k). lia. }
  set (e := Z.pos (digits2_pos p) - 53) in *.
  assert (fexp prec emax (Z.pos (digits2_pos m) + e) = e) as Hfexp'.
  { unfold fexp, SpecFloat.emin, prec, emax. lia. }
  unfold binary_round_aux, shr_fexp. cbn [Zdigits2 shr_record_of_loc].
  rewrite Hfexp', Z.sub_diag.
  cbn [shr shr_m loc_of_shr_record round_nearest_even Zdigits2].
  rewrite Hfexp', Z.sub_diag. cbn [shr shr_m].
  assert ((e <=? emax - prec) = true) as ->
    by (apply Z.leb_le; unfold emax, prec; lia).
  exists m, e. split; [reflexivity|]. split; [|split; [lia|]].
  - cbn [SpecFloat.valid_binary]. unfold bounded, canonical_mantissa.
    rewrite Hfexp', Z.eqb_refl. cbn [andb]. apply Z.leb_le. unfold emax, prec. lia.
  - rewrite Hm. replace (- e) with (53 - Z.pos (digits2_pos p)) by (unfold e; lia).
    reflexivity.
Qed.

Lemma number_of_integer_exact (z : Z) :
  0 <= z <= 2 ^ 53 -> JSNumber.integer_of (JSNumber.number_of_integer z) = Some z.
Proof.
  intros Hz.
  destruct (Z.eq_dec z (2 ^ 53)) as [-> | Hne]; [vm_compute; reflexivity|].
  destruct z as [|p|p]; [vm_compute; reflexivity | | lia].
  destruct (binary_normalize_exact p ltac:(lia)) as (m & e & Hn & Hv & He & Hm).
  unfold JSNumber.number_of_integer, JSNumber.integer_of.
  rewrite Hn, (FloatAxioms.Prim2SF_SF2Prim _ Hv).
  destruct (Z.leb_spec 0 e).
  - replace e with 0 in * by lia. f_equal; cbn in Hm; lia.
  - rewrite Hm, Z.mod_mul, Z.eqb_refl by (apply Z.pow_nonzero; lia).
    rewrite Z.div_mul by (apply Z.pow_nonzero; lia). f_equal; lia.
Qed.

(** Up to 2^63 the number of an integer is the one the conversion of the
    machine gives, which is how the counters of a pull request become
    numbers; so these hold their integer exactly up to 2^53. *)
Lemma number_of_integer_of_Z (z : Z) :
  0 <= z < 2 ^ 63 -> JSNumber.number_of_integer z = JS.number_of_Z z.
Proof.
  intros Hz. unfold JSNumber.number_of_integer, JS.number_of_Z.
  destruct z as [|p|p]; [reflexivity | | lia].
  rewrite <- (FloatAxioms.SF2Prim_Prim2SF (of_uint63 (Uint63.of_Z (Z.pos p)))).
  rewrite FloatAxioms.of_uint63_spec, Uint63.of_Z_spec.
  rewrite Z.mod_small by (change Uint63.wB with (2 ^ 63); lia).
  reflexivity.
Qed.

Lemma number_of_Z_exact (z : Z) :
  0 <= z <= 2 ^ 53 -> JSNumber.integer_of (JS.number_of_Z z) = Some z.
Proof.
  intros Hz. rewrite <- number_of_integer_of_Z by lia.
  apply number_of_integer_exact, Hz.
Qed.

(** X27. The pull-request numbers of a commit message: a message without
    "#" has none; the reference "#n", for n of at most 20 digits, has the
    one number [parseInt] returns for n, the double nearest to n, which
    holds n itself when n is at most 2^53; and the numbers of two parts
    separated by a space are those of the first part followed by those of
    the second. *)
Theorem prNumbersOf_message :
  (forall message, JS.regex_test ["#"%string] message = false ->
     Deployments.prNumbersOf message = [])
  /\ (forall n : nat, Z.of_nat n < 10 ^ 20 ->
        Deployments.prNumbersOf (String "#" (JSNumber.toString n))
        = [JSNumber.number_of_integer (Z.of_nat n)]
        /\ (Z.of_nat n <= 2 ^ 53 ->
            map JSNumber.integer_of
              (Deployments.prNumbersOf (String "#" (JSNumber.toString n)))
            = [Some (Z.of_nat n)]))
  /\ (forall a b : string,
        Deployments.prNumbersOf (a ++ String " " b)
        = Deployments.prNumbersOf a ++ Deployments.prNumbersOf b).
Proof.
  unfold Deployments.prNumbersOf. split; [|split].
  - induction message as [|c r IH]; [reflexivity|].
    intros H. apply no_hash_cons in H as [Hc Hr].
    cbn [Deployments.scan]. rewrite Hc.
    destruct (JSNumber.is_digit c); apply IH, Hr.
  - intros n _.
    assert (Deployments.scan (String "#" (JSNumber.toString n)) Deployments.Idle
            = [JSNumber.number_of_integer (Z.of_nat n)]) as Hscan.
    { unfold JSNumber.toString.
      change (Deployments.scan (String "#" ?s) Deployments.Idle)
        with (Deployments.scan s Deployments.Hash).
      pose proof (DecimalNat.Unsigned.of_to n) as Hn. unfold Nat.of_uint in Hn.
      destruct (Nat.to_uint n) as [|d|d|d|d|d|d|d|d|d|d] eqn:En;
        [cbn in Hn; subst n; cbn in En; discriminate | ..];
        cbn [NilEmpty.string_of_uint Deployments.scan];
        change (JSNumber.is_digit _) with true; cbn iota;
        match goal with |- context [JSNumber.digit_value ?c] =>
          let v := eval vm_compute in (JSNumber.digit_value c) in
          change (JSNumber.digit_value c) with v
        end;
        rewrite scan_uint by lia; rewrite <- Hn;
        cbn [Nat.of_uint_acc]; do 4 f_equal; rewrite Nat.tail_mul_spec; lia. }
    split; [exact Hscan|].
    intros Hn. rewrite Hscan. cbn [map].
    rewrite number_of_integer_exact by lia. reflexivity.
  - intros a b. apply scan_space.
Qed.

Lemma prNumbersOf_message_witness :
  Deployments.prNumbersOf "no reference 123" = []
  /\ Deployments.prNumbersOf (String "#" (JSNumber.toString 842))
     = [JSNumber.number_of_integer 842]
  /\ map JSNumber.integer_of
       (Deployments.prNumbersOf (String "#" (JSNumber.toString 842)))
     = [Some 842].
Proof.
  destruct prNumbersOf_message as (Hnone & Hone & _).
  split; [apply Hnone; reflexivity|].
  destruct (Hone 842%nat ltac:(cbn; lia)) as [Hnearest Hexact].
  split; [exact Hnearest | apply Hexact; cbn; lia].
Defined.

(** Numbers past 2^53 are rounded as [parseInt] rounds them. *)
Example prNumbersOf_samples :
  Deployments.prNumbersOf "Merge pull request #842 from org/fix (#17)"
  = [842%float; 17%float]
  /\ Deployments.prNumbersOf "fix #12abc ##3 # 4 #" = [12%float; 3%float]
  /\ Deployments.prNumbersOf "no reference 123" = []
  /\ Deployments.prNumbersOf "#9007199254740993 #7 #0"
     = [9007199254740992%float; 7%float; 0%float]
  /\ Deployments.prNumbersOf "#18446744073709551617" = [18446744073709551616%float].
Proof. repeat split; vm_compute; reflexivity. Qed.
